(** * Scribe: the STEP viewer's session, metadata setters and purge workflow

    A shallow embedding of [app.py]: the request handlers that edit the
    per-face metadata map, persist it by geometry fingerprint, export the
    document, group cylindrical faces into holes, and purge metadata from the
    store, the STEP file and the session.

    Part I holds the definitions, Part II the lemmas and theorems. *)

From stdpp Require Import gmap strings list fin_maps pretty.
From Stdlib Require Import ZArith NArith QArith Qround Sorted Lia Lqa.

Open Scope Z_scope.
Open Scope list_scope.

(* ===================================================================== *)
(** * Part I: definitions *)
(* ===================================================================== *)

(** ** File text

    [f.read().decode("utf-8", errors="replace")] yields a Python [str]: a
    sequence of Unicode code points.  A code point is an [N]. *)

Module Text.

Abbreviation char := N.
Abbreviation text := (list N).

(** A source literal, character by character. *)
Definition lit (s : string) : text :=
  map Ascii.N_of_ascii (String.list_ascii_of_string s).

Definition quote : char := 39%N.       (* ' *)

(** [\s] of Python's [re] on a [str] pattern: the code points for which
    [str.isspace] holds. *)
Definition is_space (c : char) : bool :=
  ((9 <=? c) && (c <=? 13) || (28 <=? c) && (c <=? 32)
   || (c =? 133) || (c =? 160) || (c =? 5760)
   || (8192 <=? c) && (c <=? 8202)
   || (c =? 8232) || (c =? 8233) || (c =? 8239) || (c =? 8287)
   || (c =? 12288))%N.

(** [[^']] *)
Definition not_quote (c : char) : bool := negb (c =? quote)%N.

(** [.] under [re.DOTALL] *)
Definition any_char (_ : char) : bool := true.

(** [s.startswith(p)], returning what follows the prefix. *)
Fixpoint strip_prefix (p s : text) : option text :=
  match p, s with
  | [], _ => Some s
  | a :: p', b :: s' => if (a =? b)%N then strip_prefix p' s' else None
  | _ :: _, [] => None
  end.

Definition starts (p s : text) : bool :=
  match strip_prefix p s with Some _ => true | None => false end.

(** [p in s] for a non-empty marker [p]. *)
Fixpoint occurs (p s : text) : bool :=
  starts p s || match s with [] => false | _ :: s' => occurs p s' end.

End Text.
Import Text.

(** ** The fragment of [re] that the purge workflow uses

    The three patterns of [admin_clear_metadata] are sequences of literals,
    one alternation of literals, and starred character classes (greedy
    [\s*], [[^']*]; lazy [.*?]).  Matching is by backtracking in the order
    Python's engine tries the alternatives, so the first success is the
    match [re] reports. *)

Module Regex.

Inductive greed := Greedy | Lazy.

Inductive atom :=
| Lit (l : text)
| Alt (ls : list text)
| Star (g : greed) (cls : char -> bool).

(** A pattern is a sequence of atoms, each tagged with the number of the
    capture group it lies in (0: outside any group). *)
Definition pattern := list (nat * atom).

Definition cont := text -> option (list text).

(** [(?:l1|l2|...)] followed by [k]: the first alternative after which the
    rest of the pattern succeeds. *)
Fixpoint alt (ls : list text) (k : cont) (s : text) : option (text * list text) :=
  match ls with
  | [] => None
  | l :: ls' =>
      match strip_prefix l s with
      | Some s' =>
          match k s' with
          | Some r => Some (l, r)
          | None => alt ls' k s
          end
      | None => alt ls' k s
      end
  end.

(** [cls*] followed by [k]: the longest run first, giving characters back
    one at a time while the rest of the pattern fails. *)
Fixpoint greedy (cls : char -> bool) (k : cont) (s : text) : option (text * list text) :=
  match s with
  | c :: s' =>
      if cls c then
        match greedy cls k s' with
        | Some (m, r) => Some (c :: m, r)
        | None => match k s with Some r => Some ([], r) | None => None end
        end
      else match k s with Some r => Some ([], r) | None => None end
  | [] => match k [] with Some r => Some ([], r) | None => None end
  end.

(** [cls*?] followed by [k]: the shortest run first. *)
Fixpoint lazy (cls : char -> bool) (k : cont) (s : text) : option (text * list text) :=
  match k s with
  | Some r => Some ([], r)
  | None =>
      match s with
      | c :: s' =>
          if cls c then
            match lazy cls k s' with
            | Some (m, r) => Some (c :: m, r)
            | None => None
            end
          else None
      | [] => None
      end
  end.

(** [re.match] of the atoms at the start of [s]: the text each atom
    matched, in order. *)
Fixpoint amatch (ps : list atom) : cont :=
  match ps with
  | [] => fun _ => Some []
  | Lit l :: ps' => fun s =>
      match strip_prefix l s with
      | Some s' => match amatch ps' s' with Some r => Some (l :: r) | None => None end
      | None => None
      end
  | Alt ls :: ps' => fun s =>
      match alt ls (amatch ps') s with Some (m, r) => Some (m :: r) | None => None end
  | Star Greedy cls :: ps' => fun s =>
      match greedy cls (amatch ps') s with Some (m, r) => Some (m :: r) | None => None end
  | Star Lazy cls :: ps' => fun s =>
      match lazy cls (amatch ps') s with Some (m, r) => Some (m :: r) | None => None end
  end.

Definition pmatch (p : pattern) (s : text) : option (list text) :=
  amatch (map snd p) s.

(** The text of capture group [g] in a match. *)
Fixpoint group (g : nat) (p : pattern) (ms : list text) : text :=
  match p, ms with
  | (g', _) :: p', m :: ms' =>
      if Nat.eqb g g' then m ++ group g p' ms' else group g p' ms'
  | _, _ => []
  end.

(** [re.sub(p, repl, s)]: leftmost non-overlapping matches, each replaced.
    [skip] counts the characters of the current match still to be passed
    over.  An empty match is replaced and the scan moves on by one
    character, as Python 3.7 and later do. *)
Fixpoint sub_from (p : pattern) (repl : list text -> text) (skip : nat) (s : text)
  {struct s} : text :=
  match skip with
  | S k => match s with [] => [] | _ :: s' => sub_from p repl k s' end
  | O =>
      match pmatch p s with
      | Some ms =>
          repl ms ++
          match s with
          | [] => []
          | c :: s' =>
              match length (List.concat ms) with
              | O => c :: sub_from p repl O s'
              | S n => sub_from p repl n s'
              end
          end
      | None =>
          match s with
          | [] => []
          | c :: s' => c :: sub_from p repl O s'
          end
      end
  end.

Definition sub (p : pattern) (repl : list text -> text) (s : text) : text :=
  sub_from p repl O s.

(** [re.search]: the first position at which the pattern matches. *)
Fixpoint search (p : pattern) (s : text) : option (list text) :=
  match pmatch p s with
  | Some ms => Some ms
  | None => match s with [] => None | _ :: s' => search p s' end
  end.

End Regex.
Import Regex.

(** ** Stripping the three embedding strategies (app.py 580-596) *)

Module Strip.

(** [r"\[SVFM:.*?\]"] *)
Definition tag_pattern : pattern :=
  [ (0, Lit (lit "[SVFM:")); (0, Star Lazy any_char); (0, Lit (lit "]")) ]%nat.

(** [r"/\* __STEPVIEWER_META_START__ .*? __STEPVIEWER_META_END__ \*/"] *)
Definition comment_pattern : pattern :=
  [ (0, Lit (lit "/* __STEPVIEWER_META_START__ "));
    (0, Star Lazy any_char);
    (0, Lit (lit " __STEPVIEWER_META_END__ */")) ]%nat.

(** [entity_pattern]: group 1 is the entity up to the quote that opens the
    payload, group 2 the quote that closes it and the parenthesis. *)
Definition entity_pattern : pattern :=
  [ (1, Lit (lit "DESCRIPTIVE_REPRESENTATION_ITEM"));
    (1, Star Greedy is_space);
    (1, Lit (lit "("));
    (1, Star Greedy is_space);
    (1, Lit (lit "'"));
    (1, Alt [lit "SVFM"; lit "StepViewerFaceMetadata"]);
    (1, Lit (lit "'"));
    (1, Star Greedy is_space);
    (1, Lit (lit ","));
    (1, Star Greedy is_space);
    (1, Lit (lit "'"));
    (0, Star Greedy not_quote);
    (2, Lit (lit "'"));
    (2, Star Greedy is_space);
    (2, Lit (lit ")")) ]%nat.

(** Strategy 2: [re.sub(r"\[SVFM:.*?\]", "", content, flags=re.DOTALL)] *)
Definition strip_tag (content : text) : text :=
  sub tag_pattern (fun _ => []) content.

(** Strategy 3: the comment block goes whole. *)
Definition strip_comment (content : text) : text :=
  sub comment_pattern (fun _ => []) content.

(** Strategy 1: [re.sub(entity_pattern, r"\1\2", content, flags=re.DOTALL)] *)
Definition strip_entity (content : text) : text :=
  sub entity_pattern
      (fun ms => group 1 entity_pattern ms ++ group 2 entity_pattern ms) content.

(** The three substitutions in the order the handler applies them. *)
Definition strip (content : text) : text :=
  strip_entity (strip_comment (strip_tag content)).

End Strip.
Import Strip.

(** ** The document session ([core.state.model]) and its surroundings *)

(** What [BRepAdaptor_Surface(face_shape, True)] reports for a face.  The
    radius is the exact value of the float the kernel returns. *)
Inductive Surface :=
| Cylinder (radius : Q)
| OtherSurface.

Record Shape := { surface : Surface }.

(** An XDE label; [label_null] is [IsNull()]. *)
Record Label := { label_entry : nat; label_null : bool }.

(** [Quantity_Color], by channel. *)
Definition Quantity := (Z * Z * Z)%type.

Inductive ColorTarget :=
| OnLabel (l : Label)
| OnShape (s : Shape).

(** The XDE document with the colours its colour tool has set, latest first. *)
Record Doc := { colors : list (ColorTarget * Quantity) }.

(** A value stored under an attribute name of a face's record: the colour is
    a string, thread and tolerance are objects of strings. *)
Inductive Value :=
| VStr (s : string)
| VObj (o : gmap string string).

#[global] Instance Value_eq_dec : EqDecision Value.
Proof. solve_decision. Defined.

#[global] Instance Value_countable : Countable Value.
Proof.
  refine (inj_countable'
            (fun v => match v with VStr s => inl s | VObj o => inr o end)
            (fun x => match x with inl s => VStr s | inr o => VObj o end) _).
  by intros [].
Defined.

(** One face's record (attribute name to value) and the session's metadata
    map (face index to record). *)
Abbreviation Meta := (gmap string Value).
Abbreviation FaceMeta := (gmap Z Meta).

Record Session := {
  doc : option Doc;
  face_shapes : list Shape;
  face_labels : list (option Label);
  face_hashes : list (option string);
  face_raws : list string;
  face_meta : FaceMeta;
  model_uuid : option string;
  original_filename : option string;
}.

(** Modelled from the spec: [model.reset()] of [core/state.py], which is not
    among the sources.  The session goes back to Empty: no document, no
    faces, fingerprints or descriptors, an empty metadata map, no
    identifier. *)
Definition reset : Session :=
  {| doc := None; face_shapes := []; face_labels := []; face_hashes := [];
     face_raws := []; face_meta := ∅; model_uuid := None;
     original_filename := None |}.

(** The Empty state as the session's data: nothing of a document is held. *)
Definition session_empty (s : Session) : Prop :=
  doc s = None ∧ face_shapes s = [] ∧ face_labels s = [] ∧
  face_hashes s = [] ∧ face_raws s = [] ∧ face_meta s = ∅.

Definition set_face_meta (fm : FaceMeta) (s : Session) : Session :=
  {| doc := doc s; face_shapes := face_shapes s; face_labels := face_labels s;
     face_hashes := face_hashes s; face_raws := face_raws s; face_meta := fm;
     model_uuid := model_uuid s; original_filename := original_filename s |}.

Definition set_doc (d : option Doc) (s : Session) : Session :=
  {| doc := d; face_shapes := face_shapes s; face_labels := face_labels s;
     face_hashes := face_hashes s; face_raws := face_raws s;
     face_meta := face_meta s; model_uuid := model_uuid s;
     original_filename := original_filename s |}.

Definition set_model_uuid (u : option string) (s : Session) : Session :=
  {| doc := doc s; face_shapes := face_shapes s; face_labels := face_labels s;
     face_hashes := face_hashes s; face_raws := face_raws s;
     face_meta := face_meta s; model_uuid := u;
     original_filename := original_filename s |}.

Definition set_original_filename (n : option string) (s : Session) : Session :=
  {| doc := doc s; face_shapes := face_shapes s; face_labels := face_labels s;
     face_hashes := face_hashes s; face_raws := face_raws s;
     face_meta := face_meta s; model_uuid := model_uuid s;
     original_filename := n |}.

(** The files the handlers touch: [UPLOAD_FOLDER/<name>.step] by name, and
    [tests/sample.step]. *)
Inductive Path :=
| UploadFile (name : string)
| SampleFile.

Record Files := { uploads : gmap string text; sample : option text }.

Definition read_file (p : Path) (fs : Files) : option text :=
  match p with
  | UploadFile n => uploads fs !! n
  | SampleFile => sample fs
  end.

Definition write_file (p : Path) (t : text) (fs : Files) : Files :=
  match p with
  | UploadFile n => {| uploads := <[n := t]> (uploads fs); sample := sample fs |}
  | SampleFile => {| uploads := uploads fs; sample := Some t |}
  end.

Definition remove_file (p : Path) (fs : Files) : Files :=
  match p with
  | UploadFile n => {| uploads := delete n (uploads fs); sample := sample fs |}
  | SampleFile => {| uploads := uploads fs; sample := None |}
  end.

(** An entry of the fingerprint store: the record and the raw descriptor. *)
Abbreviation Store := (gmap string (Meta * option string)).

(** What a handler does to the store, the file and the session's metadata,
    in the order it does it. *)
Inductive Event :=
| SaveFaceMeta (fh : string)
| DeleteFaces (hashes : list string)
| ClearDatabase
| WriteFile (p : Path)
| Report (clean : bool)
| ClearMemory.

Record World := {
  session : Session;
  db : Store;
  files : Files;
  log : list Event;
}.

Definition with_session (s : Session) (w : World) : World :=
  {| session := s; db := db w; files := files w; log := log w |}.

Definition with_files (fs : Files) (w : World) : World :=
  {| session := session w; db := db w; files := fs; log := log w |}.

Definition emit (e : Event) (w : World) : World :=
  {| session := session w; db := db w; files := files w; log := log w ++ [e] |}.

(** Modelled from the spec: [save_face_meta] of [face_db.py], which is not
    among the sources.  It is the store's [put]: an upsert that overwrites
    the entry of the fingerprint.  The setters never call it with an empty
    record. *)
Definition save_face_meta (fh : string) (meta : Meta) (raw : option string)
  (w : World) : World :=
  emit (SaveFaceMeta fh)
    {| session := session w; db := <[fh := (meta, raw)]> (db w);
       files := files w; log := log w |}.

(** Modelled from the spec: [delete_faces] of [face_db.py], the store's
    [delete_many]: it removes the entries of the given fingerprints and
    ignores the absent ones. *)
Definition delete_faces (hashes : list string) (w : World) : World :=
  emit (DeleteFaces hashes)
    {| session := session w; db := foldr delete (db w) hashes;
       files := files w; log := log w |}.

(** Modelled from the spec: [clear_database] of [face_db.py], the store's
    [clear_all]: it removes every entry. *)
Definition clear_database (w : World) : World :=
  emit ClearDatabase
    {| session := session w; db := ∅; files := files w; log := log w |}.

(** The JSON summary of the faces that the loader returns. *)
Definition FacesJson := list string.

(** The collaborators that are not among the sources.  A [None] or [inl]
    result stands for a raised exception. *)
Class Collaborators := {
  (** [core.utils.hex_to_quantity] *)
  hex_to_quantity : string -> option Quantity;
  (** [core.loader.load_step_xcaf]: reads the file, fills the session as it
      goes, and returns the faces or raises. *)
  load_step_xcaf : Path -> World -> Session * (string + FacesJson);
  (** [core.exporter.export_step_xcaf]: writes the interchange file under
      the upload folder and returns its name, MIME type and stream, or
      raises.  It is handed the session, not the store. *)
  export_step_xcaf : Session -> Files -> Files * (string + (string * string * text));
  (** [core.metadata.extract_meta_from_step], on the text of the file. *)
  extract_meta_from_step : text -> FaceMeta;
  (** The operating system's part in
      [os.path.join(app.config["UPLOAD_FOLDER"], f"{target_uuid}.step")]:
      for an identifier that is not a plain file name (it holds a path
      separator, as [../tests/sample] does), the file that the joined path
      leads to, or [None] when it leads to none of the files above. *)
  path_target : string -> option Path;
}.

(** ** Responses *)

Record HoleGroup := { diameter : Z; ids : list nat; count : nat }.

Inductive Body :=
| Error (msg : string)
| Updated (db_updated_count : nat)
| Faces (faces : FacesJson) (uuid : option string)
| Holes (holes : list HoleGroup)
| Attachment (download_name mimetype : string) (stream : text)
| Purged (deleted_count : nat) (message : string).

Record Response := { status : Z; body : Body }.

Definition respond (code : Z) (b : Body) : Response :=
  {| status := code; body := b |}.

(** ** The metadata setters (app.py 127-173, 200-244, 402-442) *)

(** One element of [updates]: [item.get("face_id")], a JSON integer or
    [None] when the key is missing or null, and the attribute, likewise. *)
Record Item (A : Type) := { face_id : option Z; attr : option A }.
Arguments face_id {A} _.
Arguments attr {A} _.

(** The JSON body of a setter: [data.get("updates")], and the top-level
    [face_id] and attribute of the single-update form. *)
Record Batch (A : Type) := { updates : option (list (Item A)); single : Item A }.
Arguments updates {A} _.
Arguments single {A} _.

(** [updates], or the one-element list built from the top-level keys. *)
Definition batch_items {A} (data : Batch A) : list (Item A) :=
  match updates data with
  | Some us => us
  | None => [single data]
  end.

(** [face_id < 0 or face_id >= len(model.face_shapes)] negated. *)
Definition in_range (s : Session) (i : Z) : bool :=
  (0 <=? i) && (i <? Z.of_nat (length (face_shapes s))).

(** [fh and fh != "unknown"] *)
Definition known_hash (fh : option string) : option string :=
  match fh with
  | Some h => if decide (h = "" ∨ h = "unknown") then None else Some h
  | None => None
  end.

(** [model.face_meta.setdefault(face_id, {})[key] = v] *)
Definition set_attr (key : string) (v : Value) (i : Z) (fm : FaceMeta) : FaceMeta :=
  <[i := <[key := v]> (default ∅ (fm !! i))]> fm.

(** [if face_id in model.face_meta: pop the key; delete the record if it is
    left empty] *)
Definition pop_attr (key : string) (i : Z) (fm : FaceMeta) : FaceMeta :=
  match fm !! i with
  | Some m =>
      let m' := delete key m in
      if decide (m' = ∅) then delete i fm else <[i := m']> fm
  | None => fm
  end.

(** The block each setter ends an item with: persist the face's record under
    its geometry hash.  Returns the world and the new [db_updated_count].
    The loops reach it with [0 <= i] only, after the range check. *)
Definition persist (i : Z) (w : World) (n : nat) : World * nat :=
  let s := session w in
  if i <? Z.of_nat (length (face_hashes s)) then
    match face_hashes s !! Z.to_nat i with
    | Some fh =>
        let raw := face_raws s !! Z.to_nat i in
        match known_hash fh with
        | Some h =>
            let meta := default ∅ (face_meta s !! i) in
            if decide (meta = ∅) then (w, n)
            else (save_face_meta h meta raw w, S n)
        | None => (w, n)
        end
    | None => (w, n)
    end
  else (w, n).

Definition thread_value (thread : gmap string string) : Value :=
  VObj (list_to_map
          [("type", default "" (thread !! "type"));
           ("size", default "" (thread !! "size"));
           ("pitch", default "" (thread !! "pitch"));
           ("class", default "" (thread !! "class"))]).

Definition tolerance_value (tol : gmap string string) : Value :=
  VObj (list_to_map
          [("type", default "" (tol !! "type"));
           ("value", default "" (tol !! "value"));
           ("datum", default "" (tol !! "datum"))]).

(** [if thread:], [if tol:]: the attribute object when it is present and
    not empty. *)
Definition truthy (o : option (gmap string string)) : option (gmap string string) :=
  match o with
  | Some d => if decide (d = ∅) then None else Some d
  | None => None
  end.

(** The body of the loop of [set_thread] and of [set_tolerance]. *)
Definition object_step (key : string) (mk : gmap string string -> Value)
  (acc : World * nat) (item : Item (gmap string string)) : World * nat :=
  let '(w, n) := acc in
  match face_id item with
  | None => (w, n)
  | Some i =>
      if in_range (session w) i then
        let fm := face_meta (session w) in
        let fm' :=
          match truthy (attr item) with
          | Some d => set_attr key (mk d) i fm
          | None => pop_attr key i fm
          end in
        persist i (with_session (set_face_meta fm' (session w)) w) n
      else (w, n)
  end.

Definition no_model : Response := respond 400 (Error "No model loaded").

Definition set_thread (w : World) (data : Batch (gmap string string))
  : World * Response :=
  match doc (session w) with
  | None => (w, no_model)
  | Some _ =>
      let '(w', n) :=
        fold_left (object_step "thread" thread_value) (batch_items data) (w, O) in
      (w', respond 200 (Updated n))
  end.

Definition set_tolerance (w : World) (data : Batch (gmap string string))
  : World * Response :=
  match doc (session w) with
  | None => (w, no_model)
  | Some _ =>
      let '(w', n) :=
        fold_left (object_step "tolerance" tolerance_value) (batch_items data) (w, O) in
      (w', respond 200 (Updated n))
  end.

Section Handlers.

Context `{Collaborators}.

(** [model.color_tool.SetColor(target, q_color, XCAFDoc_ColorSurf)] *)
Definition SetColor (t : ColorTarget) (q : Quantity) (d : Doc) : Doc :=
  {| colors := (t, q) :: colors d |}.

(** The body of the loop of [set_color].  Inside the [try], the colour is
    parsed and the label and shape are read before anything is changed, so
    an exception leaves the item without effect. *)
Definition color_step (acc : World * nat) (item : Item string) : World * nat :=
  let '(w, n) := acc in
  let s := session w in
  match face_id item, attr item with
  | Some i, Some hex_color =>
      if in_range s i then
        match hex_to_quantity hex_color,
              face_labels s !! Z.to_nat i,
              face_shapes s !! Z.to_nat i,
              doc s with
        | Some q_color, Some face_label, Some face_shape, Some d =>
            let target :=
              match face_label with
              | Some l => if label_null l then OnShape face_shape else OnLabel l
              | None => OnShape face_shape
              end in
            let s1 := set_doc (Some (SetColor target q_color d)) s in
            let s2 := set_face_meta
                        (set_attr "color" (VStr hex_color) i (face_meta s1)) s1 in
            persist i (with_session s2 w) n
        | _, _, _, _ => (w, n)
        end
      else (w, n)
  | _, _ => (w, n)
  end.

Definition set_color (w : World) (data : Batch string) : World * Response :=
  match doc (session w) with
  | None => (w, no_model)
  | Some _ =>
      let '(w', n) := fold_left color_step (batch_items data) (w, O) in
      (w', respond 200 (Updated n))
  end.

(** ** Export (app.py 176-197) *)

Definition export_step (w : World) : World * Response :=
  match doc (session w) with
  | None => (w, no_model)
  | Some _ =>
      let '(fs, r) := export_step_xcaf (session w) (files w) in
      let w' := with_files fs w in
      match r with
      | inr (filename, mimetype, file_stream) =>
          let out_name :=
            match model_uuid (session w) with
            | Some u => if decide (u = "") then filename else u +:+ ".step"
            | None => filename
            end in
          (w', respond 200 (Attachment out_name mimetype file_stream))
      | inl e => (w', respond 500 (Error e))
      end
  end.

(** ** Hole detection (app.py 364-400) *)

(** Python's [round] on the exact value: to the nearest integer, ties to
    the even one. *)
Definition round_half_even (q : Q) : Z :=
  let f := Qfloor q in
  match Qcompare (q - inject_Z f) (1 # 2) with
  | Lt => f
  | Gt => f + 1
  | Eq => if Z.even f then f else f + 1
  end.

(** [round(x, 4)], in ten-thousandths: the float that [round] returns is
    the one nearest to this many units of 0.0001. *)
Definition round4 (x : Q) : Z := round_half_even (x * 10000).

(** [get_cylinder_info]: the diameter of a cylindrical face. *)
Definition get_cylinder_info (face_shape : Shape) : option Z :=
  match surface face_shape with
  | Cylinder r => Some (round4 (r * 2))
  | OtherSurface => None
  end.

(** [grouped.setdefault(d, []).append(i)] on a dict in insertion order. *)
Fixpoint group_add (d : Z) (i : nat) (grouped : list (Z * list nat))
  : list (Z * list nat) :=
  match grouped with
  | [] => [(d, [i])]
  | (d', l) :: g' =>
      if d =? d' then (d', l ++ [i]) :: g' else (d', l) :: group_add d i g'
  end.

(** The loop over [enumerate(model.face_shapes)], from index [i] on. *)
Fixpoint group_faces (i : nat) (shapes : list Shape) (grouped : list (Z * list nat))
  : list (Z * list nat) :=
  match shapes with
  | [] => grouped
  | shape :: rest =>
      match get_cylinder_info shape with
      | Some d => group_faces (S i) rest (group_add d i grouped)
      | None => group_faces (S i) rest grouped
      end
  end.

(** [result.sort(key=lambda x: x["diameter"])]: a stable sort. *)
Fixpoint insert_group (x : HoleGroup) (l : list HoleGroup) : list HoleGroup :=
  match l with
  | [] => [x]
  | y :: l' =>
      if diameter x <=? diameter y then x :: y :: l' else y :: insert_group x l'
  end.

Definition sort_groups (l : list HoleGroup) : list HoleGroup :=
  foldr insert_group [] l.

(** [{"diameter": d, "ids": ids, "count": len(ids)}] *)
Definition as_group (entry : Z * list nat) : HoleGroup :=
  let '(d, l) := entry in {| diameter := d; ids := l; count := length l |}.

Definition hole_groups (shapes : list Shape) : list HoleGroup :=
  sort_groups (map as_group (group_faces O shapes [])).

Definition get_holes (w : World) : World * Response :=
  match doc (session w) with
  | None => (w, no_model)
  | Some _ => (w, respond 200 (Holes (hole_groups (face_shapes (session w)))))
  end.

(** ** Loading (app.py 73-124) *)

(** [request.files["file"]]: [os.path.splitext(f.filename)] as
    [(up_stem, up_ext)], and the content. *)
Record FilePart := {
  up_stem : string;
  up_ext : string;
  up_content : text;
}.

Definition ascii_lower (c : Ascii.ascii) : Ascii.ascii :=
  let n := Ascii.nat_of_ascii c in
  if ((65 <=? n) && (n <=? 90))%nat then Ascii.ascii_of_nat (n + 32) else c.

(** [str.lower], on the letters that matter for the two extensions. *)
Definition lower (s : string) : string :=
  String.string_of_list_ascii (map ascii_lower (String.list_ascii_of_string s)).

(** The world when [upload] calls the loader: the file is saved under the
    fresh [uuid.uuid4().hex], and the session carries the new names. *)
Definition upload_staged (w : World) (f : FilePart) (save_uuid : string) : World :=
  let w1 := with_files (write_file (UploadFile save_uuid) (up_content f) (files w)) w in
  with_session
    (set_model_uuid (Some save_uuid)
       (set_original_filename (Some (up_stem f)) (session w1))) w1.

(** [ext not in (".step", ".stp")] negated. *)
Definition step_extension (f : FilePart) : bool :=
  bool_decide (lower (up_ext f) = ".step" \/ lower (up_ext f) = ".stp").

Definition upload (w : World) (file : option FilePart) (save_uuid : string)
  : World * Response :=
  match file with
  | None => (w, respond 400 (Error "No file part"))
  | Some f =>
      if decide (up_stem f +:+ up_ext f = "") then
        (w, respond 400 (Error "No selected file"))
      else if step_extension f then
        let save_path := UploadFile save_uuid in
        let w2 := upload_staged w f save_uuid in
        match load_step_xcaf save_path w2 with
        | (s', inr faces) =>
            (with_session s' w2, respond 200 (Faces faces (model_uuid s')))
        | (s', inl e) =>
            (with_files (remove_file save_path (files w2)) (with_session reset w2),
             respond 500 (Error e))
        end
      else
        (w, respond 400 (Error "Only .step / .stp files are supported"))
  end.

(** The world when [get_model] calls the loader: the session was reset and
    given the identifier. *)
Definition get_model_staged (w : World) (uuid_str : string) : World :=
  with_session (set_model_uuid (Some uuid_str) reset) w.

Definition get_model (w : World) (uuid_str : string) : World * Response :=
  let path := UploadFile uuid_str in
  match read_file path (files w) with
  | None => (w, respond 404 (Error "Model not found"))
  | Some _ =>
      let w1 := get_model_staged w uuid_str in
      match load_step_xcaf path w1 with
      | (s', inr faces) => (with_session s' w1, respond 200 (Faces faces (Some uuid_str)))
      | (s', inl e) => (with_session s' w1, respond 500 (Error e))
      end
  end.

(** ** Purge (app.py 511-622) *)

(** [data.get("scope", "all")]: the key may be absent, hold a string, or
    hold some other JSON value, which equals none of the scope names. *)
Inductive JScope :=
| ScopeAbsent
| ScopeStr (s : string)
| ScopeOther.

Record PurgeRequest := { pr_uuid : option string; pr_scope : JScope }.

Definition scope_of (j : JScope) : JScope :=
  match j with
  | ScopeAbsent => ScopeStr "all"
  | other => other
  end.

(** [scope in names] *)
Definition scope_in (scope : JScope) (names : list string) : bool :=
  match scope with
  | ScopeStr s => bool_decide (s ∈ names)
  | _ => false
  end.

(** An identifier without a path separator: joined to the upload folder it
    names a file of that folder and no other. *)
Definition plain_name (name : string) : bool :=
  forallb (fun c => negb (Ascii.eqb c (Ascii.ascii_of_nat 47)
                          || Ascii.eqb c (Ascii.ascii_of_nat 92)))
          (String.list_ascii_of_string name).

(** [os.path.join(UPLOAD_FOLDER, f"{target_uuid}.step")] when
    [os.path.exists] holds of it.  The identifier goes into the path as the
    request gives it: a plain name is looked up in the upload folder, any
    other leads where the operating system says. *)
Definition upload_path (fs : Files) (target_uuid : string) : option Path :=
  if plain_name target_uuid then
    match uploads fs !! target_uuid with
    | Some _ => Some (UploadFile target_uuid)
    | None => None
    end
  else
    match path_target target_uuid with
    | Some p => match read_file p fs with Some _ => Some p | None => None end
    | None => None
    end.

(** [UPLOAD_FOLDER/<uuid>.step], or [tests/sample.step] when that is
    missing and the identifier is "sample"; [None] when the path that
    results does not exist. *)
Definition resolve (fs : Files) (target_uuid : string) : option Path :=
  match upload_path fs target_uuid with
  | Some p => Some p
  | None =>
      if decide (target_uuid = "sample") then
        match sample fs with
        | Some _ => Some SampleFile
        | None => None
        end
      else None
  end.

(** "Ensure model is loaded (if different from current)": the response
    that ends the request, or the world to go on with. *)
Definition ensure_loaded (w : World) (target_uuid : string) : World * option Response :=
  if decide (model_uuid (session w) = Some target_uuid) then (w, None)
  else
    let w1 := with_session (set_model_uuid (Some target_uuid) reset) w in
    match resolve (files w1) target_uuid with
    | None => (w1, Some (respond 404 (Error "Model not found on server")))
    | Some load_path =>
        match load_step_xcaf load_path w1 with
        | (s', inr _) => (with_session s' w1, None)
        | (s', inl e) =>
            (with_session s' w1,
             Some (respond 500 (Error ("Failed to load model: " +:+ e))))
        end
    end.

(** Step 1, database cleanup: the world, [deleted_count] and the message
    parts. *)
Definition db_cleanup (scope : JScope) (w : World) : World * nat * list string :=
  if scope_in scope ["db"; "all"] then
    if scope_in scope ["all"] then
      (clear_database w, O, ["Deleted ALL DB entries (global wipe)"])
    else
      let hashes_to_delete := omap known_hash (face_hashes (session w)) in
      let deleted_count := length hashes_to_delete in
      (delete_faces hashes_to_delete w, deleted_count,
       ["Deleted " +:+ pretty deleted_count +:+ " DB entries"])
  else (w, O, []).

(** Step 2, STEP file cleanup: [None] when the file is not found. *)
Definition file_cleanup (scope : JScope) (target_uuid : string) (w : World)
  : option (World * list string) :=
  if scope_in scope ["file"; "all"] then
    match resolve (files w) target_uuid with
    | None => None
    | Some file_path =>
        match read_file file_path (files w) with
        | None => None
        | Some content =>
            let original_len := Z.of_nat (length content) in
            let content' := strip content in
            let stripped_chars := original_len - Z.of_nat (length content') in
            let w1 := emit (WriteFile file_path)
                        (with_files (write_file file_path content' (files w)) w) in
            let after_meta := extract_meta_from_step content' in
            let w2 := emit (Report (bool_decide (after_meta = ∅))) w1 in
            Some (w2, ["Stripped STEP file (" +:+ pretty stripped_chars
                         +:+ " chars removed)"])
        end
    end
  else Some (w, []).

(** Step 3: [model.face_meta = {}] *)
Definition clear_memory (w : World) : World :=
  emit ClearMemory (with_session (set_face_meta ∅ (session w)) w).

Definition join_parts (parts : list string) : string :=
  String.concat " & " parts.

Definition admin_clear_metadata (w : World) (data : PurgeRequest)
  : World * Response :=
  match pr_uuid data with
  | None => (w, respond 400 (Error "UUID required"))
  | Some target_uuid =>
      if decide (target_uuid = "") then (w, respond 400 (Error "UUID required"))
      else
        let scope := scope_of (pr_scope data) in
        match ensure_loaded w target_uuid with
        | (w0, Some r) => (w0, r)
        | (w0, None) =>
            let '(w1, deleted_count, parts1) := db_cleanup scope w0 in
            match file_cleanup scope target_uuid w1 with
            | None => (w1, respond 404 (Error "STEP file not found on server"))
            | Some (w2, parts2) =>
                let w3 := clear_memory w2 in
                (w3, respond 200
                       (Purged deleted_count
                          (join_parts (parts1 ++ parts2 ++
                                       ["Cleared in-memory metadata"]))))
            end
        end
  end.

End Handlers.

(** ** Embedding and extraction of the annotation engine *)

Module Annotation.

(** Modelled from the spec: the Metadata Codec of [core/metadata.py], which
    is not among the sources.  [encode] gives the payload of a metadata map,
    [decode] reads one back or fails ([None], the CorruptPayload condition
    that callers treat as no metadata); [transport] is the base64-safe
    encoding that the description tag carries. *)
Class Codec := {
  encode : FaceMeta -> text;
  decode : text -> option FaceMeta;
  transport : text -> text;
  untransport : text -> option text;
}.

(** The markers that open the three embeddings. *)
Definition tag_marker : text := lit "[SVFM:".
Definition comment_marker : text := lit "/* __STEPVIEWER_META_START__ ".
Definition comment_end : text := lit " __STEPVIEWER_META_END__ */".
Definition entity_marker : text := lit "DESCRIPTIVE_REPRESENTATION_ITEM".

(** Modelled from the spec: what the three strategies of
    [inject_meta_into_step] write, in the syntax that the stripping code of
    app.py 580-596 names.  Strategy 1, the entity field. *)
Definition entity_item (payload : text) : text :=
  lit "DESCRIPTIVE_REPRESENTATION_ITEM('SVFM','" ++ payload ++ lit "')".

(** Modelled from the spec: strategy 2, the bracketed tag appended inside
    the product description. *)
Definition description_tag (payload : text) : text :=
  tag_marker ++ payload ++ lit "]".

(** Modelled from the spec: strategy 3, the payload between its two
    sentinels in a file-level comment. *)
Definition comment_block (payload : text) : text :=
  comment_marker ++ payload ++ comment_end.

(** Modelled from the spec: the exported file without its metadata, cut at
    the three places where the strategies write: inside the product
    description, in the entity list, and at the file-level comment. *)
Record Host := {
  before_tag : text;
  before_entity : text;
  before_comment : text;
  after_comment : text;
}.

Definition host_text (h : Host) : text :=
  before_tag h ++ before_entity h ++ before_comment h ++ after_comment h.

(** A host that carries no metadata of the viewer: neither of the two
    sentinels that open a tag or a comment block, and neither of the two tag
    strings under which the viewer's entity is written.  Entities of the
    file's own, [DESCRIPTIVE_REPRESENTATION_ITEM] among them, brackets,
    stars, slashes and comments are all allowed. *)
Definition host_clean (h : Host) : bool :=
  negb (occurs tag_marker (host_text h))
  && negb (occurs comment_marker (host_text h))
  && negb (occurs (lit "'SVFM'") (host_text h))
  && negb (occurs (lit "'StepViewerFaceMetadata'") (host_text h)).

(** A payload that is text-safe in the host format: it holds no quote,
    which would end the string literal it is written in, and none of the
    sentinels of the embedding. *)
Definition payload_safe (p : text) : bool :=
  forallb (fun c => negb (c =? quote)%N) p
  && negb (occurs tag_marker p)
  && negb (occurs comment_marker p)
  && negb (occurs comment_end p).

(** A tag payload never closes the bracket itself. *)
Definition tag_safe (q : text) : bool :=
  forallb (fun c => negb (c =? 93)%N) q.

Section WithCodec.

Context `{Codec}.

(** Modelled from the spec: embedding a metadata map by all three
    strategies at once. *)
Definition embed (h : Host) (r : FaceMeta) : text :=
  before_tag h ++ description_tag (transport (encode r)) ++
  before_entity h ++ entity_item (encode r) ++
  before_comment h ++ comment_block (encode r) ++
  after_comment h.

(** Modelled from the spec: the scan for strategy 1; the payload of the
    first entity of the viewer. *)
Definition find_entity (t : text) : option text :=
  match search entity_pattern t with
  | Some ms => Some (nth 11 ms [])
  | None => None
  end.

(** Modelled from the spec: the scan for strategy 2. *)
Definition find_tag (t : text) : option text :=
  match search tag_pattern t with
  | Some ms => Some (nth 1 ms [])
  | None => None
  end.

(** Modelled from the spec: the scan for strategy 3. *)
Definition find_comment (t : text) : option text :=
  match search comment_pattern t with
  | Some ms => Some (nth 1 ms [])
  | None => None
  end.

(** Modelled from the spec: an absent or corrupt payload is no metadata. *)
Definition decoded (payload : option text) : FaceMeta :=
  match payload with
  | Some p => default ∅ (decode p)
  | None => ∅
  end.

(** Modelled from the spec: [extract_meta_from_step], here [extract].  It
    scans for the three strategies, treats an absent or corrupt payload as
    no metadata, and merges what it finds; on conflict the entity field
    wins over the tag, and the tag over the comment block. *)
Definition extract (t : text) : FaceMeta :=
  let from_entity := decoded (find_entity t) in
  let from_tag :=
    decoded (match find_tag t with Some q => untransport q | None => None end) in
  let from_comment := decoded (find_comment t) in
  from_entity ∪ from_tag ∪ from_comment.

End WithCodec.

End Annotation.
Import Annotation.

(** ** What a match and a blanking are, stated apart from the matcher *)

(** The text an atom may match. *)
Inductive atom_match : atom -> text -> Prop :=
| am_lit l : atom_match (Lit l) l
| am_alt ls l : In l ls -> atom_match (Alt ls) l
| am_star g cls m : Forall (fun c => cls c = true) m -> atom_match (Star g cls) m.

(** The two tags under which the viewer's entity is written. *)
Definition entity_tags : list text := [lit "SVFM"; lit "StepViewerFaceMetadata"].

(** A [DESCRIPTIVE_REPRESENTATION_ITEM] entity with its optional white
    space [w1 .. w5], its tag string and its quoted payload. *)
Definition entity_text (w1 w2 tag w3 w4 payload w5 : text) : text :=
  lit "DESCRIPTIVE_REPRESENTATION_ITEM" ++ w1 ++ lit "(" ++ w2 ++
  lit "'" ++ tag ++ lit "'" ++ w3 ++ lit "," ++ w4 ++
  lit "'" ++ payload ++ lit "'" ++ w5 ++ lit ")".

Definition all_space (w : text) : Prop := Forall (fun c => is_space c = true) w.

(** The entity up to the quote that closes its tag. *)
Definition entity_head (w1 w2 tag : text) : text :=
  lit "DESCRIPTIVE_REPRESENTATION_ITEM" ++ w1 ++ lit "(" ++ w2 ++
  lit "'" ++ tag ++ lit "'".

(** [blanked t t']: [t'] is [t] with the payload of some of the viewer's
    entities emptied.  Every other character, inside those entities and
    outside them, is kept in place. *)
Inductive blanked : text -> text -> Prop :=
| blanked_nil : blanked [] []
| blanked_keep c t t' : blanked t t' -> blanked (c :: t) (c :: t')
| blanked_entity w1 w2 tag w3 w4 payload w5 t t' :
    all_space w1 -> all_space w2 -> all_space w3 -> all_space w4 -> all_space w5 ->
    In tag entity_tags ->
    Forall (fun c => c <> quote) payload ->
    blanked t t' ->
    blanked (entity_text w1 w2 tag w3 w4 payload w5 ++ t)
            (entity_text w1 w2 tag w3 w4 [] w5 ++ t').

(** [e] is an entity of the viewer whose quoted payload is [payload]. *)
Definition viewer_entity (e payload : text) : Prop :=
  exists w1 w2 tag w3 w4 w5,
    all_space w1 /\ all_space w2 /\ all_space w3 /\ all_space w4 /\ all_space w5 /\
    In tag entity_tags /\
    Forall (fun c => c <> quote) payload /\
    e = entity_text w1 w2 tag w3 w4 payload w5.

(** Two quotes in a row somewhere in the text: the mark that an emptied
    payload leaves. *)
Fixpoint twins (s : text) : bool :=
  match s with
  | a :: (b :: _) as s' => (a =? quote)%N && (b =? quote)%N || twins s'
  | _ => false
  end.

(** [quiet M a b]: in [a ++ b], the marker [M] starts at no position of
    [a]. *)
Definition quiet (M a b : text) : Prop :=
  forall a1 a2, a = a1 ++ a2 -> a2 <> [] -> starts M (a2 ++ b) = false.

(** [calm p a b]: in [a ++ b], the pattern [p] matches at no position of
    [a]. *)
Definition calm (p : pattern) (a b : text) : Prop :=
  forall a1 a2, a = a1 ++ a2 -> a2 <> [] -> pmatch p (a2 ++ b) = None.

(** The characters that can stand in the viewer's entity after its first
    and up to the quote that closes its tag: the letters of the keyword and
    of the two tags, white space, the parenthesis and the quote. *)
Definition entity_inner (c : char) : bool :=
  is_space c
  || existsb (N.eqb c)
       (lit "ESCRIPTIVE_REPRESENTATION_ITEM('SVFMStepViewerFaceMetadata").

(** What follows a text cannot continue an entity begun in it. *)
Definition ends_entities (b : text) : bool :=
  match b with
  | [] => true
  | c :: _ => negb (entity_inner c)
  end.

(** The first character of [b], if any, is none of the characters of [M]
    past its first: no occurrence of [M] can run from a text into [b]. *)
Definition head_outside (M b : text) : bool :=
  match b with
  | [] => true
  | c :: _ => negb (existsb (N.eqb c) (tl M))
  end.

(** No character of [a] is the one [M] begins with. *)
Definition lacks_head (M a : text) : bool :=
  match M with
  | [] => false
  | h :: _ => forallb (fun c => negb (c =? h)%N) a
  end.

(** The first character of [s], if any, is outside the class: a greedy run
    of the class ends before [s]. *)
Definition stops (cls : char -> bool) (s : text) : Prop :=
  match s with
  | [] => True
  | c :: _ => cls c = false
  end.

(** ** Notions the claims about the setters use *)

(** The fingerprint under which a face can be persisted, if it has one:
    present, not empty and not [unknown]. *)
Definition fingerprint_of (s : Session) (i : Z) : option string :=
  match face_hashes s !! Z.to_nat i with
  | Some fh => known_hash fh
  | None => None
  end.

(** An item whose face index is present and in range. *)
Definition valid_item {A} (s : Session) (item : Item A) : bool :=
  match face_id item with
  | Some i => in_range s i
  | None => false
  end.

(** The face indices that the valid items of a batch name. *)
Definition named {A} (s : Session) (items : list (Item A)) (i : Z) : Prop :=
  exists item, In item items /\ face_id item = Some i /\ in_range s i = true.

(** The same request with only its valid items. *)
Definition only_valid {A} (s : Session) (data : Batch A) : Batch A :=
  {| updates := Some (filter (fun item => valid_item s item = true) (batch_items data));
     single := single data |}.

(** What every setter's loop body does with one item: it keeps the faces
    and their fingerprints, skips an item that is not valid, touches the
    record of the named face only, and either leaves the store alone or
    upserts one non-empty record under the known fingerprint of that face,
    counting it. *)
Definition step_sound {A} (step : World * nat -> Item A -> World * nat) : Prop :=
  forall w n item w' n',
    step (w, n) item = (w', n') ->
    face_shapes (session w') = face_shapes (session w) /\
    face_hashes (session w') = face_hashes (session w) /\
    files w' = files w /\
    (valid_item (session w) item = false -> w' = w /\ n' = n) /\
    (forall j, face_id item <> Some j ->
               face_meta (session w') !! j = face_meta (session w) !! j) /\
    ((db w' = db w /\ log w' = log w /\ n' = n) \/
     (exists i h e,
        face_id item = Some i /\ in_range (session w) i = true /\
        fingerprint_of (session w) i = Some h /\
        db w' = <[h := e]> (db w) /\ fst e <> ∅ /\
        log w' = log w ++ [SaveFaceMeta h] /\ n' = S n)).

(** A handler skips the items of a batch that have no valid index: it
    answers success, gives the same result as on the valid items alone, and
    leaves the record of every face that no valid item names as it was. *)
Definition skips_bad_indices {A} (handler : World -> Batch A -> World * Response)
  (w : World) : Prop :=
  forall data, exists w' n,
    handler w data = (w', respond 200 (Updated n)) /\
    handler w (only_valid (session w) data) = (w', respond 200 (Updated n)) /\
    forall j, ~ named (session w) (batch_items data) j ->
              face_meta (session w') !! j = face_meta (session w) !! j.

(** What one item of a thread or tolerance batch does to the attribute of
    face [j]: [None] when the item has no valid index that names [j];
    [Some (Some v)] when it sets the attribute to [v]; [Some None] when it
    removes it. *)
Definition object_effect (mk : gmap string string -> Value) (s : Session) (j : Z)
  (item : Item (gmap string string)) : option (option Value) :=
  if decide (face_id item = Some j) then
    if in_range s j then Some (mk <$> truthy (attr item)) else None
  else None.

Section ColorEffect.

Context `{Collaborators}.

(** The same for a colour item: it sets the colour of face [j] when it
    names [j] with a valid index and carries a colour that parses, for a
    face that has an entry in the list of labels. *)
Definition color_effect (s : Session) (j : Z) (item : Item string)
  : option (option Value) :=
  if decide (face_id item = Some j) then
    if in_range s j then
      match attr item with
      | Some hex_color =>
          match hex_to_quantity hex_color, face_labels s !! Z.to_nat j with
          | Some _, Some _ => Some (Some (VStr hex_color))
          | _, _ => None
          end
      | None => None
      end
    else None
  else None.

End ColorEffect.

(** The attribute that a batch leaves on a face: that of the last item
    with an effect on it. *)
Definition decides {A} (effect : Item A -> option (option Value))
  (items : list (Item A)) (v : option Value) : Prop :=
  exists pre item post,
    items = pre ++ item :: post /\ effect item = Some v /\
    Forall (fun it => effect it = None) post.

(** A handler applies the items that have a valid index: on every face the
    attribute [key] ends as the last item with an effect on the face leaves
    it, a face on which no item has an effect keeps its record, and no
    other attribute of any face changes. *)
Definition applies_valid_items {A} (key : string)
  (effect : Session -> Z -> Item A -> option (option Value))
  (handler : World -> Batch A -> World * Response) (w : World) : Prop :=
  forall data j,
    (forall v, decides (effect (session w) j) (batch_items data) v ->
               default ∅ (face_meta (session (fst (handler w data))) !! j) !! key = v) /\
    (Forall (fun it => effect (session w) j it = None) (batch_items data) ->
     face_meta (session (fst (handler w data))) !! j = face_meta (session w) !! j) /\
    (forall k, k <> key ->
       default ∅ (face_meta (session (fst (handler w data))) !! j) !! k
       = default ∅ (face_meta (session w) !! j) !! k).

(** A handler persists under known fingerprints only: an entry of the store
    changes only under the fingerprint of a face the batch names, no empty
    record is written, the calls to the store are saves under such
    fingerprints and [db_updated_count] counts them, and a batch that names
    no face with a known fingerprint leaves the store alone and counts no
    update. *)
Definition persists_known_only {A} (handler : World -> Batch A -> World * Response)
  (w : World) : Prop :=
  forall data w' r,
    handler w data = (w', r) ->
    (forall h, db w' !! h <> db w !! h ->
               exists i, named (session w) (batch_items data) i /\
                         fingerprint_of (session w) i = Some h) /\
    (forall h e, db w' !! h = Some e -> db w !! h = Some e \/ fst e <> ∅) /\
    (exists saved,
       log w' = log w ++ map SaveFaceMeta saved /\
       (doc (session w) <> None -> r = respond 200 (Updated (length saved))) /\
       Forall (fun h => exists i, named (session w) (batch_items data) i /\
                                  fingerprint_of (session w) i = Some h) saved) /\
    ((forall i, named (session w) (batch_items data) i ->
                fingerprint_of (session w) i = None) ->
     db w' = db w /\ log w' = log w /\
     (doc (session w) <> None -> r = respond 200 (Updated 0))).

(** A request that removes one attribute of one face: the attribute is
    absent, null or an empty object. *)
Definition removal (i : Z) (falsy : option (gmap string string))
  : Batch (gmap string string) :=
  {| updates := Some [ {| face_id := Some i; attr := falsy |} ];
     single := {| face_id := None; attr := None |} |}.

(** A handler that, asked to remove the last attribute of a face's record,
    drops the record from the session's map and does not touch the store. *)
Definition drops_emptied_record (key : string)
  (handler : World -> Batch (gmap string string) -> World * Response) : Prop :=
  forall w i m falsy,
    doc (session w) <> None ->
    in_range (session w) i = true ->
    truthy falsy = None ->
    face_meta (session w) !! i = Some m ->
    delete key m = ∅ ->
    exists w',
      handler w (removal i falsy) = (w', respond 200 (Updated 0)) /\
      face_meta (session w') !! i = None /\
      db w' = db w /\ log w' = log w.

(** The reading under which an emptied record would also vanish from the
    store: after the removal, a lookup under the face's fingerprint finds
    nothing. *)
Definition forgets_emptied_record (key : string)
  (handler : World -> Batch (gmap string string) -> World * Response) : Prop :=
  forall w i m falsy h,
    doc (session w) <> None ->
    in_range (session w) i = true ->
    truthy falsy = None ->
    face_meta (session w) !! i = Some m ->
    delete key m = ∅ ->
    fingerprint_of (session w) i = Some h ->
    face_meta (session (fst (handler w (removal i falsy)))) !! i = None /\
    db (fst (handler w (removal i falsy))) !! h = None.

(** ** Notions the claim about hole detection uses *)

(** [d] is the integer nearest to [q], the even one of the two when [q]
    lies half-way between them. *)
Definition nearest_even (q : Q) (d : Z) : Prop :=
  (inject_Z d - (1 # 2) <= q <= inject_Z d + (1 # 2))%Q /\
  ((q == inject_Z d + (1 # 2) \/ q == inject_Z d - (1 # 2))%Q -> Z.even d = true).

(** [d] ten-thousandths is [x] rounded to four decimals. *)
Definition rounds_to4 (x : Q) (d : Z) : Prop := nearest_even (x * 10000) d.

(** The face is a cylinder, and twice its radius, rounded to four
    decimals, is [d] ten-thousandths. *)
Definition cylinder_of (shape : Shape) (d : Z) : Prop :=
  exists r, surface shape = Cylinder r /\ rounds_to4 (r * 2) d.

(** The indices, counted from [i], of the faces that are cylinders of
    diameter [d], in ascending order. *)
Fixpoint positions (d : Z) (i : nat) (shapes : list Shape) : list nat :=
  match shapes with
  | [] => []
  | shape :: rest =>
      if decide (get_cylinder_info shape = Some d)
      then i :: positions d (S i) rest
      else positions d (S i) rest
  end.

(** [grouped.get(d, [])] *)
Fixpoint group_of (d : Z) (grouped : list (Z * list nat)) : list nat :=
  match grouped with
  | [] => []
  | (d', l) :: g' => if d =? d' then l else group_of d g'
  end.

Definition by_diameter (a b : HoleGroup) : Prop := diameter a <= diameter b.
Definition ascending (a b : HoleGroup) : Prop := diameter a < diameter b.

(** ** A small document for the worked examples *)

Module Demo.

(** Six faces, two of them cylinders of radius 5.  Faces 0, 1 and 5 have a
    fingerprint; face 2 has none, face 3 the [unknown] one, face 4 an empty
    one. *)
Definition plane : Shape := {| surface := OtherSurface |}.
Definition hole : Shape := {| surface := Cylinder 5 |}.

Definition loaded (uuid : option string) (name : option string) : Session :=
  {| doc := Some {| colors := [] |};
     face_shapes := [plane; hole; plane; plane; hole; plane];
     face_labels := [None; None; None; None; None; None];
     face_hashes := [Some "fp-0"; Some "fp-1"; None; Some "unknown"; Some ""; Some "fp-5"];
     face_raws := ["plane"; "cyl r=5"; "plane"; "plane"; "cyl r=5"; "plane"];
     face_meta := ∅;
     model_uuid := uuid;
     original_filename := name |}.

(** A loader that accepts a file whose text begins with [ISO] and refuses
    any other, leaving the session as it found it. *)
Definition loader (p : Path) (w : World) : Session * (string + FacesJson) :=
  match read_file p (files w) with
  | Some t =>
      if starts (lit "ISO") t
      then (loaded (model_uuid (session w)) (original_filename (session w)),
            inr ["f0"; "f1"; "f2"; "f3"; "f4"; "f5"])
      else (session w, inl "not a STEP file")
  | None => (session w, inl "cannot open file")
  end.

Definition parse_hex (s : string) : option Quantity :=
  if decide (s = "#FF0000") then Some (255, 0, 0)
  else if decide (s = "#00FF00") then Some (0, 255, 0)
  else None.

(** A codec for the examples.  The payload is the letter [m] and the
    binary digits of the number that codes the map; reading it back takes
    the digits to the number and the number to the map.  The tag carries
    the payload as it is. *)
Fixpoint pos_bits (p : positive) : text :=
  match p with
  | xH => []
  | xO p' => 48%N :: pos_bits p'
  | xI p' => 49%N :: pos_bits p'
  end.

Fixpoint bits_pos (t : text) : option positive :=
  match t with
  | [] => Some xH
  | c :: t' =>
      if (c =? 48)%N then xO <$> bits_pos t'
      else if (c =? 49)%N then xI <$> bits_pos t'
      else None
  end.

Definition codec : Codec :=
  {| Annotation.encode := fun r => 109%N :: pos_bits (countable.encode r);
     Annotation.decode := fun t =>
       match t with
       | 109%N :: t' => bits_pos t' ≫= countable.decode
       | _ => None
       end;
     transport := fun t => t;
     untransport := fun t => Some t |}.

(** Where the paths that leave the upload folder lead: [../tests/sample]
    to the sample file, [./abc] back to the upload [abc]. *)
Definition os_paths (name : string) : option Path :=
  if decide (name = "../tests/sample") then Some SampleFile
  else if decide (name = "./abc") then Some (UploadFile "abc")
  else None.

Definition collaborators : Collaborators :=
  {| hex_to_quantity := parse_hex;
     load_step_xcaf := loader;
     export_step_xcaf := fun _ fs => (fs, inr ("model.step", "application/step", lit "ISO"));
     extract_meta_from_step := extract (H := codec);
     path_target := os_paths |}.



Definition step_file : text := lit "ISO-10303-21; DATA; ENDSEC;".




Definition no_files : Files := {| uploads := ∅; sample := None |}.

Definition disk : Files :=
  {| uploads := {[ "abc" := step_file; "bad" := lit "garbage" ]}; sample := None |}.

(** The document [abc] is on disk and loaded. *)
Definition world : World :=
  {| session := loaded (Some "abc") (Some "part"); db := ∅; files := disk; log := [] |}.

Definition red : FaceMeta := {[ 3 := {[ "color" := VStr "#FF0000" ]} ]}.

(** A file with entities of its own, one of them a
    [DESCRIPTIVE_REPRESENTATION_ITEM], with brackets, a star, a slash and a
    comment. *)
Definition host : Host :=
  {| before_tag := lit "ISO-10303-21; /* part [rev 2] */ DATA; #1=PRODUCT('part','a/b [x] * ";
     before_entity :=
       lit "'); #2=DESCRIPTIVE_REPRESENTATION_ITEM('finish','milled'); #3=";
     before_comment := lit "; #4=X('SVFM only'); ENDSEC; ";
     after_comment := lit " END-ISO-10303-21;" |}.

(** The document [abc] with metadata embedded in its file. *)
Definition annotated_world : World :=
  {| session := loaded (Some "abc") (Some "part"); db := ∅;
     files := {| uploads := {[ "abc" := embed (H := codec) host red ]}; sample := None |};
     log := [] |}.

(** A thread specification as the client sends it. *)
Definition m6 : gmap string string :=
  {[ "type" := "M (ISO Metric)"; "size" := "M6"; "pitch" := "1.0";
     "class" := "6g / 6H (ISO Medium)" ]}.

Definition one {A} (i : Z) (v : option A) : Item A := {| face_id := Some i; attr := v |}.

Definition batch {A} (items : list (Item A)) : Batch A :=
  {| updates := Some items; single := {| face_id := None; attr := None |} |}.

(** One index out of range, one valid. *)
Definition mixed_batch : Batch (gmap string string) :=
  batch [one 99 (Some m6); one 1 (Some m6)].


(** A thread is set on face 0, then removed again. *)
Definition threaded : World :=
  fst (set_thread world (batch [one 0 (Some m6)])).

Definition unthreaded : World :=
  fst (set_thread threaded (removal 0 None)).

(** An upload whose content the loader refuses. *)
Definition bad_upload : FilePart :=
  {| up_stem := "part"; up_ext := ".STEP"; up_content := lit "garbage" |}.

End Demo.

(** ** The remaining routes of app.py *)

(** What [render_template] is given. *)
Record Page := { template : string; boot_test : option bool; version : option Z }.

Definition APP_VERSION : Z := 1.

(** [index] (app.py 65-70): the global [FIRST_BOOT] goes in and comes out. *)
Definition index (FIRST_BOOT : bool) : bool * Page :=
  let do_test := FIRST_BOOT in
  (false, {| template := "index.html"; boot_test := Some do_test;
             version := Some APP_VERSION |}).

(** [view_model] (app.py 105-108) *)
Definition view_model (uuid_str : string) : Page :=
  {| template := "index.html"; boot_test := Some false; version := Some APP_VERSION |}.

(** [mockups] (app.py 489-492) *)
Definition mockups : Page :=
  {| template := "mockups.html"; boot_test := None; version := None |}.

(** A run of [n] requests to [/], from a given [FIRST_BOOT]: the pages
    served, in order. *)
Fixpoint index_run (n : nat) (FIRST_BOOT : bool) : list Page :=
  match n with
  | O => []
  | S n' => let '(fb, page) := index FIRST_BOOT in page :: index_run n' fb
  end.

(** The JSON body of [test_sample]. *)
Inductive SampleBody :=
| SampleError (msg : string)
| SampleFaces (faces : FacesJson) (filename : string).

Section MoreHandlers.

Context `{Collaborators}.

(** [test_sample] (app.py 494-508) *)
Definition test_sample (w : World) : World * (Z * SampleBody) :=
  match read_file SampleFile (files w) with
  | None => (w, (404, SampleError "Sample file not found"))
  | Some _ =>
      let s1 := set_model_uuid (Some "sample")
                  (set_original_filename (Some "sample") (session w)) in
      let w1 := with_session s1 w in
      match load_step_xcaf SampleFile w1 with
      | (s', inr faces) => (with_session s' w1, (200, SampleFaces faces "sample.step"))
      | (s', inl e) => (with_session s' w1, (500, SampleError e))
      end
  end.

End MoreHandlers.

(** ** Notions the further properties use *)

(** The number of quote characters of a text. *)
Definition count_quotes (t : text) : nat := count_occ N.eq_dec t quote.

(** No face carries an empty record. *)
Definition no_empty_record (fm : FaceMeta) : Prop :=
  forall i m, fm !! i = Some m -> m <> ∅.

(** Every key of the metadata map is the index of a face. *)
Definition keys_in_range (s : Session) : Prop :=
  forall i, is_Some (face_meta s !! i) -> in_range s i = true.

(** The indices, counted from [i], of the cylindrical faces. *)
Fixpoint cylinders (i : nat) (shapes : list Shape) : list nat :=
  match shapes with
  | [] => []
  | shape :: rest =>
      match get_cylinder_info shape with
      | Some _ => i :: cylinders (S i) rest
      | None => cylinders (S i) rest
      end
  end.

(** A request with one update. *)
Definition single_update {A} (i : Z) (v : option A) : Batch A :=
  {| updates := Some [ {| face_id := Some i; attr := v |} ];
     single := {| face_id := None; attr := None |} |}.

(** A request with the given updates. *)
Definition updates_of {A} (items : list (Item A)) : Batch A :=
  {| updates := Some items; single := {| face_id := None; attr := None |} |}.

(** What a loop body keeps of the session besides the faces: labels, raw
    descriptors and names stay, a loaded document stays loaded, no record
    is left empty, and no key of the metadata map leaves the range of the
    faces. *)
Definition step_keeps {A} (step : World * nat -> Item A -> World * nat) : Prop :=
  forall w n item w' n',
    step (w, n) item = (w', n') ->
    face_labels (session w') = face_labels (session w) /\
    face_raws (session w') = face_raws (session w) /\
    model_uuid (session w') = model_uuid (session w) /\
    original_filename (session w') = original_filename (session w) /\
    (is_Some (doc (session w)) -> is_Some (doc (session w'))) /\
    (no_empty_record (face_meta (session w)) ->
     no_empty_record (face_meta (session w'))) /\
    (keys_in_range (session w) -> keys_in_range (session w')).

(** A loop body counts its save on top of the count it is given. *)
Definition step_counts {A} (step : World * nat -> Item A -> World * nat) : Prop :=
  forall w n item,
    step (w, n) item
    = (fst (step (w, O) item), (n + snd (step (w, O) item))%nat).

(** The session's invariants that a handler keeps. *)
Definition keeps_session_invariants {A}
  (handler : World -> Batch A -> World * Response) : Prop :=
  forall w data,
    let w' := fst (handler w data) in
    face_shapes (session w') = face_shapes (session w) /\
    face_labels (session w') = face_labels (session w) /\
    face_hashes (session w') = face_hashes (session w) /\
    face_raws (session w') = face_raws (session w) /\
    model_uuid (session w') = model_uuid (session w) /\
    original_filename (session w') = original_filename (session w) /\
    files w' = files w /\
    (is_Some (doc (session w)) -> is_Some (doc (session w'))) /\
    (no_empty_record (face_meta (session w)) ->
     no_empty_record (face_meta (session w'))) /\
    (keys_in_range (session w) -> keys_in_range (session w')).

(** One request with the updates [a ++ b] does what the request with [a]
    followed by the request with [b] does, and counts the sum. *)
Definition splits_batches {A}
  (handler : World -> Batch A -> World * Response) : Prop :=
  forall w a b w1 n1 w2 n2,
    handler w (updates_of a) = (w1, respond 200 (Updated n1)) ->
    handler w1 (updates_of b) = (w2, respond 200 (Updated n2)) ->
    handler w (updates_of (a ++ b)) = (w2, respond 200 (Updated (n1 + n2))).

Module Demo2.

(** The store holds the thread of face 0 and an entry of another
    document. *)
Definition stocked : World :=
  {| session := session Demo.threaded;
     db := <["fp-other" := ({[ "color" := VStr "#00FF00" ]}, None)]> (db Demo.threaded);
     files := files Demo.threaded;
     log := [] |}.

(** The document is loaded but its file is gone. *)
Definition orphaned : World :=
  {| session := session stocked; db := db stocked; files := Demo.no_files; log := [] |}.

(** [tests/sample.step] exists and is not a STEP file. *)
Definition bad_sample : World :=
  {| session := session Demo.threaded; db := ∅;
     files := {| uploads := ∅; sample := Some (lit "garbage") |}; log := [] |}.

(** A tolerance as the client sends it, with a key too many and two
    missing. *)
Definition h7 : gmap string string := {[ "type" := "H7 (Hole)"; "note" := "ream" ]}.

End Demo2.

(** Setting an attribute on a valid face writes it into the face's record:
    the record holds the new value under the attribute's name and keeps its
    other attributes, and the records of the other faces are untouched. *)
Definition stores_attribute (key : string) (mk : gmap string string -> Value)
  (handler : World -> Batch (gmap string string) -> World * Response) : Prop :=
  forall w i d,
    doc (session w) <> None ->
    in_range (session w) i = true ->
    d <> ∅ ->
    exists w' n m',
      handler w (single_update i (Some d)) = (w', respond 200 (Updated n)) /\
      face_meta (session w') !! i = Some m' /\
      m' !! key = Some (mk d) /\
      (forall k, k <> key ->
                 m' !! k = default ∅ (face_meta (session w) !! i) !! k) /\
      (forall j, j <> i -> face_meta (session w') !! j = face_meta (session w) !! j).

(** Setting an attribute that the face does not have and removing it again
    gives back the metadata map one started from. *)
Definition round_trips (key : string)
  (handler : World -> Batch (gmap string string) -> World * Response) : Prop :=
  forall w i d falsy,
    doc (session w) <> None ->
    in_range (session w) i = true ->
    d <> ∅ ->
    truthy falsy = None ->
    (forall m, face_meta (session w) !! i = Some m -> m <> ∅ /\ m !! key = None) ->
    face_meta (session (fst (handler (fst (handler w (single_update i (Some d))))
                                     (single_update i falsy))))
    = face_meta (session w).

(** Setting an attribute on a face with a known fingerprint stores the
    face's whole record, with its raw descriptor, under that fingerprint,
    in place of whatever the store held there; other entries are kept and
    one update is counted. *)
Definition saves_record (key : string) (mk : gmap string string -> Value)
  (handler : World -> Batch (gmap string string) -> World * Response) : Prop :=
  forall w i d h,
    doc (session w) <> None ->
    in_range (session w) i = true ->
    d <> ∅ ->
    fingerprint_of (session w) i = Some h ->
    exists w' m',
      handler w (single_update i (Some d)) = (w', respond 200 (Updated 1)) /\
      face_meta (session w') !! i = Some m' /\
      db w' !! h = Some (m', face_raws (session w) !! Z.to_nat i) /\
      (forall h', h' <> h -> db w' !! h' = db w !! h') /\
      log w' = log w ++ [SaveFaceMeta h].

(** The object stored for a thread or a tolerance has exactly the given
    fields, each with the value the request gives or the empty string. *)
Definition has_fields (v : Value) (fields : list string) (d : gmap string string)
  : Prop :=
  match v with
  | VObj o =>
      forall k, o !! k = if bool_decide (k ∈ fields)
                         then Some (default "" (d !! k)) else None
  | VStr _ => False
  end.

(** [SetColor]'s target for a face: its label when it has one that is not
    null, its shape otherwise. *)
Definition color_target (face_label : option Label) (face_shape : Shape) : ColorTarget :=
  match face_label with
  | Some l => if label_null l then OnShape face_shape else OnLabel l
  | None => OnShape face_shape
  end.

(** The sum of the counts of the groups. *)
Definition total_count (gs : list HoleGroup) : nat :=
  foldr (fun g acc => (count g + acc)%nat) O gs.

(* ===================================================================== *)
(** * Part II: lemmas and theorems *)
(* ===================================================================== *)

(** ** Prefixes and markers *)

Lemma strip_prefix_app (p s : text) : strip_prefix p (p ++ s) = Some s.
Proof.
  induction p as [|a p IH]; simpl; [done|].
  by rewrite N.eqb_refl.
Qed.

Lemma strip_prefix_Some (p s s' : text) :
  strip_prefix p s = Some s' -> s = p ++ s'.
Proof.
  revert s; induction p as [|a p IH]; intros s Hs; simpl in *.
  - by inversion Hs.
  - destruct s as [|b s]; [done|].
    destruct (N.eqb_spec a b) as [->|]; [|done].
    by rewrite (IH _ Hs).
Qed.

Lemma starts_app (p s : text) : starts p (p ++ s) = true.
Proof. unfold starts. by rewrite strip_prefix_app. Qed.

Lemma starts_true (p s : text) : starts p s = true -> exists s', s = p ++ s'.
Proof.
  unfold starts. destruct (strip_prefix p s) as [s'|] eqn:E; [|done].
  intros _. exists s'. by apply strip_prefix_Some.
Qed.

(** ** Soundness of the matcher: a match splits the text as the atoms say *)

Lemma alt_sound ls k s m r :
  alt ls k s = Some (m, r) ->
  In m ls /\ exists s', s = m ++ s' /\ k s' = Some r.
Proof.
  induction ls as [|l ls IH]; simpl; [done|].
  destruct (strip_prefix l s) as [s'|] eqn:E.
  - destruct (k s') as [r'|] eqn:Ek.
    + intros [= <- <-]. split; [by left|].
      exists s'. split; [by apply strip_prefix_Some|done].
    + intros Ha. destruct (IH Ha) as [? ?]. split; [by right|done].
  - intros Ha. destruct (IH Ha) as [? ?]. split; [by right|done].
Qed.

Lemma greedy_sound cls k s m r :
  greedy cls k s = Some (m, r) ->
  Forall (fun c => cls c = true) m /\ exists s', s = m ++ s' /\ k s' = Some r.
Proof.
  revert m; induction s as [|c s IH]; intros m; simpl.
  - destruct (k []) eqn:Ek; [|done]. intros [= <- <-].
    split; [constructor|]. by exists [].
  - destruct (cls c) eqn:Ec.
    + destruct (greedy cls k s) as [[m' r']|] eqn:Eg.
      * intros [= <- <-]. destruct (IH _ eq_refl) as [Hm (s' & -> & Hk)].
        split; [by constructor|]. by exists s'.
      * destruct (k (c :: s)) eqn:Ek; [|done]. intros [= <- <-].
        split; [constructor|]. by exists (c :: s).
    + destruct (k (c :: s)) eqn:Ek; [|done]. intros [= <- <-].
      split; [constructor|]. by exists (c :: s).
Qed.

Lemma lazy_sound cls k s m r :
  lazy cls k s = Some (m, r) ->
  Forall (fun c => cls c = true) m /\ exists s', s = m ++ s' /\ k s' = Some r.
Proof.
  revert m; induction s as [|c s IH]; intros m; simpl.
  - destruct (k []) eqn:Ek; [|done]. intros [= <- <-].
    split; [constructor|]. by exists [].
  - destruct (k (c :: s)) eqn:Ek.
    + intros [= <- <-]. split; [constructor|]. by exists (c :: s).
    + destruct (cls c) eqn:Ec; [|done].
      destruct (lazy cls k s) as [[m' r']|] eqn:El; [|done].
      intros [= <- <-]. destruct (IH _ eq_refl) as [Hm (s' & -> & Hk)].
      split; [by constructor|]. by exists s'.
Qed.

Lemma amatch_sound ps : forall s ms,
  amatch ps s = Some ms ->
  Forall2 atom_match ps ms /\ exists rest, s = List.concat ms ++ rest.
Proof.
  induction ps as [|a ps IH]; intros s ms; simpl.
  - intros [= <-]. split; [constructor|]. by exists s.
  - destruct a as [l|ls|[|] cls].
    + destruct (strip_prefix l s) as [s'|] eqn:E; [|done].
      destruct (amatch ps s') as [r|] eqn:Er; [|done].
      intros [= <-]. apply strip_prefix_Some in E as ->.
      destruct (IH _ _ Er) as [HF [rest ->]].
      split; [constructor; [constructor|done]|].
      exists rest. simpl. by rewrite <- app_assoc.
    + destruct (alt ls (amatch ps) s) as [[m r]|] eqn:E; [|done].
      intros [= <-]. apply alt_sound in E as [Hin (s' & -> & Hk)].
      destruct (IH _ _ Hk) as [HF [rest ->]].
      split; [constructor; [by constructor|done]|].
      exists rest. simpl. by rewrite <- app_assoc.
    + destruct (greedy cls (amatch ps) s) as [[m r]|] eqn:E; [|done].
      intros [= <-]. apply greedy_sound in E as [Hm (s' & -> & Hk)].
      destruct (IH _ _ Hk) as [HF [rest ->]].
      split; [constructor; [by constructor|done]|].
      exists rest. simpl. by rewrite <- app_assoc.
    + destruct (lazy cls (amatch ps) s) as [[m r]|] eqn:E; [|done].
      intros [= <-]. apply lazy_sound in E as [Hm (s' & -> & Hk)].
      destruct (IH _ _ Hk) as [HF [rest ->]].
      split; [constructor; [by constructor|done]|].
      exists rest. simpl. by rewrite <- app_assoc.
Qed.

(** ** Unfolding [re.sub] one match at a time *)

Lemma sub_from_skip p repl (m rest : text) :
  sub_from p repl (length m) (m ++ rest) = sub_from p repl O rest.
Proof.
  induction m as [|c m IH]; simpl; [by destruct rest|]. exact IH.
Qed.

Lemma sub_match p repl (s rest : text) ms :
  pmatch p s = Some ms ->
  s = List.concat ms ++ rest ->
  List.concat ms <> [] ->
  sub p repl s = repl ms ++ sub p repl rest.
Proof.
  intros Hm Hs Hne. unfold sub.
  destruct (List.concat ms) as [|c m] eqn:Ec; [done|].
  subst s. simpl in *. rewrite Hm, Ec. simpl.
  by rewrite sub_from_skip.
Qed.

Lemma sub_miss p repl c (s : text) :
  pmatch p (c :: s) = None ->
  sub p repl (c :: s) = c :: sub p repl s.
Proof. intros Hm. unfold sub. simpl. by rewrite Hm. Qed.

Lemma sub_nil p repl : pmatch p [] = None -> sub p repl [] = [].
Proof. intros Hm. unfold sub. simpl. by rewrite Hm. Qed.

(** ** The substitutions on small texts *)

Example strip_blanks_payload_only :
  strip (lit "#5=DESCRIPTIVE_REPRESENTATION_ITEM ( 'SVFM' , 'abc' ) ;#6=X('y');")
  = lit "#5=DESCRIPTIVE_REPRESENTATION_ITEM ( 'SVFM' , '' ) ;#6=X('y');".
Proof. vm_compute. reflexivity. Qed.

Example strip_both_tags :
  strip (lit "DESCRIPTIVE_REPRESENTATION_ITEM('StepViewerFaceMetadata','q')DESCRIPTIVE_REPRESENTATION_ITEM('SVFM','r')")
  = lit "DESCRIPTIVE_REPRESENTATION_ITEM('StepViewerFaceMetadata','')DESCRIPTIVE_REPRESENTATION_ITEM('SVFM','')".
Proof. vm_compute. reflexivity. Qed.

(** A payload with a doubled quote is not matched, and stays. *)
Example strip_leaves_escaped_quote :
  strip (lit "DESCRIPTIVE_REPRESENTATION_ITEM('SVFM','ab''cd')")
  = lit "DESCRIPTIVE_REPRESENTATION_ITEM('SVFM','ab''cd')".
Proof. vm_compute. reflexivity. Qed.

Example strip_removes_tag_and_comment :
  strip (lit "a[SVFM:b]c/* __STEPVIEWER_META_START__ {} __STEPVIEWER_META_END__ */d")
  = lit "acd".
Proof. vm_compute. reflexivity. Qed.

(** An unclosed tag is not a match. *)
Example strip_leaves_unclosed_tag :
  strip (lit "a[SVFM:b]c[SVFM:d") = lit "ac[SVFM:d".
Proof. vm_compute. reflexivity. Qed.

(** The sentinels each carry a space of their own: one space between them
    is not enough. *)
Example strip_comment_needs_both_spaces :
  strip (lit "/* __STEPVIEWER_META_START__ __STEPVIEWER_META_END__ */x")
  = lit "/* __STEPVIEWER_META_START__ __STEPVIEWER_META_END__ */x".
Proof. vm_compute. reflexivity. Qed.

(** Removing a match can bring a marker together from its two sides: a
    host that is not free of markers may keep a tag after stripping. *)
Example strip_can_join_markers :
  strip (lit "[SV[SVFM:x]FM:abc]") = lit "[SVFM:abc]".
Proof. vm_compute. reflexivity. Qed.

(** ** Strategy 1 blanks payloads and nothing else *)

Lemma not_quote_true c : not_quote c = true -> c <> quote.
Proof.
  unfold not_quote. destruct (N.eqb_spec c quote); [done|]. by intros _.
Qed.

Ltac peel HF m A :=
  let k := fresh "k" in
  apply Forall2_cons_inv_l in HF as (m & k & A & HF & ->).

(** A match of the entity pattern is an entity of the viewer: keyword, tag
    and quoted payload, with white space only where the syntax allows it. *)
Lemma entity_match_shape s ms :
  pmatch entity_pattern s = Some ms ->
  exists w1 w2 tag w3 w4 payload w5 rest,
    all_space w1 /\ all_space w2 /\ all_space w3 /\ all_space w4 /\ all_space w5 /\
    In tag entity_tags /\ Forall (fun c => c <> quote) payload /\
    s = entity_text w1 w2 tag w3 w4 payload w5 ++ rest /\
    List.concat ms = entity_text w1 w2 tag w3 w4 payload w5 /\
    group 1 entity_pattern ms ++ group 2 entity_pattern ms
      = entity_text w1 w2 tag w3 w4 [] w5.
Proof.
  intros Hm. apply amatch_sound in Hm as [HF [rest ->]].
  unfold entity_pattern in HF. simpl map in HF.
  peel HF m1 A1. peel HF w1 A2. peel HF m3 A3. peel HF w2 A4. peel HF m5 A5.
  peel HF tag A6. peel HF m7 A7. peel HF w3 A8. peel HF m9 A9. peel HF w4 A10.
  peel HF m11 A11. peel HF p A12. peel HF m13 A13. peel HF w5 A14. peel HF m15 A15.
  apply Forall2_nil_inv_l in HF as ->.
  inversion A1; subst; clear A1. inversion A3; subst; clear A3.
  inversion A5; subst; clear A5. inversion A7; subst; clear A7.
  inversion A9; subst; clear A9. inversion A11; subst; clear A11.
  inversion A13; subst; clear A13. inversion A15; subst; clear A15.
  inversion A2 as [ | | ? ? ? F1]; subst; clear A2.
  inversion A4 as [ | | ? ? ? F2]; subst; clear A4.
  inversion A6 as [ | ? ? Ht | ]; subst; clear A6.
  inversion A8 as [ | | ? ? ? F3]; subst; clear A8.
  inversion A10 as [ | | ? ? ? F4]; subst; clear A10.
  inversion A12 as [ | | ? ? ? Fp]; subst; clear A12.
  inversion A14 as [ | | ? ? ? F5]; subst; clear A14.
  exists w1, w2, tag, w3, w4, p, w5, rest.
  repeat split; try assumption.
  - eapply Forall_impl; [eassumption|]. intros c. apply not_quote_true.
  - unfold entity_text, entity_pattern. cbn [group Nat.eqb].
    rewrite <- ?app_assoc. reflexivity.
Qed.

Lemma entity_text_nonempty w1 w2 tag w3 w4 payload w5 :
  entity_text w1 w2 tag w3 w4 payload w5 <> [].
Proof. done. Qed.

(** ** Where a marker cannot start *)

Lemma starts_nil_r (M : text) : M <> [] -> starts M [] = false.
Proof. by destruct M. Qed.

Lemma starts_weaken (M a b : text) : starts M a = true -> starts M (a ++ b) = true.
Proof.
  intros Hs. apply starts_true in Hs as [s' ->].
  rewrite <- app_assoc. apply starts_app.
Qed.

Lemma occurs_false_cons M c (s : text) :
  occurs M (c :: s) = false -> starts M (c :: s) = false /\ occurs M s = false.
Proof. simpl. intros Ho. by apply orb_false_elim in Ho. Qed.

Lemma occurs_false_suffix M (a1 a2 : text) :
  occurs M (a1 ++ a2) = false -> occurs M a2 = false.
Proof.
  induction a1 as [|c a1 IH]; [done|]. simpl app.
  intros Ho. apply occurs_false_cons in Ho as [_ Ho]. by apply IH.
Qed.

Lemma occurs_false_starts M (s : text) : occurs M s = false -> starts M s = false.
Proof.
  destruct s as [|c s]; simpl; intros Ho; by apply orb_false_elim in Ho as [? _].
Qed.

Lemma occurs_false_prefix M (a b : text) :
  occurs M (a ++ b) = false -> occurs M a = false.
Proof.
  induction a as [|c a IH].
  - simpl app. intros Ho. apply occurs_false_starts in Ho.
    simpl. rewrite orb_false_r.
    destruct (starts M []) eqn:E; [|done].
    apply (starts_weaken M [] b) in E. simpl in E. congruence.
  - simpl app. intros Ho. apply occurs_false_cons in Ho as [Hs Ho].
    simpl. rewrite (IH Ho), orb_false_r.
    destruct (starts M (c :: a)) eqn:E; [|done].
    apply (starts_weaken M (c :: a) b) in E. simpl in E. congruence.
Qed.

(** A prefix of [x ++ y] either fits in [x] or runs into [y]. *)
Lemma app_eq_app_split (M x y s : text) :
  x ++ y = M ++ s ->
  (exists x', x = M ++ x') \/ (exists M2, M = x ++ M2 /\ M2 <> [] /\ exists y', y = M2 ++ y').
Proof.
  revert M; induction x as [|c x IH]; intros M Heq.
  - destruct M as [|m M].
    + left. by exists [].
    + right. exists (m :: M). split; [done|]. split; [done|]. by exists s.
  - destruct M as [|m M].
    + left. by exists (c :: x).
    + simpl in Heq. injection Heq as -> Heq.
      destruct (IH _ Heq) as [[x' ->]|(M2 & -> & Hne & y' & ->)].
      * left. by exists x'.
      * right. exists M2. split; [done|]. split; [done|]. by exists y'.
Qed.

Lemma quiet_nil M b : quiet M [] b.
Proof. intros a1 a2 Ha Hne. by destruct a1, a2. Qed.

Lemma quiet_app M a a' b :
  quiet M a (a' ++ b) -> quiet M a' b -> quiet M (a ++ a') b.
Proof.
  intros Ha Ha' a1 a2 Heq Hne.
  apply app_eq_app in Heq as [l [[-> ->]|[-> ->]]].
  - destruct l as [|c l].
    + simpl in *. apply (Ha' [] a'); [done|done].
    + rewrite <- app_assoc. apply (Ha a1 (c :: l)); done.
  - by apply (Ha' l a2).
Qed.

(** A text that does not contain the marker is quiet when what follows
    cannot complete an occurrence begun in it. *)
Lemma quiet_clean M a b :
  occurs M a = false -> head_outside M b = true -> quiet M a b.
Proof.
  intros Ho Hb a1 a2 -> Hne.
  apply occurs_false_suffix in Ho.
  destruct (starts M (a2 ++ b)) eqn:E; [|done]. exfalso.
  apply starts_true in E as [s' E].
  apply app_eq_app_split in E as [[x' ->]|(M2 & -> & Hne2 & y' & ->)].
  - apply occurs_false_starts in Ho. by rewrite starts_app in Ho.
  - destruct M2 as [|c M2]; [done|]. destruct a2 as [|d a2]; [done|].
    simpl in Hb. apply negb_true_iff in Hb.
    assert (existsb (N.eqb c) (a2 ++ c :: M2) = true) as Hex; [|congruence].
    apply existsb_exists. exists c. split; [|apply N.eqb_refl].
    apply in_or_app. right. by left.
Qed.

(** A text without the marker's first character is quiet, whatever
    follows. *)
Lemma quiet_lacks_head M a b : lacks_head M a = true -> quiet M a b.
Proof.
  intros Hl a1 a2 -> Hne.
  destruct M as [|h M]; [done|]. simpl in Hl.
  rewrite forallb_app in Hl. apply andb_true_iff in Hl as [_ Hl].
  destruct a2 as [|c a2]; [done|]. simpl in Hl.
  apply andb_true_iff in Hl as [Hc _]. apply negb_true_iff in Hc.
  unfold starts. simpl. rewrite N.eqb_sym, Hc. done.
Qed.

(** ** Scanning past a quiet text *)

Lemma pmatch_needs_marker g M p' (s : text) :
  starts M s = false -> pmatch ((g, Lit M) :: p') s = None.
Proof.
  unfold pmatch, starts. simpl. by destruct (strip_prefix M s).
Qed.

Lemma quiet_tail M c (a b : text) : quiet M (c :: a) b -> quiet M a b.
Proof. intros Hq a1 a2 -> Hne. by apply (Hq (c :: a1) a2). Qed.

Lemma sub_quiet g M p' repl (a b : text) :
  quiet M a b ->
  sub ((g, Lit M) :: p') repl (a ++ b) = a ++ sub ((g, Lit M) :: p') repl b.
Proof.
  induction a as [|c a IH]; intros Hq; [done|].
  simpl app. rewrite sub_miss.
  - f_equal. apply IH. by apply quiet_tail in Hq.
  - apply pmatch_needs_marker. by apply (Hq [] (c :: a)).
Qed.

Lemma search_quiet g M p' (a b : text) :
  quiet M a b ->
  search ((g, Lit M) :: p') (a ++ b) = search ((g, Lit M) :: p') b.
Proof.
  induction a as [|c a IH]; intros Hq; [done|].
  simpl app. simpl search. rewrite pmatch_needs_marker.
  - apply IH. by apply quiet_tail in Hq.
  - by apply (Hq [] (c :: a)).
Qed.

Lemma search_nil g M p' : M <> [] -> search ((g, Lit M) :: p') [] = None.
Proof.
  intros HM. simpl. rewrite pmatch_needs_marker; [done|]. by apply starts_nil_r.
Qed.

Lemma search_found p (s : text) ms : pmatch p s = Some ms -> search p s = Some ms.
Proof. intros Hm. destruct s; simpl; by rewrite Hm. Qed.

(** ** Completeness of the matcher on the shapes the strategies write *)

Lemma amatch_lit l ps (s : text) r :
  amatch ps s = Some r -> amatch (Lit l :: ps) (l ++ s) = Some (l :: r).
Proof. intros Hr. simpl. by rewrite strip_prefix_app, Hr. Qed.

Lemma lazy_run cls (k : cont) (q s : text) r :
  Forall (fun c => cls c = true) q ->
  (forall q1 q2, q = q1 ++ q2 -> q2 <> [] -> k (q2 ++ s) = None) ->
  k s = Some r ->
  lazy cls k (q ++ s) = Some (q, r).
Proof.
  intros Hc Hq Hk. induction q as [|c q IH].
  - simpl. destruct s; simpl; by rewrite Hk.
  - pose proof (Hq [] (c :: q) eq_refl ltac:(done)) as Hn.
    inversion Hc as [|? ? Hcc Hcq]; subst.
    simpl app in *. simpl lazy. rewrite Hn, Hcc.
    rewrite IH; [done|done|].
    intros q1 q2 -> Hne. by apply (Hq (c :: q1) q2).
Qed.

Lemma greedy_run cls (k : cont) (m s : text) r :
  Forall (fun c => cls c = true) m ->
  stops cls s ->
  k s = Some r ->
  greedy cls k (m ++ s) = Some (m, r).
Proof.
  intros Hm Hs Hk. induction Hm as [|c m Hc Hm IH].
  - destruct s as [|c s]; simpl in *; [by rewrite Hk|]. by rewrite Hs, Hk.
  - simpl. by rewrite Hc, IH.
Qed.

Lemma amatch_lazy cls ps (q s : text) r :
  Forall (fun c => cls c = true) q ->
  (forall q1 q2, q = q1 ++ q2 -> q2 <> [] -> amatch ps (q2 ++ s) = None) ->
  amatch ps s = Some r ->
  amatch (Star Lazy cls :: ps) (q ++ s) = Some (q :: r).
Proof. intros Hc Hq Hr. simpl. by rewrite (lazy_run _ _ _ _ r). Qed.

Lemma amatch_greedy cls ps (m s : text) r :
  Forall (fun c => cls c = true) m ->
  stops cls s ->
  amatch ps s = Some r ->
  amatch (Star Greedy cls :: ps) (m ++ s) = Some (m :: r).
Proof. intros Hm Hs Hr. simpl. by rewrite (greedy_run _ _ _ _ r). Qed.

Lemma alt_first l ls (k : cont) (s : text) r :
  k s = Some r -> alt (l :: ls) k (l ++ s) = Some (l, r).
Proof. intros Hr. cbn [alt]. by rewrite strip_prefix_app, Hr. Qed.

Lemma alt_skip l ls (k : cont) (s : text) :
  strip_prefix l s = None -> alt (l :: ls) k s = alt ls k s.
Proof. intros Hn. cbn [alt]. by rewrite Hn. Qed.

Lemma amatch_entity_tag ps tag (s : text) r :
  In tag entity_tags ->
  amatch ps s = Some r ->
  amatch (Alt entity_tags :: ps) (tag ++ s) = Some (tag :: r).
Proof.
  intros Ht Hr. cbn [amatch]. unfold entity_tags in *.
  destruct Ht as [<-|[<-|[]]].
  - by rewrite (alt_first _ _ _ _ r).
  - rewrite alt_skip by reflexivity. by rewrite (alt_first _ _ _ _ r).
Qed.

(** The entity pattern matches every entity of the viewer, and takes as
    payload all that stands between the payload quotes. *)
Lemma entity_pattern_matches w1 w2 tag w3 w4 payload w5 (rest : text) :
  all_space w1 -> all_space w2 -> all_space w3 -> all_space w4 -> all_space w5 ->
  In tag entity_tags ->
  Forall (fun c => c <> quote) payload ->
  pmatch entity_pattern (entity_text w1 w2 tag w3 w4 payload w5 ++ rest)
  = Some [lit "DESCRIPTIVE_REPRESENTATION_ITEM"; w1; lit "("; w2; lit "'"; tag;
          lit "'"; w3; lit ","; w4; lit "'"; payload; lit "'"; w5; lit ")"].
Proof.
  intros H1 H2 H3 H4 H5 Ht Hp.
  assert (Forall (fun c => not_quote c = true) payload) as Hp'.
  { eapply Forall_impl; [exact Hp|]. intros c Hc. unfold not_quote.
    by destruct (N.eqb_spec c quote). }
  unfold pmatch, entity_pattern, entity_text. simpl map.
  rewrite <- !app_assoc.
  apply amatch_lit, amatch_greedy; [done|done|].
  apply amatch_lit, amatch_greedy; [done|done|].
  apply amatch_lit, amatch_entity_tag; [done|].
  apply amatch_lit, amatch_greedy; [done|done|].
  apply amatch_lit, amatch_greedy; [done|done|].
  apply amatch_lit, amatch_greedy; [done|done|].
  apply amatch_lit, amatch_greedy; [done|done|].
  by apply amatch_lit.
Qed.
(** ** Each substitution removes what its strategy wrote *)

Lemma payload_safe_spec p :
  payload_safe p = true ->
  Forall (fun c => c <> quote) p /\
  occurs tag_marker p = false /\
  occurs comment_marker p = false /\
  occurs comment_end p = false.
Proof.
  unfold payload_safe. rewrite !andb_true_iff, !negb_true_iff.
  intros [[[Hq Ht] Hc] He]. repeat split; try done.
  apply List.Forall_forall. intros c Hc'.
  rewrite forallb_forall in Hq. specialize (Hq c Hc').
  by apply negb_true_iff, N.eqb_neq in Hq.
Qed.

Lemma payload_safe_no_quote p :
  payload_safe p = true -> Forall (fun c => c <> quote) p.
Proof. intros Hp. by destruct (payload_safe_spec p Hp) as [? _]. Qed.

Lemma tag_safe_spec q c : tag_safe q = true -> In c q -> c <> 93%N.
Proof.
  unfold tag_safe. rewrite forallb_forall. intros Hq Hc.
  specialize (Hq c Hc). apply negb_true_iff in Hq.
  by apply N.eqb_neq in Hq.
Qed.

Lemma all_any_char (q : text) : Forall (fun c => any_char c = true) q.
Proof. by apply List.Forall_forall. Qed.

Lemma tag_pattern_matches q (rest : text) :
  tag_safe q = true ->
  pmatch tag_pattern (description_tag q ++ rest)
  = Some [tag_marker; q; lit "]"].
Proof.
  intros Hq. unfold pmatch, tag_pattern, description_tag, tag_marker. simpl map.
  rewrite <- !app_assoc.
  apply amatch_lit, amatch_lazy; [apply all_any_char| |by apply amatch_lit].
  intros q1 q2 -> Hne. destruct q2 as [|c q2]; [done|].
  assert (c <> 93%N) as Hc.
  { apply (tag_safe_spec _ _ Hq). apply in_or_app. right. by left. }
  change (lit "]") with [93%N]. cbn [amatch strip_prefix app].
  apply N.eqb_neq in Hc. by rewrite N.eqb_sym, Hc.
Qed.

(** The end sentinel does not overlap itself: none of its proper suffixes
    begins it again. *)
Lemma comment_end_no_border k :
  (0 < k < 27)%nat -> starts (drop k comment_end) comment_end = false.
Proof.
  intros [Hlo Hhi]. destruct k as [|k]; [lia|].
  do 26 (destruct k as [|k]; [by vm_compute|]). lia.
Qed.

(** Before the end of a payload that does not hold the end sentinel, the
    sentinel cannot begin. *)
Lemma comment_end_not_early (p2 rest : text) :
  p2 <> [] ->
  occurs comment_end p2 = false ->
  strip_prefix comment_end (p2 ++ comment_end ++ rest) = None.
Proof.
  intros Hne Hp.
  destruct (strip_prefix comment_end (p2 ++ comment_end ++ rest)) as [x|] eqn:E; [|done].
  exfalso. apply strip_prefix_Some in E.
  apply app_eq_app_split in E as [[x' ->]|(M2 & HM & Hne2 & y' & Hy)].
  - apply occurs_false_starts in Hp. by rewrite starts_app in Hp.
  - assert (length comment_end = 27%nat) as Hlen by reflexivity.
    assert (length p2 + length M2 = 27)%nat as Hsum.
    { rewrite <- length_app. by rewrite <- HM. }
    assert (0 < length p2 < 27)%nat as Hk.
    { destruct p2; [done|]. destruct M2; [done|]. simpl in *. lia. }
    assert (M2 = drop (length p2) comment_end) as HM2.
    { rewrite HM at 1. by rewrite drop_app_length. }
    pose proof (comment_end_no_border _ Hk) as Hb. rewrite <- HM2 in Hb.
    apply app_eq_app_split in Hy as [[z Hz]|(M3 & HM3 & Hne3 & _)].
    + rewrite Hz in Hb. by rewrite starts_app in Hb.
    + rewrite HM3, length_app, Hlen in Hsum. destruct M3; [done|]. simpl in Hsum. lia.
Qed.

Lemma comment_pattern_matches p (rest : text) :
  payload_safe p = true ->
  pmatch comment_pattern (comment_block p ++ rest)
  = Some [comment_marker; p; comment_end].
Proof.
  intros Hp. destruct (payload_safe_spec p Hp) as (_ & _ & _ & He).
  unfold pmatch, comment_pattern, comment_block. simpl map.
  rewrite <- !app_assoc.
  apply amatch_lit, amatch_lazy; [apply all_any_char| |by apply amatch_lit].
  intros q1 q2 -> Hne. cbn [amatch].
  fold comment_end. rewrite comment_end_not_early; [done|done|].
  by apply occurs_false_suffix in He.
Qed.

Lemma entity_item_text p : entity_item p = entity_text [] [] (lit "SVFM") [] [] p [].
Proof. reflexivity. Qed.

Lemma tag_marker_cons : tag_pattern = (0%nat, Lit tag_marker) :: tl tag_pattern.
Proof. reflexivity. Qed.

Lemma comment_marker_cons :
  comment_pattern = (0%nat, Lit comment_marker) :: tl comment_pattern.
Proof. reflexivity. Qed.

Lemma entity_marker_cons :
  entity_pattern = (1%nat, Lit entity_marker) :: tl entity_pattern.
Proof. reflexivity. Qed.

Lemma strip_tag_removes (a q b : text) :
  quiet tag_marker a (description_tag q ++ b) ->
  tag_safe q = true ->
  quiet tag_marker b [] ->
  strip_tag (a ++ description_tag q ++ b) = a ++ b.
Proof.
  intros Ha Hq Hb. unfold strip_tag. rewrite tag_marker_cons.
  rewrite sub_quiet by done.
  rewrite <- tag_marker_cons.
  rewrite (sub_match _ _ _ b _ (tag_pattern_matches q b Hq)); [|reflexivity|done].
  simpl app. rewrite <- (app_nil_r b) at 1.
  rewrite tag_marker_cons, sub_quiet by done.
  rewrite sub_nil by done. by rewrite app_nil_r.
Qed.

Lemma strip_comment_removes (a p b : text) :
  quiet comment_marker a (comment_block p ++ b) ->
  payload_safe p = true ->
  quiet comment_marker b [] ->
  strip_comment (a ++ comment_block p ++ b) = a ++ b.
Proof.
  intros Ha Hp Hb. unfold strip_comment. rewrite comment_marker_cons.
  rewrite sub_quiet by done.
  rewrite <- comment_marker_cons.
  rewrite (sub_match _ _ _ b _ (comment_pattern_matches p b Hp)); [|reflexivity|done].
  simpl app. rewrite <- (app_nil_r b) at 1.
  rewrite comment_marker_cons, sub_quiet by done.
  rewrite sub_nil by done. by rewrite app_nil_r.
Qed.

(** ** Scanning past a text in which the pattern does not match *)

Lemma quiet_calm g M p' (a b : text) :
  quiet M a b -> calm ((g, Lit M) :: p') a b.
Proof.
  intros Hq a1 a2 Ha Hne. apply pmatch_needs_marker. by apply (Hq a1 a2).
Qed.

Lemma calm_tail p c (a b : text) : calm p (c :: a) b -> calm p a b.
Proof. intros Hq a1 a2 -> Hne. by apply (Hq (c :: a1) a2). Qed.

Lemma calm_app p (a a' b : text) :
  calm p a (a' ++ b) -> calm p a' b -> calm p (a ++ a') b.
Proof.
  intros Ha Ha' a1 a2 Heq Hne.
  apply app_eq_app in Heq as [l [[-> ->]|[-> ->]]].
  - destruct l as [|c l].
    + simpl in *. apply (Ha' [] a'); [done|done].
    + rewrite <- app_assoc. apply (Ha a1 (c :: l)); done.
  - by apply (Ha' l a2).
Qed.

Lemma sub_calm p repl (a b : text) :
  calm p a b -> sub p repl (a ++ b) = a ++ sub p repl b.
Proof.
  induction a as [|c a IH]; intros Hq; [done|].
  simpl app. rewrite sub_miss.
  - f_equal. apply IH. by apply calm_tail in Hq.
  - by apply (Hq [] (c :: a)).
Qed.

Lemma search_calm p (a b : text) :
  calm p a b -> search p (a ++ b) = search p b.
Proof.
  induction a as [|c a IH]; intros Hq; [done|].
  pose proof (Hq [] (c :: a) eq_refl ltac:(done)) as Hn.
  cbn [app] in Hn |- *. cbn [search]. rewrite Hn.
  apply IH. by apply calm_tail in Hq.
Qed.

Lemma search_calm_end p (a : text) :
  pmatch p [] = None -> calm p a [] -> search p a = None.
Proof.
  intros Hnil Hq. rewrite <- (app_nil_r a), search_calm by done.
  simpl. by rewrite Hnil.
Qed.

Lemma sub_calm_end p repl (a : text) :
  pmatch p [] = None -> calm p a [] -> sub p repl a = a.
Proof.
  intros Hnil Hq. rewrite <- (app_nil_r a) at 1. rewrite sub_calm by done.
  by rewrite sub_nil, app_nil_r.
Qed.

Lemma entity_item_matches p (b : text) :
  Forall (fun c => c <> quote) p ->
  pmatch entity_pattern (entity_item p ++ b)
  = Some [lit "DESCRIPTIVE_REPRESENTATION_ITEM"; []; lit "("; []; lit "'";
          lit "SVFM"; lit "'"; []; lit ","; []; lit "'"; p; lit "'"; [];
          lit ")"].
Proof.
  intros Hp. rewrite entity_item_text.
  apply entity_pattern_matches; try constructor; try done.
Qed.

Lemma strip_entity_blanks (a p b : text) :
  calm entity_pattern a (entity_item p ++ b) ->
  Forall (fun c => c <> quote) p ->
  calm entity_pattern b [] ->
  strip_entity (a ++ entity_item p ++ b) = a ++ entity_item [] ++ b.
Proof.
  intros Ha Hp Hb. unfold strip_entity.
  rewrite sub_calm by done.
  rewrite (sub_match _ _ _ b _ (entity_item_matches p b Hp)); [| |done].
  - f_equal.
    change (entity_item [] ++ sub entity_pattern
              (fun ms => group 1 entity_pattern ms ++ group 2 entity_pattern ms) b
            = entity_item [] ++ b).
    f_equal. by apply sub_calm_end.
  - reflexivity.
Qed.

(** ** Stripping an embedded file leaves the host and a blank entity *)

Lemma lacks_head_app M (a b : text) :
  lacks_head M a = true -> lacks_head M b = true -> lacks_head M (a ++ b) = true.
Proof.
  destruct M as [|h M]; [done|]. simpl. intros Ha Hb.
  by rewrite forallb_app, Ha, Hb.
Qed.

Lemma host_parts M h :
  occurs M (host_text h) = false ->
  occurs M (before_tag h) = false /\ occurs M (before_entity h) = false /\
  occurs M (before_comment h) = false /\ occurs M (after_comment h) = false /\
  occurs M (before_tag h ++ before_entity h) = false /\
  occurs M (before_comment h ++ after_comment h) = false.
Proof.
  unfold host_text. intros Ho.
  assert (occurs M (before_tag h ++ before_entity h) = false) as H12.
  { rewrite app_assoc in Ho. by apply occurs_false_prefix in Ho. }
  assert (occurs M (before_comment h ++ after_comment h) = false) as H34.
  { rewrite app_assoc in Ho. by apply occurs_false_suffix in Ho. }
  repeat split; try done.
  - by apply occurs_false_prefix in H12.
  - by apply occurs_false_suffix in H12.
  - by apply occurs_false_prefix in H34.
  - by apply occurs_false_suffix in H34.
Qed.

Lemma host_clean_spec h :
  host_clean h = true ->
  occurs tag_marker (host_text h) = false /\
  occurs comment_marker (host_text h) = false /\
  occurs (lit "'SVFM'") (host_text h) = false /\
  occurs (lit "'StepViewerFaceMetadata'") (host_text h) = false.
Proof.
  unfold host_clean. rewrite !andb_true_iff, !negb_true_iff. tauto.
Qed.

(** A payload between two literals: a marker that neither literal lets
    begin, and that the payload does not hold, starts nowhere in the
    three. *)
Lemma wrapped_quiet M (l1 p l2 b : text) :
  lacks_head M l1 = true -> lacks_head M l2 = true ->
  occurs M p = false -> head_outside M (l2 ++ b) = true ->
  quiet M (l1 ++ p ++ l2) b.
Proof.
  intros H1 H2 Hp Hh.
  apply quiet_app; [by apply quiet_lacks_head|].
  apply quiet_app; [by apply quiet_clean|by apply quiet_lacks_head].
Qed.

Lemma occurs_inside M (a b : text) : occurs M (a ++ M ++ b) = true.
Proof.
  destruct (occurs M (a ++ M ++ b)) eqn:E; [done|].
  apply occurs_false_suffix, occurs_false_starts in E. by rewrite starts_app in E.
Qed.

(** ** Where the entity pattern cannot match *)

Lemma entity_inner_space c : is_space c = true -> entity_inner c = true.
Proof. unfold entity_inner. by intros ->. Qed.

Lemma entity_inner_letter c :
  In c (lit "ESCRIPTIVE_REPRESENTATION_ITEM" ++ lit "(" ++ lit "'" ++
        lit "SVFM" ++ lit "StepViewerFaceMetadata") ->
  entity_inner c = true.
Proof.
  intros Hin. unfold entity_inner. apply orb_true_iff. right.
  apply existsb_exists. exists c. split; [exact Hin|apply N.eqb_refl].
Qed.

Lemma entity_text_head w1 w2 tag w3 w4 payload w5 :
  entity_text w1 w2 tag w3 w4 payload w5
  = entity_head w1 w2 tag ++
    w3 ++ lit "," ++ w4 ++ lit "'" ++ payload ++ lit "'" ++ w5 ++ lit ")".
Proof. unfold entity_text, entity_head. by rewrite <- !app_assoc. Qed.

Lemma entity_head_chars w1 w2 tag c :
  all_space w1 -> all_space w2 -> In tag entity_tags ->
  In c (tl (entity_head w1 w2 tag)) -> entity_inner c = true.
Proof.
  intros H1 H2 Ht Hin. unfold entity_head in Hin.
  change (tl (lit "DESCRIPTIVE_REPRESENTATION_ITEM" ++ ?x))
    with (lit "ESCRIPTIVE_REPRESENTATION_ITEM" ++ x) in Hin.
  unfold all_space in H1, H2. rewrite List.Forall_forall in H1, H2.
  rewrite !in_app_iff in Hin.
  destruct Hin as [Hin|[Hin|[Hin|[Hin|[Hin|[Hin|Hin]]]]]].
  - apply entity_inner_letter. rewrite !in_app_iff. tauto.
  - by apply entity_inner_space, H1.
  - apply entity_inner_letter. rewrite !in_app_iff. tauto.
  - by apply entity_inner_space, H2.
  - apply entity_inner_letter. rewrite !in_app_iff. tauto.
  - destruct Ht as [<-|[<-|[]]]; apply entity_inner_letter; rewrite !in_app_iff; tauto.
  - apply entity_inner_letter. rewrite !in_app_iff. tauto.
Qed.

(** In a text that holds neither tag string of the viewer, followed by
    something that cannot continue an entity, the entity pattern matches
    nowhere: entities of other kinds do not count. *)
Lemma host_entity_calm (a b : text) :
  occurs (lit "'SVFM'") a = false ->
  occurs (lit "'StepViewerFaceMetadata'") a = false ->
  ends_entities b = true ->
  calm entity_pattern a b.
Proof.
  intros Hs1 Hs2 Hb a1 a2 -> Hne.
  destruct (pmatch entity_pattern (a2 ++ b)) as [ms|] eqn:E; [|done]. exfalso.
  destruct (entity_match_shape _ _ E)
    as (w1 & w2 & tag & w3 & w4 & p & w5 & rest & H1 & H2 & _ & _ & _ & Ht & _ & Hs & _).
  rewrite entity_text_head, <- app_assoc in Hs.
  apply app_eq_app_split in Hs as [[x' ->]|(M2 & HM & Hne2 & y' & ->)].
  - assert (forall tag', occurs (lit "'" ++ tag' ++ lit "'")
                           (a1 ++ entity_head w1 w2 tag' ++ x') = true) as Hin.
    { intros tag'. unfold entity_head.
      replace (a1 ++ (lit "DESCRIPTIVE_REPRESENTATION_ITEM" ++ w1 ++ lit "(" ++ w2 ++
                      lit "'" ++ tag' ++ lit "'") ++ x')
        with ((a1 ++ lit "DESCRIPTIVE_REPRESENTATION_ITEM" ++ w1 ++ lit "(" ++ w2) ++
              (lit "'" ++ tag' ++ lit "'") ++ x')
        by (by rewrite <- !app_assoc).
      apply occurs_inside. }
    destruct Ht as [<-|[<-|[]]].
    + exact (eq_true_false_abs _ (Hin (lit "SVFM")) Hs1).
    + exact (eq_true_false_abs _ (Hin (lit "StepViewerFaceMetadata")) Hs2).
  - destruct a2 as [|c0 a2]; [done|]. destruct M2 as [|c M2]; [done|].
    cbn [ends_entities app] in Hb. apply negb_true_iff in Hb.
    assert (entity_inner c = true) as Hc; [|congruence].
    apply (entity_head_chars w1 w2 tag c H1 H2 Ht).
    rewrite HM. cbn [tl app]. apply in_or_app. right. by left.
Qed.

Lemma strip_embedded h (p q : text) :
  host_clean h = true ->
  payload_safe p = true ->
  tag_safe q = true ->
  strip (before_tag h ++ description_tag q ++
         before_entity h ++ entity_item p ++
         before_comment h ++ comment_block p ++ after_comment h)
  = (before_tag h ++ before_entity h) ++ entity_item [] ++
    (before_comment h ++ after_comment h).
Proof.
  intros Hh Hp Hq.
  destruct (host_clean_spec h Hh) as (Ht & Hc & Hs1 & Hs2).
  destruct (payload_safe_spec p Hp) as (Hpq & Hpt & Hpc & _).
  destruct (host_parts _ h Ht) as (Ht1 & Ht2 & Ht3 & Ht4 & _ & _).
  destruct (host_parts _ h Hc) as (_ & _ & Hc3 & Hc4 & Hc12 & _).
  destruct (host_parts _ h Hs1) as (_ & _ & _ & _ & Hs112 & Hs134).
  destruct (host_parts _ h Hs2) as (_ & _ & _ & _ & Hs212 & Hs234).
  destruct h as [bt be bc ac].
  cbn [before_tag before_entity before_comment after_comment] in *.
  assert (forall b, quiet tag_marker (entity_item p) b) as Qt1.
  { intros b. unfold entity_item.
    apply wrapped_quiet; [reflexivity|reflexivity|done|reflexivity]. }
  assert (forall b, quiet tag_marker (comment_block p) b) as Qt2.
  { intros b. unfold comment_block.
    apply wrapped_quiet; [reflexivity|reflexivity|done|reflexivity]. }
  assert (forall b, quiet comment_marker (entity_item p) b) as Qc1.
  { intros b. unfold entity_item.
    apply wrapped_quiet; [reflexivity|reflexivity|done|reflexivity]. }
  unfold strip.
  (* strategy 2 *)
  rewrite strip_tag_removes; [|by apply quiet_clean|done|].
  2:{ apply quiet_app; [by apply quiet_clean|].
      apply quiet_app; [apply Qt1|].
      apply quiet_app; [by apply quiet_clean|].
      apply quiet_app; [apply Qt2|].
      by apply quiet_clean. }
  (* strategy 3 *)
  replace (bt ++ be ++ entity_item p ++ bc ++ comment_block p ++ ac)
    with (((bt ++ be) ++ entity_item p ++ bc) ++ comment_block p ++ ac)
    by (by rewrite <- !app_assoc).
  rewrite strip_comment_removes; [| |done|by apply quiet_clean].
  2:{ apply quiet_app; [by apply quiet_clean|].
      apply quiet_app; [apply Qc1|].
      by apply quiet_clean. }
  (* strategy 1 *)
  replace (((bt ++ be) ++ entity_item p ++ bc) ++ ac)
    with ((bt ++ be) ++ entity_item p ++ (bc ++ ac))
    by (by rewrite <- !app_assoc).
  rewrite strip_entity_blanks; [done| |done|];
    apply host_entity_calm; done || reflexivity.
Qed.

(** ** Strategy 1 blanks every payload of the viewer's entities *)

Lemma twins_cons_other c (s : text) : c <> quote -> twins (c :: s) = twins s.
Proof.
  intros Hc. destruct s as [|d s]; [done|]. cbn [twins].
  apply N.eqb_neq in Hc. by rewrite Hc.
Qed.

Lemma twins_free_app (a b : text) :
  Forall (fun c => c <> quote) a -> twins (a ++ b) = twins b.
Proof.
  induction 1 as [|c a Hc _ IH]; [done|].
  simpl app. by rewrite twins_cons_other.
Qed.

Lemma twins_quoted (a b : text) :
  Forall (fun c => c <> quote) a -> a <> [] -> twins (quote :: a ++ b) = twins b.
Proof.
  intros Ha Hne. destruct a as [|c a]; [done|].
  inversion Ha as [|? ? Hc Ha']; subst.
  simpl app.
  assert (twins (quote :: c :: a ++ b) = twins (c :: a ++ b)) as ->.
  { cbn [twins]. apply N.eqb_neq in Hc. by rewrite Hc, andb_false_r. }
  by apply (twins_free_app (c :: a)).
Qed.

Lemma twins_found (x y : text) : twins (x ++ quote :: quote :: y) = true.
Proof.
  induction x as [|c x IH]; [done|].
  simpl app. destruct (x ++ quote :: quote :: y) as [|d s] eqn:E.
  - by destruct x.
  - cbn [twins]. cbn [twins] in IH. rewrite IH. apply orb_true_r.
Qed.

Lemma twins_tail c (s : text) : twins (c :: s) = false -> twins s = false.
Proof.
  destruct s as [|d s]; [done|]. cbn [twins].
  intros Ht. by apply orb_false_elim in Ht as [_ ?].
Qed.

Lemma space_not_quote (w : text) : all_space w -> Forall (fun c => c <> quote) w.
Proof.
  intros Hw. eapply Forall_impl; [exact Hw|]. by intros c Hc ->.
Qed.

Lemma tag_not_quote tag : In tag entity_tags -> Forall (fun c => c <> quote) tag /\ tag <> [].
Proof.
  intros [<-|[<-|[]]]; (split; [|done]); by repeat constructor.
Qed.

(** An entity whose payload is not empty has no two quotes in a row. *)
Lemma entity_no_twins e payload :
  viewer_entity e payload -> payload <> [] -> twins e = false.
Proof.
  intros (w1 & w2 & tag & w3 & w4 & w5 & H1 & H2 & H3 & H4 & H5 & Ht & Hp & ->) Hne.
  destruct (tag_not_quote tag Ht) as [Htq Htn].
  unfold entity_text.
  rewrite twins_free_app by (by repeat constructor).
  rewrite twins_free_app by (by apply space_not_quote).
  rewrite twins_free_app by (by repeat constructor).
  rewrite twins_free_app by (by apply space_not_quote).
  change (lit "'") with [quote]. cbn [app].
  rewrite twins_quoted by done.
  rewrite (app_assoc w3), (app_assoc (w3 ++ _)).
  rewrite twins_quoted.
  2:{ apply Forall_app. split; [|by apply space_not_quote].
      apply Forall_app. split; [by apply space_not_quote|by repeat constructor]. }
  2:{ by destruct w3. }
  rewrite twins_quoted by done.
  rewrite <- (app_nil_r (w5 ++ _)).
  rewrite twins_quoted; [done| |by destruct w5].
  apply Forall_app. split; [by apply space_not_quote|by repeat constructor].
Qed.

(** A blank entity: up to and with the quote that opens the payload, and
    from the quote that closes it. *)
Lemma entity_text_blank w1 w2 tag w3 w4 payload w5 :
  exists g1 g2,
    entity_text w1 w2 tag w3 w4 payload w5 = g1 ++ quote :: payload ++ quote :: g2 /\
    entity_text w1 w2 tag w3 w4 [] w5 = g1 ++ quote :: quote :: g2.
Proof.
  exists (lit "DESCRIPTIVE_REPRESENTATION_ITEM" ++ w1 ++ lit "(" ++ w2 ++
          lit "'" ++ tag ++ lit "'" ++ w3 ++ lit "," ++ w4), (w5 ++ lit ")").
  unfold entity_text. rewrite <- !app_assoc. done.
Qed.

(** A stretch without two quotes in a row at the head of the stripped text
    stands at the head of the text itself: no payload was taken out of
    it. *)
Lemma strip_entity_head (t : text) : forall e b,
  twins e = false ->
  strip_entity t = e ++ b ->
  exists b', t = e ++ b'.
Proof.
  remember (length t) as n eqn:Hn. revert t Hn.
  induction n as [n IH] using lt_wf_ind. intros t Hn e b He Hs.
  destruct e as [|c0 e0]; [by exists t|].
  destruct t as [|c s].
  { unfold strip_entity in Hs. by rewrite sub_nil in Hs. }
  unfold strip_entity in Hs.
  destruct (pmatch entity_pattern (c :: s)) as [ms|] eqn:Hm.
  - destruct (entity_match_shape _ _ Hm)
      as (w1 & w2 & tag & w3 & w4 & p & w5 & rest & _ & _ & _ & _ & _
          & _ & _ & Ht & Hc & Hg).
    rewrite (sub_match _ _ _ rest _ Hm) in Hs;
      [| by rewrite Hc | rewrite Hc; apply entity_text_nonempty ].
    rewrite Hg in Hs.
    destruct (entity_text_blank w1 w2 tag w3 w4 p w5) as (g1 & g2 & Hfull & Hblank).
    rewrite Hblank in Hs. rewrite Ht, Hfull.
    replace ((g1 ++ quote :: quote :: g2) ++
             sub entity_pattern
               (fun ms0 => group 1 entity_pattern ms0 ++ group 2 entity_pattern ms0) rest)
      with ((g1 ++ [quote]) ++ quote :: g2 ++
            sub entity_pattern
              (fun ms0 => group 1 entity_pattern ms0 ++ group 2 entity_pattern ms0) rest)
      in Hs by (by rewrite <- !app_assoc).
    symmetry in Hs. apply app_eq_app in Hs as [l [[Hl1 Hl2]|[Hl1 Hl2]]].
    + destruct l as [|d l].
      * rewrite app_nil_r in Hl1. rewrite Hl1.
        exists (p ++ quote :: g2 ++ rest).
        rewrite <- !app_assoc. cbn [app]. by rewrite <- ?app_assoc.
      * simpl in Hl2. injection Hl2 as <- _.
        rewrite Hl1, <- app_assoc in He. simpl in He.
        by rewrite twins_found in He.
    + exists (l ++ p ++ quote :: g2 ++ rest).
      rewrite (app_assoc (c0 :: e0)), <- Hl1.
      rewrite <- !app_assoc. cbn [app]. by rewrite <- ?app_assoc.
  - rewrite sub_miss in Hs by done. injection Hs as <- Hs.
    destruct (IH (length s) ltac:(simpl in Hn; lia) s eq_refl e0 b) as [b' ->];
      [by apply twins_tail in He|done|].
    by exists b'.
Qed.

Lemma viewer_entity_matches e payload (rest : text) :
  viewer_entity e payload ->
  exists ms, pmatch entity_pattern (e ++ rest) = Some ms /\ nth 11 ms [] = payload.
Proof.
  intros (w1 & w2 & tag & w3 & w4 & w5 & H1 & H2 & H3 & H4 & H5 & Ht & Hp & ->).
  eexists. split; [by apply entity_pattern_matches|done].
Qed.

(** In what follows the keyword of a blank entity, the keyword does not
    begin again. *)
Lemma blank_entity_tail w1 w2 tag w3 w4 w5 (b : text) :
  all_space w1 -> all_space w2 -> all_space w3 -> all_space w4 -> all_space w5 ->
  In tag entity_tags ->
  quiet entity_marker (tl (entity_text w1 w2 tag w3 w4 [] w5)) b.
Proof.
  intros H1 H2 H3 H4 H5 Ht. apply quiet_lacks_head.
  assert (forall w, all_space w -> lacks_head entity_marker w = true) as Hw.
  { intros w Hsp. apply forallb_forall. intros c Hc.
    unfold all_space in Hsp.
    rewrite List.Forall_forall in Hsp. specialize (Hsp c Hc).
    apply negb_true_iff, N.eqb_neq. by intros ->. }
  unfold entity_text.
  change (tl (lit "DESCRIPTIVE_REPRESENTATION_ITEM" ++ ?x))
    with (tl (lit "DESCRIPTIVE_REPRESENTATION_ITEM") ++ x).
  repeat (apply lacks_head_app; [first [done | by apply Hw | idtac]|]); try done.
  - by destruct Ht as [<-|[<-|[]]].
Qed.

Lemma viewer_entity_starts e payload (b : text) :
  viewer_entity e payload -> starts entity_marker (e ++ b) = true.
Proof.
  intros (w1 & w2 & tag & w3 & w4 & w5 & _ & _ & _ & _ & _ & _ & _ & ->).
  unfold entity_text. rewrite <- app_assoc. apply starts_app.
Qed.

Lemma viewer_entity_nonempty e payload : viewer_entity e payload -> e <> [].
Proof. by intros (w1 & w2 & tag & w3 & w4 & w5 & _ & _ & _ & _ & _ & _ & _ & ->). Qed.

(** No entity of the viewer in the stripped text has a payload left. *)
Lemma strip_entity_leaves_blank (t : text) : forall a e payload b,
  strip_entity t = a ++ e ++ b -> viewer_entity e payload -> payload = [].
Proof.
  remember (length t) as n eqn:Hn. revert t Hn.
  induction n as [n IH] using lt_wf_ind. intros t Hn a e payload b Hs He.
  destruct (decide (payload = [])) as [|Hne]; [done|]. exfalso.
  pose proof (entity_no_twins e payload He Hne) as Htw.
  destruct t as [|c s].
  { unfold strip_entity in Hs. rewrite sub_nil in Hs by done.
    symmetry in Hs. apply app_eq_nil in Hs as [_ Hs]. apply app_eq_nil in Hs as [Hs _].
    by apply (viewer_entity_nonempty e payload). }
  destruct (pmatch entity_pattern (c :: s)) as [ms|] eqn:Hm.
  - destruct (entity_match_shape _ _ Hm)
      as (w1 & w2 & tag & w3 & w4 & p & w5 & rest & H1 & H2 & H3 & H4 & H5
          & Ht & Hp & Hst & Hc & Hg).
    unfold strip_entity in Hs.
    rewrite (sub_match _ _ _ rest _ Hm) in Hs;
      [| by rewrite Hc | rewrite Hc; apply entity_text_nonempty ].
    rewrite Hg in Hs. fold (strip_entity rest) in Hs.
    assert (length rest < n)%nat as Hlt.
    { rewrite Hn, Hst, length_app. unfold entity_text. rewrite length_app. simpl. lia. }
    apply app_eq_app in Hs as [l [[Hl1 Hl2]|[Hl1 Hl2]]].
    + destruct a as [|c1 a1].
      * (* it starts where the blank one does: it is the blank one *)
        simpl in Hl1. subst l.
        destruct (viewer_entity_matches e payload b He) as (ms1 & M1 & P1).
        assert (viewer_entity (entity_text w1 w2 tag w3 w4 [] w5) []) as He0.
        { exists w1, w2, tag, w3, w4, w5. by repeat split. }
        destruct (viewer_entity_matches _ [] (strip_entity rest) He0) as (ms0 & M0 & P0).
        rewrite <- Hl2 in M0. rewrite M0 in M1. injection M1 as <-.
        apply Hne. congruence.
      * (* it starts inside the blank one *)
        destruct l as [|d l].
        -- simpl in Hl2. apply Hne.
           by apply (IH (length rest) Hlt rest eq_refl [] e payload b).
        -- pose proof (blank_entity_tail w1 w2 tag w3 w4 w5 (strip_entity rest)
                         H1 H2 H3 H4 H5 Ht) as Hq.
           rewrite Hl1 in Hq. simpl tl in Hq.
           specialize (Hq a1 (d :: l) eq_refl ltac:(done)).
           rewrite <- Hl2 in Hq.
           by rewrite (viewer_entity_starts e payload b He) in Hq.
    + (* the entity found starts after the blank one *)
      apply Hne. by apply (IH (length rest) Hlt rest eq_refl l e payload b).
  - destruct a as [|c1 a1].
    + simpl in Hs.
      destruct (strip_entity_head (c :: s) e b Htw Hs) as [b' Hb].
      destruct (viewer_entity_matches e payload b' He) as (ms1 & M1 & _).
      rewrite <- Hb in M1. congruence.
    + unfold strip_entity in Hs. rewrite sub_miss in Hs by done.
      injection Hs as _ Hs. apply Hne.
      by apply (IH (length s) ltac:(simpl in Hn; lia) s eq_refl a1 e payload b).
Qed.

(** [blanked] with every remaining position kept: the relation for a single
    step, used to say where the first entity stands. *)
Lemma strip_entity_blank_only (t : text) : blanked t (strip_entity t).
Proof.
  remember (length t) as n eqn:Hn. revert t Hn.
  induction n as [n IH] using lt_wf_ind. intros t Hn.
  destruct t as [|c s].
  - unfold strip_entity. rewrite sub_nil; [constructor|done].
  - unfold strip_entity.
    destruct (pmatch entity_pattern (c :: s)) as [ms|] eqn:Hm.
    + destruct (entity_match_shape _ _ Hm)
        as (w1 & w2 & tag & w3 & w4 & p & w5 & rest & H1 & H2 & H3 & H4 & H5
            & Ht & Hp & Hs & Hc & Hg).
      rewrite (sub_match _ _ _ rest _ Hm); [| by rewrite Hc | rewrite Hc; apply entity_text_nonempty ].
      rewrite Hg, Hs. apply blanked_entity; try assumption.
      apply (IH (length rest)); [|done].
      rewrite Hn, Hs, length_app. unfold entity_text. rewrite length_app. simpl. lia.
    + rewrite sub_miss by done. constructor.
      apply (IH (length s)); [simpl in Hn; lia|done].
Qed.

(** C7.  For every file text, strategy-1 stripping empties the quoted
    payload of every [DESCRIPTIVE_REPRESENTATION_ITEM] entity tagged
    ['SVFM'] or ['StepViewerFaceMetadata'] and changes nothing else.  The
    result is the text with payloads of such entities taken out: keyword,
    parentheses, tag string, white space and the two payload quotes stay
    as they were, and every character outside such an entity is kept.  And
    no such entity is left with a payload: wherever one stands in the
    result, between its payload quotes there is nothing. *)
Theorem strip_entity_blanks_only_payloads (t : text) :
  blanked t (strip_entity t) /\
  (forall a e payload b,
     strip_entity t = a ++ e ++ b -> viewer_entity e payload -> payload = []) /\
  (forall a e payload b,
     t = a ++ e ++ b -> viewer_entity e payload ->
     (forall a1 a2, a = a1 ++ a2 -> a2 <> [] ->
                    pmatch entity_pattern (a2 ++ e ++ b) = None) ->
     exists e0, viewer_entity e0 [] /\ length e = (length e0 + length payload)%nat /\
                strip_entity t = a ++ e0 ++ strip_entity b).
Proof.
  split; [apply strip_entity_blank_only|].
  split; [apply strip_entity_leaves_blank|].
  intros a e payload b -> He Ha.
  destruct He as (w1 & w2 & tag & w3 & w4 & w5 & H1 & H2 & H3 & H4 & H5 & Ht & Hp & ->).
  exists (entity_text w1 w2 tag w3 w4 [] w5). split; [|split].
  - exists w1, w2, tag, w3, w4, w5. by repeat split.
  - unfold entity_text. rewrite !length_app. simpl. lia.
  - induction a as [|c a IH].
    + cbn [app]. unfold strip_entity.
      rewrite (sub_match _ _ _ b _
                 (entity_pattern_matches w1 w2 tag w3 w4 payload w5 b
                    H1 H2 H3 H4 H5 Ht Hp)); [| |done].
      * cbv beta. unfold entity_text, entity_pattern. cbn [group Nat.eqb].
        by rewrite <- ?app_assoc, ?app_nil_r.
      * cbn [List.concat]. unfold entity_text. by rewrite <- ?app_assoc, ?app_nil_r.
    + simpl app. unfold strip_entity. rewrite sub_miss.
      * f_equal. apply IH. intros a1 a2 -> Hne. by apply (Ha (c :: a1) a2).
      * by apply (Ha [] (c :: a)).
Qed.

(** Entity [#5] carries the payload [abc] behind white space the syntax
    allows; it is replaced by the same entity with nothing between the
    payload quotes, and what surrounds it stays. *)
Lemma strip_entity_blanks_only_payloads_witness :
  exists e0,
    viewer_entity e0 [] /\
    strip_entity (lit "#5=" ++
                  entity_text (lit " ") (lit " ") (lit "SVFM") (lit " ") (lit " ")
                              (lit "abc") (lit " ") ++
                  lit ";#6=X('y');")
    = lit "#5=" ++ e0 ++ lit ";#6=X('y');".
Proof.
  destruct (strip_entity_blanks_only_payloads
              (lit "#5=" ++
               entity_text (lit " ") (lit " ") (lit "SVFM") (lit " ") (lit " ")
                           (lit "abc") (lit " ") ++
               lit ";#6=X('y');")) as (_ & _ & Hfirst).
  destruct (Hfirst (lit "#5=")
              (entity_text (lit " ") (lit " ") (lit "SVFM") (lit " ") (lit " ")
                           (lit "abc") (lit " "))
              (lit "abc") (lit ";#6=X('y');")) as (e0 & He0 & _ & Hs).
  - reflexivity.
  - exists (lit " "), (lit " "), (lit "SVFM"), (lit " "), (lit " "), (lit " ").
    repeat split; try (by repeat constructor); by left.
  - intros a1 a2 Ha Hne.
    destruct a1 as [|c1 [|c2 [|c3 [|c4 a1]]]]; vm_compute in Ha;
      simplify_eq; try done; by vm_compute.
  - exists e0. split; [exact He0|]. rewrite Hs. do 2 f_equal.
Defined.

(** ** The purge workflow *)

Section PurgeFacts.

Context `{Collaborators}.

Lemma ensure_loaded_error w target w0 r :
  ensure_loaded w target = (w0, Some r) -> status r <> 200.
Proof.
  unfold ensure_loaded.
  destruct (decide (model_uuid (session w) = Some target)); [done|].
  destruct (resolve _ target) as [load_path|].
  - destruct (load_step_xcaf load_path _) as [s' [e|faces]]; [|done].
    by intros [= <- <-].
  - by intros [= <- <-].
Qed.

Lemma ensure_loaded_frame w target w0 o :
  ensure_loaded w target = (w0, o) ->
  db w0 = db w /\ files w0 = files w /\ log w0 = log w.
Proof.
  unfold ensure_loaded.
  destruct (decide (model_uuid (session w) = Some target)); [by intros [= <- <-]|].
  destruct (resolve _ target) as [load_path|].
  - destruct (load_step_xcaf load_path _) as [s' [e|faces]]; by intros [= <- <-].
  - by intros [= <- <-].
Qed.

(** The events of the database and file steps: all but the clearing of the
    session's map. *)
Lemma db_cleanup_frame scope w w1 n parts :
  db_cleanup scope w = (w1, n, parts) ->
  session w1 = session w /\ files w1 = files w /\
  exists evs, log w1 = log w ++ evs /\ Forall (fun e => e <> ClearMemory) evs.
Proof.
  unfold db_cleanup.
  destruct (scope_in scope ["db"; "all"]).
  - destruct (scope_in scope ["all"]); intros [= <- <- <-]; simpl;
      (split; [done|]; split; [done|]; eexists; split; [done|]);
      by repeat constructor.
  - intros [= <- <- <-]. split; [done|]. split; [done|].
    exists []. by rewrite app_nil_r.
Qed.

Lemma db_cleanup_skipped scope w :
  scope_in scope ["db"; "all"] = false -> db_cleanup scope w = (w, O, []).
Proof. unfold db_cleanup. by intros ->. Qed.

Lemma file_cleanup_skipped scope target w :
  scope_in scope ["file"; "all"] = false -> file_cleanup scope target w = Some (w, []).
Proof. unfold file_cleanup. by intros ->. Qed.

Lemma file_cleanup_runs scope target w path content :
  scope_in scope ["file"; "all"] = true ->
  resolve (files w) target = Some path ->
  read_file path (files w) = Some content ->
  exists msg,
    file_cleanup scope target w
    = Some (emit (Report (bool_decide (extract_meta_from_step (strip content) = ∅)))
              (emit (WriteFile path)
                 (with_files (write_file path (strip content) (files w)) w)),
            [msg]).
Proof.
  intros Hs Hr Hc. unfold file_cleanup. rewrite Hs, Hr, Hc. by eexists.
Qed.

Lemma file_cleanup_frame scope target w w2 parts :
  file_cleanup scope target w = Some (w2, parts) ->
  session w2 = session w /\ db w2 = db w /\
  exists evs, log w2 = log w ++ evs /\ Forall (fun e => e <> ClearMemory) evs.
Proof.
  unfold file_cleanup.
  destruct (scope_in scope ["file"; "all"]).
  - destruct (resolve (files w) target) as [path|]; [|done].
    destruct (read_file path (files w)) as [content|]; [|done].
    intros [= <- <-]. simpl. split; [done|]. split; [done|].
    eexists. rewrite <- app_assoc. split; [done|]. by repeat constructor.
  - intros [= <- <-]. split; [done|]. split; [done|].
    exists []. by rewrite app_nil_r.
Qed.

Lemma read_write_file path t fs : read_file path (write_file path t fs) = Some t.
Proof. destruct path; simpl; [by rewrite lookup_insert_eq|done]. Qed.

(** A purge that answers 200 went through all of its steps. *)
Lemma admin_success w data w' b :
  admin_clear_metadata w data = (w', respond 200 b) ->
  exists target w0 w1 n parts1 w2 parts2,
    pr_uuid data = Some target /\ target <> "" /\
    ensure_loaded w target = (w0, None) /\
    db_cleanup (scope_of (pr_scope data)) w0 = (w1, n, parts1) /\
    file_cleanup (scope_of (pr_scope data)) target w1 = Some (w2, parts2) /\
    w' = clear_memory w2 /\
    b = Purged n (join_parts (parts1 ++ parts2 ++ ["Cleared in-memory metadata"])).
Proof.
  unfold admin_clear_metadata.
  destruct (pr_uuid data) as [target|]; [|done].
  destruct (decide (target = "")) as [|Hne]; [done|].
  destruct (ensure_loaded w target) as [w0 [r|]] eqn:El.
  - intros [= <- Hr]. apply ensure_loaded_error in El. by rewrite Hr in El.
  - destruct (db_cleanup _ w0) as [[w1 n] parts1] eqn:Ed.
    destruct (file_cleanup _ target w1) as [[w2 parts2]|] eqn:Ef; [|done].
    intros [= <- <-]. by exists target, w0, w1, n, parts1, w2, parts2.
Qed.

End PurgeFacts.

Lemma scope_in_narrower scope :
  scope_in scope ["db"; "file"; "all"] = false ->
  scope_in scope ["db"; "all"] = false /\ scope_in scope ["file"; "all"] = false.
Proof.
  destruct scope as [|s|]; [done| |done]. unfold scope_in.
  rewrite !bool_decide_eq_false, !list_elem_of_In. simpl. tauto.
Qed.

Section PurgeTheorems.

Context `{Collaborators}.

(** C1.  Whenever the purge operation completes successfully, whatever the
    scope, the session's metadata map is empty when it returns, and clearing
    it is the last thing the operation did: every database deletion and file
    write of the call comes before it. *)
Theorem purge_clears_memory_last w data w' b :
  admin_clear_metadata w data = (w', respond 200 b) ->
  face_meta (session w') = ∅ /\
  exists evs, log w' = log w ++ evs ++ [ClearMemory] /\
              Forall (fun e => e <> ClearMemory) evs.
Proof.
  intros Hok.
  destruct (admin_success _ _ _ _ Hok)
    as (target & w0 & w1 & n & parts1 & w2 & parts2 & _ & _ & El & Ed & Ef & -> & _).
  split; [done|].
  apply ensure_loaded_frame in El as (_ & _ & L0).
  apply db_cleanup_frame in Ed as (_ & _ & evs1 & L1 & F1).
  apply file_cleanup_frame in Ef as (_ & _ & evs2 & L2 & F2).
  exists (evs1 ++ evs2). split.
  - simpl. rewrite L2, L1, L0. by rewrite <- !app_assoc.
  - by apply Forall_app.
Qed.

(** C10.  A purge request whose scope is not one of [db], [file], [all]
    deletes nothing from the database and leaves the files alone; it clears
    the session's metadata map and answers success with [deleted_count] 0.
    An omitted scope is not such a value: it stands for [all]. *)
Theorem purge_unrecognised_scope w target scope w0 :
  target <> "" ->
  scope_in scope ["db"; "file"; "all"] = false ->
  scope <> ScopeAbsent ->
  ensure_loaded w target = (w0, None) ->
  admin_clear_metadata w {| pr_uuid := Some target; pr_scope := scope |}
  = (clear_memory w0,
     respond 200 (Purged O "Cleared in-memory metadata")) /\
  db (clear_memory w0) = db w /\
  files (clear_memory w0) = files w /\
  log (clear_memory w0) = log w ++ [ClearMemory] /\
  face_meta (session (clear_memory w0)) = ∅ /\
  admin_clear_metadata w {| pr_uuid := Some target; pr_scope := ScopeAbsent |}
  = admin_clear_metadata w {| pr_uuid := Some target; pr_scope := ScopeStr "all" |}.
Proof.
  intros Hne Hs Ha El.
  assert (scope_of scope = scope) as Hso by (by destruct scope).
  assert (scope_in scope ["db"; "all"] = false /\ scope_in scope ["file"; "all"] = false)
    as [Hd Hf].
  { by apply scope_in_narrower. }
  destruct (ensure_loaded_frame _ _ _ _ El) as (D0 & F0 & L0).
  repeat split; try done.
  - unfold admin_clear_metadata. simpl.
    destruct (decide (target = "")); [done|].
    rewrite El, Hso, (db_cleanup_skipped _ _ Hd), (file_cleanup_skipped _ _ _ Hf).
    done.
  - simpl. by rewrite L0.
Qed.

End PurgeTheorems.

Lemma purge_clears_memory_last_witness :
  face_meta (session (fst (admin_clear_metadata (H := Demo.collaborators) Demo.world
     {| pr_uuid := Some "abc"; pr_scope := ScopeStr "all" |}))) = ∅.
Proof.
  eapply (purge_clears_memory_last (H := Demo.collaborators) Demo.world
            {| pr_uuid := Some "abc"; pr_scope := ScopeStr "all" |}).
  vm_compute. reflexivity.
Defined.

Lemma purge_unrecognised_scope_witness :
  admin_clear_metadata (H := Demo.collaborators) Demo.world
    {| pr_uuid := Some "abc"; pr_scope := ScopeStr "bogus" |}
  = (clear_memory Demo.world, respond 200 (Purged O "Cleared in-memory metadata")).
Proof.
  apply (purge_unrecognised_scope (H := Demo.collaborators) Demo.world "abc"
           (ScopeStr "bogus") Demo.world); [done|done|done|reflexivity].
Defined.

(** ** Strip completeness *)

Section StripCompleteness.

Context `{Codec} `{Collaborators}.

(** After the three substitutions, the only trace of the embedding is an
    entity whose payload is empty, and extraction finds nothing in it. *)
Lemma extract_blank h :
  host_clean h = true ->
  default ∅ (decode []) = ∅ ->
  extract ((before_tag h ++ before_entity h) ++ entity_item [] ++
           (before_comment h ++ after_comment h)) = ∅.
Proof.
  intros Hh Hd.
  destruct (host_clean_spec h Hh) as (Ht & Hc & Hs1 & Hs2).
  destruct (host_parts _ h Ht) as (_ & _ & _ & _ & Ht12 & Ht34).
  destruct (host_parts _ h Hc) as (_ & _ & _ & _ & Hc12 & Hc34).
  destruct (host_parts _ h Hs1) as (_ & _ & _ & _ & Hs112 & Hs134).
  destruct (host_parts _ h Hs2) as (_ & _ & _ & _ & Hs212 & Hs234).
  set (a := before_tag h ++ before_entity h) in *.
  set (b := before_comment h ++ after_comment h) in *.
  unfold extract.
  assert (find_tag (a ++ entity_item [] ++ b) = None) as ->.
  { unfold find_tag. rewrite tag_marker_cons.
    rewrite <- (app_nil_r (a ++ entity_item [] ++ b)).
    rewrite search_quiet, search_nil; [done|done|].
    apply quiet_app; [by apply quiet_clean|].
    apply quiet_app; [by apply quiet_lacks_head|by apply quiet_clean]. }
  assert (find_comment (a ++ entity_item [] ++ b) = None) as ->.
  { unfold find_comment. rewrite comment_marker_cons.
    rewrite <- (app_nil_r (a ++ entity_item [] ++ b)).
    rewrite search_quiet, search_nil; [done|done|].
    apply quiet_app; [by apply quiet_clean|].
    apply quiet_app; [by apply quiet_lacks_head|by apply quiet_clean]. }
  assert (find_entity (a ++ entity_item [] ++ b) = Some []) as ->.
  { unfold find_entity.
    rewrite search_calm by (apply host_entity_calm; done || reflexivity).
    by rewrite (search_found _ _ _ (entity_item_matches [] b ltac:(constructor))). }
  unfold decoded. rewrite Hd. by rewrite !(left_id_L ∅ (∪)).
Qed.

(** C2.  A file produced by embedding a record by all three strategies
    extracts to the empty record once the purge workflow's three
    substitutions have run.  The host is any file that carries no metadata
    of the viewer yet: it may hold entities of its own,
    [DESCRIPTIVE_REPRESENTATION_ITEM] with other tags among them, brackets,
    stars, slashes and comments, but neither sentinel and neither tag
    string of the viewer.  The payload is text-safe, as the codec's contract
    has it: it holds no quote and no sentinel, and its transported form no
    closing bracket; and the codec reads no metadata from an empty payload.
    A purge that reaches the file step writes the stripped text, re-runs
    extraction on it, reports whether it came out clean, and answers
    success either way. *)
Theorem strip_completeness h r :
  host_clean h = true ->
  payload_safe (encode r) = true ->
  tag_safe (transport (encode r)) = true ->
  default ∅ (decode []) = ∅ ->
  extract (strip (embed h r)) = ∅ /\
  (forall w target scope w0 path content,
     target <> "" ->
     scope_in (scope_of scope) ["file"; "all"] = true ->
     ensure_loaded w target = (w0, None) ->
     resolve (files w0) target = Some path ->
     read_file path (files w0) = Some content ->
     exists w' n msg evs,
       admin_clear_metadata w {| pr_uuid := Some target; pr_scope := scope |}
       = (w', respond 200 (Purged n msg)) /\
       read_file path (files w') = Some (strip content) /\
       log w' = log w ++ evs ++
                [WriteFile path;
                 Report (bool_decide (extract_meta_from_step (strip content) = ∅));
                 ClearMemory]).
Proof.
  intros Hh Hp Hq Hd. split.
  - unfold embed. rewrite strip_embedded by done. by apply extract_blank.
  - intros w target scope w0 path content Hne Hs El Hr Hc.
    destruct (db_cleanup (scope_of scope) w0) as [[w1 n] parts1] eqn:Ed.
    destruct (db_cleanup_frame _ _ _ _ _ Ed) as (S1 & F1 & evs & L1 & _).
    destruct (ensure_loaded_frame _ _ _ _ El) as (_ & _ & L0).
    rewrite <- F1 in Hr, Hc.
    destruct (file_cleanup_runs _ _ _ _ _ Hs Hr Hc) as [msg Hf].
    eexists _, n, _, evs. split; [|split].
    + unfold admin_clear_metadata. simpl.
      destruct (decide (target = "")); [done|].
      rewrite El, Ed, Hf. reflexivity.
    + simpl. apply read_write_file.
    + simpl. rewrite L1, L0. by rewrite <- !app_assoc.
Qed.

End StripCompleteness.

(** The codec of the examples reads back what it wrote. *)
Lemma bits_pos_bits p : Demo.bits_pos (Demo.pos_bits p) = Some p.
Proof. induction p as [p IH|p IH|]; simpl; by rewrite ?IH. Qed.

Lemma demo_codec_round_trip (r : FaceMeta) :
  decode (Codec := Demo.codec) (encode (Codec := Demo.codec) r) = Some r.
Proof. simpl. rewrite bits_pos_bits. simpl. apply decode_encode. Qed.

(** The colour of face 3 embedded in a file with entities, brackets and a
    comment of its own: before the stripping, extraction reads the record
    back; after it, extraction finds nothing; and a purge of the file logs
    the write, a clean report and the clearing of the session. *)
Lemma strip_completeness_witness :
  extract (H := Demo.codec) (embed (H := Demo.codec) Demo.host Demo.red) = Demo.red /\
  Demo.red <> ∅ /\
  extract (H := Demo.codec) (strip (embed (H := Demo.codec) Demo.host Demo.red)) = ∅ /\
  exists w' n msg evs,
    admin_clear_metadata (H := Demo.collaborators) Demo.annotated_world
      {| pr_uuid := Some "abc"; pr_scope := ScopeStr "file" |}
    = (w', respond 200 (Purged n msg)) /\
    log w' = evs ++ [WriteFile (UploadFile "abc"); Report true; ClearMemory].
Proof.
  destruct (strip_completeness (H := Demo.codec) (H0 := Demo.collaborators)
              Demo.host Demo.red) as [Hclean Hpurge]; [by vm_compute..|].
  split; [by vm_compute|]. split; [apply map_non_empty_singleton|].
  split; [exact Hclean|].
  destruct (Hpurge Demo.annotated_world "abc" (ScopeStr "file") Demo.annotated_world
              (UploadFile "abc") (embed (H := Demo.codec) Demo.host Demo.red))
    as (w' & n & msg & evs & E & _ & Hlog);
    [done|reflexivity|reflexivity|reflexivity|reflexivity|].
  exists w', n, msg, evs. split; [exact E|].
  rewrite Hlog. cbn [log Demo.annotated_world app].
  change (extract_meta_from_step (strip (embed (H := Demo.codec) Demo.host Demo.red)))
    with (extract (H := Demo.codec) (strip (embed (H := Demo.codec) Demo.host Demo.red))).
  by rewrite Hclean.
Defined.

(** ** The setters, one item at a time *)

Lemma persist_cases i w n w' n' :
  persist i w n = (w', n') ->
  session w' = session w /\ files w' = files w /\
  ((w' = w /\ n' = n) \/
   (exists h e,
      fingerprint_of (session w) i = Some h /\
      db w' = <[h := e]> (db w) /\ fst e <> ∅ /\
      log w' = log w ++ [SaveFaceMeta h] /\ n' = S n)).
Proof.
  unfold persist, fingerprint_of.
  destruct (i <? Z.of_nat (length (face_hashes (session w)))).
  - destruct (face_hashes (session w) !! Z.to_nat i) as [fh|].
    + destruct (known_hash fh) as [h|].
      * destruct (decide (default ∅ (face_meta (session w) !! i) = ∅)) as [|Hne].
        -- intros [= <- <-]. split; [done|]. split; [done|]. by left.
        -- intros [= <- <-]. split; [done|]. split; [done|]. right.
           eexists h, (_, _). by repeat split.
      * intros [= <- <-]. split; [done|]. split; [done|]. by left.
    + intros [= <- <-]. split; [done|]. split; [done|]. by left.
  - intros [= <- <-]. split; [done|]. split; [done|]. by left.
Qed.

Lemma persist_unknown i w n :
  fingerprint_of (session w) i = None -> persist i w n = (w, n).
Proof.
  unfold persist, fingerprint_of. intros Hf.
  destruct (i <? _); [|done].
  destruct (face_hashes (session w) !! Z.to_nat i) as [fh|]; [|done].
  by rewrite Hf.
Qed.

Lemma set_attr_other key v i j (fm : FaceMeta) :
  i <> j -> set_attr key v i fm !! j = fm !! j.
Proof. intros Hne. unfold set_attr. by rewrite lookup_insert_ne. Qed.

Lemma pop_attr_other key i j (fm : FaceMeta) :
  i <> j -> pop_attr key i fm !! j = fm !! j.
Proof.
  intros Hne. unfold pop_attr. destruct (fm !! i) as [m|]; [|done].
  destruct (decide (delete key m = ∅)).
  - by rewrite lookup_delete_ne.
  - by rewrite lookup_insert_ne.
Qed.

Lemma object_step_sound key mk : step_sound (object_step key mk).
Proof.
  intros w n item w' n'. unfold object_step, valid_item.
  destruct (face_id item) as [i|].
  2:{ intros [= <- <-]. repeat split; try done. by left. }
  destruct (in_range (session w) i) eqn:Hr.
  2:{ intros [= <- <-]. repeat split; try done. by left. }
  intros Hp. apply persist_cases in Hp as (Hs & Hf & Hc).
  rewrite Hs. simpl. repeat split; try done.
  - intros j Hj. assert (i <> j) by congruence.
    destruct (truthy (attr item)); [by apply set_attr_other|by apply pop_attr_other].
  - destruct Hc as [[-> ->]|(h & e & Hfp & Hdb & He & Hl & ->)]; [by left|].
    right. by exists i, h, e.
Qed.

Section ColorStep.

Context `{Collaborators}.

Lemma color_step_sound : step_sound color_step.
Proof.
  intros w n item w' n'. unfold color_step, valid_item.
  destruct (face_id item) as [i|].
  2:{ intros [= <- <-]. repeat split; try done. by left. }
  destruct (attr item) as [hex|].
  2:{ intros [= <- <-]. repeat split; try done. by left. }
  destruct (in_range (session w) i) eqn:Hr.
  2:{ intros [= <- <-]. repeat split; try done. by left. }
  destruct (hex_to_quantity hex) as [q|].
  2:{ intros [= <- <-]. repeat split; try done. by left. }
  destruct (face_labels (session w) !! Z.to_nat i) as [lab|].
  2:{ intros [= <- <-]. repeat split; try done. by left. }
  destruct (face_shapes (session w) !! Z.to_nat i) as [shp|].
  2:{ intros [= <- <-]. repeat split; try done. by left. }
  destruct (doc (session w)) as [d|].
  2:{ intros [= <- <-]. repeat split; try done. by left. }
  intros Hp. apply persist_cases in Hp as (Hs & Hf & Hc).
  rewrite Hs. simpl. repeat split; try done.
  - intros j Hj. assert (i <> j) by congruence. by apply set_attr_other.
  - destruct Hc as [[-> ->]|(h & e & Hfp & Hdb & He & Hl & ->)]; [by left|].
    right. by exists i, h, e.
Qed.

End ColorStep.

(** ** The setters, a batch at a time *)

Lemma in_range_shapes s s' i :
  face_shapes s' = face_shapes s -> in_range s' i = in_range s i.
Proof. unfold in_range. by intros ->. Qed.

Lemma valid_item_shapes {A} s s' (item : Item A) :
  face_shapes s' = face_shapes s -> valid_item s' item = valid_item s item.
Proof.
  unfold valid_item. intros Hs. destruct (face_id item); [|done].
  by apply in_range_shapes.
Qed.

Lemma fingerprint_of_hashes s s' i :
  face_hashes s' = face_hashes s -> fingerprint_of s' i = fingerprint_of s i.
Proof. unfold fingerprint_of. by intros ->. Qed.

Lemma named_cons {A} s (item : Item A) items j :
  named s (item :: items) j <->
  (face_id item = Some j /\ in_range s j = true) \/ named s items j.
Proof.
  unfold named. split.
  - intros (it & [<-|Hin] & Hf & Hr); [by left|]. right. by exists it.
  - intros [[Hf Hr]|(it & Hin & Hf & Hr)].
    + exists item. split; [by left|done].
    + exists it. split; [by right|done].
Qed.

Lemma named_shapes {A} s s' (items : list (Item A)) j :
  face_shapes s' = face_shapes s -> named s' items j <-> named s items j.
Proof.
  intros Hs. unfold named. by setoid_rewrite (in_range_shapes s s' j Hs).
Qed.

Section Batch.

Context {A : Type} (step : World * nat -> Item A -> World * nat).
Hypothesis step_ok : step_sound step.

(** Items without a valid index can be dropped from a batch. *)
Lemma fold_only_valid s0 items : forall w n,
  face_shapes (session w) = face_shapes s0 ->
  fold_left step (filter (fun item => valid_item s0 item = true) items) (w, n)
  = fold_left step items (w, n).
Proof.
  induction items as [|item items IH]; intros w n Hs; [done|].
  rewrite filter_cons. simpl.
  destruct (step (w, n) item) as [w1 n1] eqn:E.
  destruct (step_ok _ _ _ _ _ E) as (Hsh & _ & _ & Hskip & _).
  destruct (decide (valid_item s0 item = true)) as [Hv|Hv].
  - simpl. rewrite E. apply IH. by rewrite Hsh.
  - apply not_true_is_false in Hv.
    rewrite <- (valid_item_shapes s0 (session w) item) in Hv by done.
    destruct (Hskip Hv) as [-> ->]. by apply IH.
Qed.

(** What a whole batch does to the session, the store and the count. *)
Lemma fold_sound items : forall w n w' n',
  fold_left step items (w, n) = (w', n') ->
  face_shapes (session w') = face_shapes (session w) /\
  face_hashes (session w') = face_hashes (session w) /\
  files w' = files w /\
  (forall j, ~ named (session w) items j ->
             face_meta (session w') !! j = face_meta (session w) !! j) /\
  (forall h, db w' !! h <> db w !! h ->
             exists i, named (session w) items i /\
                       fingerprint_of (session w) i = Some h) /\
  (forall h e, db w' !! h = Some e -> db w !! h = Some e \/ fst e <> ∅) /\
  (exists saved,
     log w' = log w ++ map SaveFaceMeta saved /\ n' = (n + length saved)%nat /\
     Forall (fun h => exists i, named (session w) items i /\
                                fingerprint_of (session w) i = Some h) saved) /\
  ((forall i, named (session w) items i -> fingerprint_of (session w) i = None) ->
   db w' = db w /\ log w' = log w /\ n' = n).
Proof.
  induction items as [|item items IH]; intros w n w' n'.
  - intros [= <- <-]. split; [done|]. split; [done|]. split; [done|].
    split; [done|]. split; [done|]. split; [by left|]. split; [|done].
    exists []. simpl. rewrite app_nil_r. split; [done|]. split; [lia|constructor].
  - simpl. destruct (step (w, n) item) as [w1 n1] eqn:E. intros Hfold.
    destruct (step_ok _ _ _ _ _ E) as (Hsh & Hha & Hfi & Hskip & Hother & Hdb).
    destruct (IH _ _ _ _ Hfold)
      as (Ish & Iha & Ifi & Iother & Iwrite & Inon & Isaved & Iunk).
    split; [congruence|]. split; [congruence|]. split; [congruence|].
    split; [|split; [|split; [|split]]].
    + intros j Hj.
      assert (~ named (session w1) items j) as Hj1.
      { intros Hn. apply Hj. apply named_cons. right.
        by apply (named_shapes (session w) (session w1)). }
      rewrite (Iother j Hj1).
      destruct (decide (face_id item = Some j)) as [Hf|Hf]; [|by apply Hother].
      destruct (in_range (session w) j) eqn:Hr.
      * exfalso. apply Hj. apply named_cons. by left.
      * unfold valid_item in Hskip. rewrite Hf, Hr in Hskip.
        by destruct (Hskip eq_refl) as [-> ->].
    + intros h Hh.
      destruct (decide (db w' !! h = db w1 !! h)) as [Heq|Hne].
      * rewrite Heq in Hh.
        destruct Hdb as [(Hd & _ & _)|(i & h' & e & Hf & Hr & Hfp & Hd & _ & _ & _)].
        { by rewrite Hd in Hh. }
        rewrite Hd in Hh. destruct (decide (h' = h)) as [->|Hhh].
        -- exists i. split; [|done]. apply named_cons. by left.
        -- by rewrite lookup_insert_ne in Hh.
      * destruct (Iwrite h Hne) as (i & Hn & Hfp).
        exists i. split.
        -- apply named_cons. right.
           by apply (named_shapes (session w) (session w1)).
        -- by rewrite <- (fingerprint_of_hashes (session w) (session w1)).
    + intros h e He. destruct (Inon h e He) as [He1|Hne]; [|by right].
      destruct Hdb as [(Hd & _ & _)|(i & h' & e' & Hf & Hr & Hfp & Hd & Hne & _ & _)].
      { left. by rewrite <- Hd. }
      rewrite Hd in He1. destruct (decide (h' = h)) as [->|Hhh].
      * rewrite lookup_insert_eq in He1. injection He1 as <-. by right.
      * rewrite lookup_insert_ne in He1 by done. by left.
    + destruct Isaved as (saved & Il & In' & Hall).
      assert (Forall (fun h => exists i, named (session w) (item :: items) i /\
                                         fingerprint_of (session w) i = Some h) saved)
        as Hall'.
      { eapply Forall_impl; [exact Hall|]. intros h (i & Hn & Hfp).
        exists i. split.
        - apply named_cons. right. by apply (named_shapes (session w) (session w1)).
        - by rewrite <- (fingerprint_of_hashes (session w) (session w1)). }
      destruct Hdb as [(_ & Hl & ->)|(i & h & e & Hf & Hr & Hfp & _ & _ & Hl & ->)].
      * exists saved. rewrite Il, Hl. by repeat split.
      * exists (h :: saved). rewrite Il, Hl. simpl. rewrite <- app_assoc.
        split; [done|]. split; [lia|]. constructor; [|done].
        exists i. split; [|done]. apply named_cons. by left.
    + intros Hunk.
      destruct Iunk as (Id & Il & In').
      { intros i Hi. rewrite (fingerprint_of_hashes (session w) (session w1)) by done.
        apply Hunk. apply named_cons. right.
        by apply (named_shapes (session w) (session w1)) in Hi. }
      destruct Hdb as [(Hd & Hl & ->)|(i & h' & e & Hf & Hr & Hfp & _)].
      * split; [congruence|]. split; [congruence|done].
      * exfalso. assert (fingerprint_of (session w) i = None) as Hnone.
        { apply Hunk. apply named_cons. by left. }
        congruence.
Qed.

End Batch.

(** ** The claims about the setters *)

Lemma handler_fold {A} (step : World * nat -> Item A -> World * nat)
  (handler : World -> Batch A -> World * Response) :
  (forall w data, handler w data =
     match doc (session w) with
     | None => (w, no_model)
     | Some _ =>
         let '(w', n) := fold_left step (batch_items data) (w, O) in
         (w', respond 200 (Updated n))
     end) ->
  step_sound step ->
  forall w, (doc (session w) <> None -> skips_bad_indices handler w) /\
            persists_known_only handler w.
Proof.
  intros Hh Hs w. split.
  - intros Hdoc data. rewrite !Hh.
    destruct (doc (session w)) as [d|]; [|done].
    change (batch_items (only_valid (session w) data))
      with (filter (fun item => valid_item (session w) item = true) (batch_items data)).
    rewrite (fold_only_valid step Hs) by done.
    destruct (fold_left step (batch_items data) (w, O)) as [w' n] eqn:E.
    exists w', n. split; [done|]. split; [done|].
    by destruct (fold_sound step Hs _ _ _ _ _ E) as (_ & _ & _ & Ho & _).
  - intros data w' r. rewrite Hh.
    destruct (doc (session w)) as [d|].
    + destruct (fold_left step (batch_items data) (w, O)) as [w1 n] eqn:E.
      intros [= <- <-].
      destruct (fold_sound step Hs _ _ _ _ _ E)
        as (_ & _ & _ & _ & Hw & Hn & (saved & Hl & -> & Hall) & Hu).
      split; [done|]. split; [done|]. split.
      * exists saved. by repeat split.
      * intros Hunk. destruct (Hu Hunk) as (? & ? & Hz). split; [done|]. split; [done|].
        intros _. by rewrite Hz.
    + intros [= <- <-]. split; [done|]. split; [by left|]. split; [|by repeat split].
      exists []. simpl. rewrite app_nil_r. by repeat split.
Qed.

Lemma persist_no_record i w n :
  face_meta (session w) !! i = None -> persist i w n = (w, n).
Proof.
  unfold persist. intros ->. simpl.
  destruct (i <? _); [|done].
  destruct (face_hashes (session w) !! Z.to_nat i) as [fh|]; [|done].
  by destruct (known_hash fh).
Qed.

Lemma object_step_removal key mk w i m falsy :
  in_range (session w) i = true ->
  truthy falsy = None ->
  face_meta (session w) !! i = Some m ->
  delete key m = ∅ ->
  object_step key mk (w, O) {| face_id := Some i; attr := falsy |}
  = (with_session (set_face_meta (delete i (face_meta (session w))) (session w)) w, O).
Proof.
  intros Hr Ht Hm Hd. unfold object_step. cbn [face_id attr].
  rewrite Hr, Ht. unfold pop_attr. rewrite Hm. cbn zeta.
  destruct (decide (delete key m = ∅)); [|done].
  apply persist_no_record. simpl. apply lookup_delete_eq.
Qed.

Lemma drops_emptied_record_of key mk handler :
  (forall w data, handler w data =
     match doc (session w) with
     | None => (w, no_model)
     | Some _ =>
         let '(w', n) := fold_left (object_step key mk) (batch_items data) (w, O) in
         (w', respond 200 (Updated n))
     end) ->
  drops_emptied_record key handler.
Proof.
  intros Hh w i m falsy Hdoc Hr Ht Hm Hd.
  rewrite Hh. destruct (doc (session w)) as [d|] eqn:Ed; [|done].
  unfold removal, batch_items. cbn [updates fold_left].
  rewrite (object_step_removal key mk w i m falsy Hr Ht Hm Hd).
  eexists. split; [done|]. simpl. split; [apply lookup_delete_eq|done].
Qed.


Section SetterTheorems.

Context `{Collaborators}.


End SetterTheorems.

(** C3, as the code has it.  Removing the last attribute of a face's record
    through [set_thread] or [set_tolerance] deletes the record from the
    session's metadata map and writes nothing to the store: no empty record
    is stored, and the store is left as it was. *)
Theorem emptied_record_is_dropped :
  drops_emptied_record "thread" set_thread /\
  drops_emptied_record "tolerance" set_tolerance.
Proof.
  split.
  - by apply (drops_emptied_record_of "thread" thread_value).
  - by apply (drops_emptied_record_of "tolerance" tolerance_value).
Qed.

(** ** The items with a valid index are applied *)

Lemma set_attr_key key v i (fm : FaceMeta) :
  default ∅ (set_attr key v i fm !! i) !! key = Some v.
Proof. unfold set_attr. rewrite lookup_insert_eq. simpl. apply lookup_insert_eq. Qed.

Lemma set_attr_other_key key v i (fm : FaceMeta) j k :
  k <> key ->
  default ∅ (set_attr key v i fm !! j) !! k = default ∅ (fm !! j) !! k.
Proof.
  intros Hk. unfold set_attr. destruct (decide (i = j)) as [->|Hne].
  - rewrite lookup_insert_eq. simpl. by rewrite lookup_insert_ne.
  - by rewrite lookup_insert_ne.
Qed.

Lemma pop_attr_key key i (fm : FaceMeta) :
  default ∅ (pop_attr key i fm !! i) !! key = None.
Proof.
  unfold pop_attr. destruct (fm !! i) as [m|] eqn:E.
  - destruct (decide (delete key m = ∅)).
    + by rewrite lookup_delete_eq.
    + rewrite lookup_insert_eq. simpl. apply lookup_delete_eq.
  - by rewrite E.
Qed.

Lemma pop_attr_other_key key i (fm : FaceMeta) j k :
  k <> key ->
  default ∅ (pop_attr key i fm !! j) !! k = default ∅ (fm !! j) !! k.
Proof.
  intros Hk. unfold pop_attr. destruct (fm !! i) as [m|] eqn:E; [|done].
  destruct (decide (i = j)) as [->|Hne].
  - rewrite E. simpl. destruct (decide (delete key m = ∅)) as [He|He].
    + rewrite lookup_delete_eq. simpl. rewrite lookup_empty.
      rewrite <- (lookup_delete_ne m key k) by done. by rewrite He.
    + rewrite lookup_insert_eq. simpl. by rewrite lookup_delete_ne.
  - destruct (decide (delete key m = ∅)).
    + by rewrite lookup_delete_ne.
    + by rewrite lookup_insert_ne.
Qed.

(** What the loop body of a setter does to the metadata map, said through
    the effect of the item. *)
Definition step_applies {A} (key : string)
  (effect : Session -> Z -> Item A -> option (option Value))
  (step : World * nat -> Item A -> World * nat) : Prop :=
  forall w n item w' n',
    is_Some (doc (session w)) ->
    step (w, n) item = (w', n') ->
    is_Some (doc (session w')) /\
    face_shapes (session w') = face_shapes (session w) /\
    face_labels (session w') = face_labels (session w) /\
    forall j,
      match effect (session w) j item with
      | Some v => default ∅ (face_meta (session w') !! j) !! key = v
      | None => face_meta (session w') !! j = face_meta (session w) !! j
      end /\
      (forall k, k <> key ->
         default ∅ (face_meta (session w') !! j) !! k
         = default ∅ (face_meta (session w) !! j) !! k).

Ltac skipped j :=
  intros [= <- <-]; split; [done|]; split; [done|]; split; [done|];
  intros j; split; [|done].

Lemma object_step_applies key mk :
  step_applies key (object_effect mk) (object_step key mk).
Proof.
  intros w n item w' n' Hdoc. unfold object_step, object_effect.
  destruct (face_id item) as [i|].
  2:{ skipped j. by case_decide. }
  destruct (in_range (session w) i) eqn:Hr.
  2:{ skipped j. case_decide as Hj; [|done]. injection Hj as <-. by rewrite Hr. }
  intros Hp. apply persist_cases in Hp as (Hs & _ & _).
  rewrite Hs. simpl. split; [done|]. split; [done|]. split; [done|].
  intros j. split.
  - case_decide as Hj.
    + injection Hj as <-. rewrite Hr.
      destruct (truthy (attr item)) as [d|]; simpl;
        [apply set_attr_key|apply pop_attr_key].
    + assert (i <> j) by congruence.
      destruct (truthy (attr item)); [by apply set_attr_other|by apply pop_attr_other].
  - intros k Hk.
    destruct (truthy (attr item));
      [by apply set_attr_other_key|by apply pop_attr_other_key].
Qed.

Section ColorApplies.

Context `{Collaborators}.

Lemma color_step_applies : step_applies "color" color_effect color_step.
Proof.
  intros w n item w' n' [d Hdoc]. unfold color_step, color_effect.
  destruct (face_id item) as [i|].
  2:{ skipped j. by case_decide. }
  destruct (attr item) as [hex|].
  2:{ skipped j. case_decide; [|done]. by destruct (in_range (session w) j). }
  destruct (in_range (session w) i) eqn:Hr.
  2:{ skipped j. case_decide as Hj; [|done]. injection Hj as <-. by rewrite Hr. }
  destruct (hex_to_quantity hex) as [q|].
  2:{ skipped j. case_decide; [|done]. by destruct (in_range (session w) j). }
  destruct (face_labels (session w) !! Z.to_nat i) as [lab|] eqn:El.
  2:{ skipped j. case_decide as Hj; [|done]. injection Hj as <-. by rewrite Hr, El. }
  destruct (face_shapes (session w) !! Z.to_nat i) as [shp|] eqn:Esh.
  2:{ exfalso. unfold in_range in Hr. apply andb_true_iff in Hr as [Hlo Hhi].
      apply lookup_ge_None in Esh. lia. }
  rewrite Hdoc.
  intros Hp. apply persist_cases in Hp as (Hs & _ & _).
  rewrite Hs. simpl. split; [done|]. split; [done|]. split; [done|].
  intros j. split.
  - case_decide as Hj.
    + injection Hj as <-. rewrite Hr, El. apply set_attr_key.
    + assert (i <> j) by congruence. by apply set_attr_other.
  - intros k Hk. by apply set_attr_other_key.
Qed.

Lemma color_effect_frame s s' j item :
  face_shapes s' = face_shapes s -> face_labels s' = face_labels s ->
  color_effect s' j item = color_effect s j item.
Proof.
  intros Hsh Hl. unfold color_effect. by rewrite (in_range_shapes s s' j Hsh), Hl.
Qed.

End ColorApplies.

Lemma object_effect_frame mk s s' j item :
  face_shapes s' = face_shapes s -> face_labels s' = face_labels s ->
  object_effect mk s' j item = object_effect mk s j item.
Proof.
  intros Hsh _. unfold object_effect. by rewrite (in_range_shapes s s' j Hsh).
Qed.

Section Applied.

Context {A : Type} (key : string)
  (effect : Session -> Z -> Item A -> option (option Value))
  (step : World * nat -> Item A -> World * nat).
Hypothesis step_ok : step_applies key effect step.
Hypothesis effect_frame : forall s s' j item,
  face_shapes s' = face_shapes s -> face_labels s' = face_labels s ->
  effect s' j item = effect s j item.

Lemma fold_applies items : forall w n w' n',
  is_Some (doc (session w)) ->
  fold_left step items (w, n) = (w', n') ->
  face_shapes (session w') = face_shapes (session w) /\
  face_labels (session w') = face_labels (session w) /\
  forall j,
    (forall v, decides (effect (session w) j) items v ->
               default ∅ (face_meta (session w') !! j) !! key = v) /\
    (Forall (fun it => effect (session w) j it = None) items ->
     face_meta (session w') !! j = face_meta (session w) !! j) /\
    (forall k, k <> key ->
       default ∅ (face_meta (session w') !! j) !! k
       = default ∅ (face_meta (session w) !! j) !! k).
Proof.
  induction items as [|item items IH]; intros w n w' n' Hdoc.
  - intros [= <- <-]. split; [done|]. split; [done|]. intros j.
    split; [|done]. intros v (pre & it & post & Hnil & _). by destruct pre.
  - simpl. destruct (step (w, n) item) as [w1 n1] eqn:E. intros Hfold.
    destruct (step_ok _ _ _ _ _ Hdoc E) as (Hdoc1 & Hsh & Hla & Hstep).
    destruct (IH _ _ _ _ Hdoc1 Hfold) as (Ish & Ila & Irest).
    split; [congruence|]. split; [congruence|]. intros j.
    destruct (Hstep j) as [Heff Hoth]. destruct (Irest j) as (Idec & Inone & Ioth).
    assert (forall it, effect (session w1) j it = effect (session w) j it) as Hfr.
    { intros it. by apply effect_frame. }
    split; [|split].
    + intros v (pre & it & post & Hitems & Hit & Hpost).
      destruct pre as [|p0 pre]; simpl in Hitems; injection Hitems as -> ->.
      * rewrite Hit in Heff. rewrite Inone; [done|].
        eapply Forall_impl; [exact Hpost|]. intros x Hx. by rewrite Hfr.
      * apply Idec. exists pre, it, post. split; [done|]. split; [by rewrite Hfr|].
        eapply Forall_impl; [exact Hpost|]. intros x Hx. by rewrite Hfr.
    + intros Hall. inversion Hall as [|? ? Hitem Hitems]; subst.
      rewrite Hitem in Heff. rewrite Inone; [done|].
      eapply Forall_impl; [exact Hitems|]. intros x Hx. by rewrite Hfr.
    + intros k Hk. by rewrite Ioth, Hoth.
Qed.

Lemma handler_applies (handler : World -> Batch A -> World * Response) :
  (forall w data, handler w data =
     match doc (session w) with
     | None => (w, no_model)
     | Some _ =>
         let '(w', n) := fold_left step (batch_items data) (w, O) in
         (w', respond 200 (Updated n))
     end) ->
  forall w, doc (session w) <> None -> applies_valid_items key effect handler w.
Proof.
  intros Hh w Hdoc data j. rewrite Hh.
  destruct (doc (session w)) as [d|] eqn:Ed; [|done].
  destruct (fold_left step (batch_items data) (w, O)) as [w' n] eqn:E.
  destruct (fold_applies _ _ _ _ _ ltac:(by rewrite Ed) E) as (_ & _ & Hj).
  exact (Hj j).
Qed.

End Applied.

Section BatchTheorem.

Context `{Collaborators}.

(** C4.  While a document is loaded, [set_color], [set_thread] and
    [set_tolerance] skip every item whose face index is missing or out of
    range and go on with the batch.  The answer is success and the result
    is that of the valid items alone; no face that a valid item does not
    name has its record changed.  The items with a valid index are
    applied: on every face the thread (tolerance, colour) ends as the last
    such item for the face leaves it, set to the value the item carries or
    removed when the item carries none, and no other attribute changes.
    For [set_color] an item takes effect when its colour is present and
    parses. *)
Theorem batch_skips_bad_indices w :
  doc (session w) <> None ->
  (skips_bad_indices set_color w /\
   skips_bad_indices set_thread w /\
   skips_bad_indices set_tolerance w) /\
  (applies_valid_items "color" color_effect set_color w /\
   applies_valid_items "thread" (object_effect thread_value) set_thread w /\
   applies_valid_items "tolerance" (object_effect tolerance_value) set_tolerance w).
Proof.
  intros Hdoc. split; split; [|split| |split].
  - by apply (handler_fold color_step set_color); [|apply color_step_sound|].
  - by apply (handler_fold (object_step "thread" thread_value) set_thread);
      [|apply object_step_sound|].
  - by apply (handler_fold (object_step "tolerance" tolerance_value) set_tolerance);
      [|apply object_step_sound|].
  - by apply (handler_applies "color" color_effect color_step
                color_step_applies color_effect_frame set_color).
  - by apply (handler_applies "thread" (object_effect thread_value)
                (object_step "thread" thread_value)
                (object_step_applies "thread" thread_value)
                (object_effect_frame thread_value) set_thread).
  - by apply (handler_applies "tolerance" (object_effect tolerance_value)
                (object_step "tolerance" tolerance_value)
                (object_step_applies "tolerance" tolerance_value)
                (object_effect_frame tolerance_value) set_tolerance).
Qed.

End BatchTheorem.

(** Face 99 is out of range and face 1 is valid: the request succeeds,
    face 1 gets the thread, and nothing is recorded for face 99. *)
Lemma batch_skips_bad_indices_witness :
  exists w' n,
    set_thread Demo.world Demo.mixed_batch = (w', respond 200 (Updated n)) /\
    set_thread Demo.world (Demo.batch [Demo.one 1 (Some Demo.m6)])
    = (w', respond 200 (Updated n)) /\
    default ∅ (face_meta (session w') !! 1) !! "thread" = Some (thread_value Demo.m6) /\
    face_meta (session w') !! 99 = None.
Proof.
  destruct (batch_skips_bad_indices (H := Demo.collaborators) Demo.world)
    as ((_ & Ht & _) & (_ & Ha & _)); [done|].
  destruct (Ht Demo.mixed_batch) as (w' & n & E1 & E2 & _).
  exists w', n. split; [done|]. split; [exact E2|].
  destruct (Ha Demo.mixed_batch 1) as (Hset & _ & _).
  destruct (Ha Demo.mixed_batch 99) as (_ & Hskip & _).
  rewrite E1 in Hset, Hskip. simpl fst in Hset, Hskip. split.
  - apply Hset. exists [Demo.one 99 (Some Demo.m6)], (Demo.one 1 (Some Demo.m6)), [].
    split; [reflexivity|]. split; [reflexivity|constructor].
  - rewrite Hskip; [reflexivity|]. by repeat constructor.
Defined.

(** The record of face 0 holds a thread and nothing else; removing the
    thread drops the record from the session, and the entry that the first
    request stored under the face's fingerprint is still there. *)
Lemma removal_keeps_store_entry :
  ~ forgets_emptied_record "thread" set_thread.
Proof.
  intros Hc.
  destruct (Hc Demo.threaded 0 {[ "thread" := thread_value Demo.m6 ]} None "fp-0")
    as [_ Hdb]; try (vm_compute; congruence).
  vm_compute in Hdb. discriminate.
Qed.

Lemma emptied_record_is_dropped_witness :
  face_meta (session Demo.unthreaded) !! 0 = None /\
  db Demo.unthreaded = db Demo.threaded.
Proof.
  destruct emptied_record_is_dropped as [Ht _].
  destruct (Ht Demo.threaded 0 {[ "thread" := thread_value Demo.m6 ]} None)
    as (w' & E & Hm & Hd & _); try (vm_compute; congruence).
  unfold Demo.unthreaded. rewrite E. done.
Defined.


(** ** Loading and exporting *)


Lemma set_model_uuid_empty u s : session_empty s -> session_empty (set_model_uuid u s).
Proof. by intros (? & ? & ? & ? & ? & ?). Qed.

Section LoadExport.

Context `{Collaborators}.


(** C8.  Exporting leaves the fingerprint store as it was, whether the
    exporter succeeds or fails: the handler passes the session to the
    exporter and makes no call to the store. *)
Theorem export_leaves_store w :
  db (fst (export_step w)) = db w /\
  log (fst (export_step w)) = log w /\
  session (fst (export_step w)) = session w.
Proof.
  unfold export_step.
  destruct (doc (session w)); [|done].
  destruct (export_step_xcaf (session w) (files w)) as [fs [e|[[name mime] stream]]]; done.
Qed.

End LoadExport.


(** ** Hole detection *)

Lemma group_add_keys_old d i g :
  d ∈ map fst g -> map fst (group_add d i g) = map fst g.
Proof.
  induction g as [|[d' l] g IH]; intros Hin.
  - by apply elem_of_nil in Hin.
  - cbn [group_add]. destruct (Z.eqb_spec d d') as [->|Hne]; [done|].
    cbn [map fst]. f_equal. apply IH.
    cbn [map fst] in Hin. by apply elem_of_cons in Hin as [?|?].
Qed.

Lemma group_add_keys_new d i g :
  d ∉ map fst g -> map fst (group_add d i g) = map fst g ++ [d].
Proof.
  induction g as [|[d' l] g IH]; intros Hin; [done|].
  cbn [group_add]. cbn [map fst] in Hin.
  apply not_elem_of_cons in Hin as [Hne Hin].
  destruct (Z.eqb_spec d d') as [->|_]; [done|].
  cbn [map fst app]. f_equal. by apply IH.
Qed.

Lemma group_of_add d' d i g :
  group_of d' (group_add d i g)
  = if decide (d' = d) then group_of d g ++ [i] else group_of d' g.
Proof.
  induction g as [|[d0 l] g IH]; cbn [group_add group_of].
  - destruct (Z.eqb_spec d' d) as [->|Hne]; by case_decide.
  - destruct (Z.eqb_spec d d0) as [->|Hne]; cbn [group_of].
    + destruct (Z.eqb_spec d' d0) as [->|Hne']; by case_decide.
    + rewrite IH. destruct (Z.eqb_spec d' d0) as [->|Hne']; [|done].
      case_decide; [congruence|done].
Qed.

Lemma group_add_NoDup d i g :
  NoDup (map fst g) -> NoDup (map fst (group_add d i g)).
Proof.
  intros Hnd.
  destruct (decide (d ∈ map fst g)) as [Hin|Hin];
    [by rewrite group_add_keys_old|rewrite group_add_keys_new by done].
  apply NoDup_app. split; [done|]. split; [|apply NoDup_singleton].
  intros x Hx Hx'. apply list_elem_of_singleton in Hx' as ->. done.
Qed.

Lemma group_of_nonempty_add d' d i g :
  (forall x, x ∈ map fst g -> group_of x g <> []) ->
  d' ∈ map fst (group_add d i g) -> group_of d' (group_add d i g) <> [].
Proof.
  intros Hg Hin. rewrite group_of_add.
  destruct (decide (d' = d)) as [->|Hne].
  - by destruct (group_of d g).
  - apply Hg.
    destruct (decide (d ∈ map fst g)) as [Hd|Hd];
      [by rewrite group_add_keys_old in Hin|rewrite group_add_keys_new in Hin by done].
    apply elem_of_app in Hin as [?|Hin]; [done|].
    by apply list_elem_of_singleton in Hin.
Qed.

(** The loop of [get_holes]: every diameter's list grows by the positions
    of the faces of that diameter, in order; keys stay distinct and no list
    is empty. *)
Lemma group_faces_spec shapes : forall i g,
  NoDup (map fst g) ->
  (forall x, x ∈ map fst g -> group_of x g <> []) ->
  NoDup (map fst (group_faces i shapes g)) /\
  (forall x, x ∈ map fst (group_faces i shapes g) ->
             group_of x (group_faces i shapes g) <> []) /\
  (forall d, group_of d (group_faces i shapes g) = group_of d g ++ positions d i shapes).
Proof.
  induction shapes as [|shape rest IH]; intros i g Hnd Hne; simpl.
  - split; [done|]. split; [done|]. intros d. by rewrite app_nil_r.
  - destruct (get_cylinder_info shape) as [d0|] eqn:E.
    + destruct (IH (S i) (group_add d0 i g)) as (N & E' & G).
      { by apply group_add_NoDup. }
      { intros x. by apply group_of_nonempty_add. }
      split; [done|]. split; [done|].
      intros d. rewrite G, group_of_add.
      destruct (decide (d = d0)) as [->|Hd].
      * case_decide; [|done]. by rewrite <- app_assoc.
      * case_decide; [congruence|done].
    + destruct (IH (S i) g Hnd Hne) as (N & E' & G).
      split; [done|]. split; [done|].
      intros d. rewrite G. by case_decide.
Qed.

Lemma group_of_entry d l g :
  NoDup (map fst g) -> (d, l) ∈ g -> group_of d g = l.
Proof.
  induction g as [|[d' l'] g IH]; intros Hnd Hin.
  - by apply elem_of_nil in Hin.
  - simpl in *. apply NoDup_cons in Hnd as [Hn Hnd].
    apply elem_of_cons in Hin as [[= <- <-]|Hin].
    + by rewrite Z.eqb_refl.
    + destruct (Z.eqb_spec d d') as [->|_]; [|by apply IH].
      exfalso. apply Hn. apply list_elem_of_fmap. by exists (d', l).
Qed.

(** ** The stable sort by diameter *)

Lemma insert_group_perm x l : Permutation (insert_group x l) (x :: l).
Proof.
  induction l as [|y l IH]; simpl; [done|].
  destruct (diameter x <=? diameter y); [done|].
  rewrite IH. apply perm_swap.
Qed.

Lemma sort_groups_perm l : Permutation (sort_groups l) l.
Proof.
  induction l as [|x l IH]; simpl; [done|].
  rewrite insert_group_perm. by constructor.
Qed.

Lemma insert_group_sorted x l :
  StronglySorted by_diameter l -> StronglySorted by_diameter (insert_group x l).
Proof.
  induction l as [|y l IH]; intros Hs; simpl.
  - repeat constructor.
  - apply StronglySorted_inv in Hs as [Hs Hy].
    destruct (Z.leb_spec (diameter x) (diameter y)) as [Hle|Hgt].
    + constructor; [by constructor|]. constructor; [done|].
      eapply Forall_impl; [exact Hy|]. unfold by_diameter. intros z Hz. lia.
    + constructor; [by apply IH|].
      rewrite insert_group_perm. constructor; [unfold by_diameter; lia|done].
Qed.

Lemma sort_groups_sorted l : StronglySorted by_diameter (sort_groups l).
Proof.
  induction l as [|x l IH]; simpl; [constructor|]. by apply insert_group_sorted.
Qed.

Lemma sorted_distinct_ascending l :
  StronglySorted by_diameter l -> NoDup (map diameter l) ->
  StronglySorted ascending l.
Proof.
  induction l as [|x l IH]; intros Hs Hnd; [constructor|].
  apply StronglySorted_inv in Hs as [Hs Hx]. simpl in Hnd.
  apply NoDup_cons in Hnd as [Hn Hnd].
  constructor; [by apply IH|].
  apply List.Forall_forall. intros y Hy.
  rewrite List.Forall_forall in Hx. specialize (Hx y Hy).
  unfold by_diameter, ascending in *.
  destruct (decide (diameter x = diameter y)) as [Heq|Hneq]; [|lia].
  exfalso. apply Hn. rewrite Heq. apply list_elem_of_fmap.
  exists y. split; [done|]. by apply list_elem_of_In.
Qed.

Lemma positions_In d shapes : forall i k,
  In k (positions d i shapes) <->
  exists j shape, k = (i + j)%nat /\ shapes !! j = Some shape /\
                  get_cylinder_info shape = Some d.
Proof.
  induction shapes as [|s rest IH]; intros i k; simpl.
  - split; [done|]. by intros (j & shape & _ & Hl & _).
  - destruct (decide (get_cylinder_info s = Some d)) as [Hs|Hs]; simpl; rewrite IH.
    + split.
      * intros [<-|(j & shape & -> & Hl & Hc)].
        -- exists O, s. split; [lia|done].
        -- exists (S j), shape. split; [lia|done].
      * intros (j & shape & -> & Hl & Hc). destruct j as [|j].
        -- left. lia.
        -- right. exists j, shape. split; [lia|done].
    + split.
      * intros (j & shape & -> & Hl & Hc). exists (S j), shape. split; [lia|done].
      * intros (j & shape & -> & Hl & Hc). destruct j as [|j].
        -- simpl in Hl. congruence.
        -- exists j, shape. split; [lia|done].
Qed.

Lemma group_of_key d g : group_of d g <> [] -> d ∈ map fst g.
Proof.
  induction g as [|[d' l] g IH]; simpl; [done|].
  destruct (Z.eqb_spec d d') as [->|Hne]; intros Hg.
  - apply list_elem_of_here.
  - apply list_elem_of_further. by apply IH.
Qed.

Lemma map_diameter_as_group g : map diameter (map as_group g) = map fst g.
Proof. induction g as [|[d l] g IH]; simpl; [done|]. by rewrite IH. Qed.

(** Strictly ascending groups that all have one diameter are at most one. *)
Lemma ascending_same_diameter d gs :
  StronglySorted ascending gs ->
  (forall g, In g gs -> diameter g = d) ->
  gs = [] \/ exists g, gs = [g].
Proof.
  destruct gs as [|g [|g' gs]]; [by left|right; by exists g|].
  intros Hs Hd. exfalso.
  apply StronglySorted_inv in Hs as [_ Hg].
  apply Forall_inv in Hg. unfold ascending in Hg.
  rewrite (Hd g), (Hd g') in Hg; [lia|simpl; tauto|simpl; tauto].
Qed.

(** ** Rounding to four decimals *)

Lemma inject_Z_succ f : (inject_Z (f + 1) == inject_Z f + 1)%Q.
Proof. rewrite inject_Z_plus. reflexivity. Qed.

(** [round] gives the nearest integer, the even one on a tie. *)
Lemma round_half_even_nearest q : nearest_even q (round_half_even q).
Proof.
  unfold round_half_even, nearest_even.
  pose proof (Qfloor_le q) as Hlo. pose proof (Qlt_floor q) as Hhi.
  rewrite inject_Z_succ in Hhi.
  set (f := Qfloor q) in *.
  destruct (Qcompare (q - inject_Z f) (1 # 2)) eqn:E.
  - apply Qeq_alt in E.
    destruct (Z.even f) eqn:Ev.
    + split; [lra|done].
    + rewrite inject_Z_succ. split; [lra|]. intros _.
      rewrite Z.even_add, Ev. done.
  - apply Qlt_alt in E. split; [lra|]. intros [H|H]; lra.
  - apply Qgt_alt in E. rewrite inject_Z_succ. split; [lra|]. intros [H|H]; lra.
Qed.

(** And there is one such integer only. *)
Lemma nearest_even_unique q d d' : nearest_even q d -> nearest_even q d' -> d = d'.
Proof.
  intros [[L1 U1] E1] [[L2 U2] E2].
  assert (d' < d + 2) as Hup.
  { rewrite Zlt_Qlt, inject_Z_plus. change (inject_Z 2) with 2%Q. lra. }
  assert (d < d' + 2) as Hdn.
  { rewrite Zlt_Qlt, inject_Z_plus. change (inject_Z 2) with 2%Q. lra. }
  destruct (Z.eq_dec d' d) as [|Hne]; [done|].
  destruct (Z.eq_dec d' (d + 1)) as [->|Hne'].
  - rewrite inject_Z_plus in L2, U2. change (inject_Z 1) with 1%Q in *.
    assert (q == inject_Z d + (1#2))%Q as Hq by lra.
    assert (Z.even d = true) as Ed by (apply E1; by left).
    assert (Z.even (d + 1) = true) as Hev.
    { apply E2. right. rewrite inject_Z_plus. change (inject_Z 1) with 1%Q. lra. }
    rewrite Z.even_add, Ed in Hev. done.
  - assert (d' = d + -1) as -> by lia.
    rewrite inject_Z_plus in L2, U2. change (inject_Z (-1)) with (-(1))%Q in *.
    assert (q == inject_Z d - (1#2))%Q as Hq by lra.
    assert (Z.even d = true) as Ed by (apply E1; by right).
    assert (Z.even (d + -1) = true) as Hev.
    { apply E2. left. rewrite inject_Z_plus. change (inject_Z (-1)) with (-(1))%Q. lra. }
    rewrite Z.even_add, Ed in Hev. done.
Qed.

Lemma round4_rounds x d : round4 x = d <-> rounds_to4 x d.
Proof.
  unfold round4, rounds_to4. split.
  - intros <-. apply round_half_even_nearest.
  - intros Hd. eapply nearest_even_unique; [apply round_half_even_nearest|exact Hd].
Qed.

(** What [get_cylinder_info] reports is the rounded diameter. *)
Lemma get_cylinder_info_spec shape d :
  get_cylinder_info shape = Some d <-> cylinder_of shape d.
Proof.
  unfold get_cylinder_info, cylinder_of. destruct (surface shape) as [r|].
  - split.
    + intros [= <-]. exists r. split; [done|]. by apply round4_rounds.
    + intros (r' & [= <-] & Hr). f_equal. by apply round4_rounds.
  - split; [done|]. by intros (r' & ? & _).
Qed.

Lemma positions_ge d shapes : forall i k, In k (positions d i shapes) -> (i <= k)%nat.
Proof.
  induction shapes as [|shape rest IH]; intros i k; simpl; [done|].
  destruct (decide (get_cylinder_info shape = Some d)).
  - intros [<-|Hin]; [lia|]. apply IH in Hin. lia.
  - intros Hin. apply IH in Hin. lia.
Qed.

Lemma positions_sorted d shapes : forall i, StronglySorted lt (positions d i shapes).
Proof.
  induction shapes as [|shape rest IH]; intros i; simpl; [constructor|].
  destruct (decide (get_cylinder_info shape = Some d)); [|apply IH].
  constructor; [apply IH|].
  apply List.Forall_forall. intros k Hk. apply positions_ge in Hk. lia.
Qed.

Lemma hole_groups_by_info w :
  doc (session w) <> None ->
  exists gs,
    get_holes w = (w, respond 200 (Holes gs)) /\
    StronglySorted ascending gs /\
    (forall g, In g gs ->
       ids g = positions (diameter g) O (face_shapes (session w)) /\
       ids g <> [] /\ count g = length (ids g) /\
       forall i, In i (ids g) <->
                 exists shape, face_shapes (session w) !! i = Some shape /\
                               get_cylinder_info shape = Some (diameter g)) /\
    (forall i shape d,
       face_shapes (session w) !! i = Some shape ->
       get_cylinder_info shape = Some d ->
       exists g, In g gs /\ diameter g = d /\ In i (ids g)) /\
    (forall d,
       (forall shape d', In shape (face_shapes (session w)) ->
                         get_cylinder_info shape = Some d' -> d' = d) ->
       positions d O (face_shapes (session w)) <> [] ->
       gs = [ {| diameter := d;
                 ids := positions d O (face_shapes (session w));
                 count := length (positions d O (face_shapes (session w))) |} ]).
Proof.
  intros Hdoc. exists (hole_groups (face_shapes (session w))).
  split. { unfold get_holes. by destruct (doc (session w)). }
  set (shapes := face_shapes (session w)).
  set (G := group_faces O shapes []).
  destruct (group_faces_spec shapes O [])
    as (Hnd & Hne & Hg); [constructor|by intros x Hx; apply elem_of_nil in Hx|].
  fold G in Hnd, Hne, Hg. simpl in Hg.
  assert (Permutation (hole_groups shapes) (map as_group G)) as Hperm
    by apply sort_groups_perm.
  assert (forall g, In g (hole_groups shapes) ->
            ids g = positions (diameter g) O shapes /\ ids g <> [] /\
            count g = length (ids g)) as Hgroups.
  { intros g Hin. apply list_elem_of_In in Hin. rewrite Hperm in Hin.
    apply list_elem_of_fmap in Hin as ([d l] & -> & Hin). simpl.
    assert (group_of d G = l) as Hl by by apply group_of_entry.
    split; [by rewrite <- Hg, Hl|]. split; [|done].
    rewrite <- Hl. apply Hne. apply list_elem_of_fmap. by exists (d, l). }
  assert (forall d, positions d O shapes <> [] ->
            exists g, In g (hole_groups shapes) /\ diameter g = d) as Hall.
  { intros d Hd. rewrite <- Hg in Hd. apply group_of_key in Hd.
    apply list_elem_of_fmap in Hd as ([d' l] & -> & Hin).
    exists (as_group (d', l)). split; [|done].
    apply list_elem_of_In. rewrite Hperm. apply list_elem_of_fmap. by exists (d', l). }
  assert (StronglySorted ascending (hole_groups shapes)) as Hsorted.
  { apply sorted_distinct_ascending; [apply sort_groups_sorted|].
    fold (hole_groups shapes). rewrite Hperm, map_diameter_as_group. done. }
  split; [done|]. split; [|split].
  - intros g Hin. destruct (Hgroups g Hin) as (Hids & Hn & Hc).
    split; [done|]. split; [done|]. split; [done|].
    intros i. rewrite Hids, positions_In. split.
    + intros (j & shape & -> & Hl & Hci). by exists shape.
    + intros (shape & Hl & Hci). by exists i, shape.
  - intros i shape d Hl Hc.
    assert (In i (positions d O shapes)) as Hi.
    { apply positions_In. by exists i, shape. }
    destruct (Hall d) as (g & Hin & <-); [by destruct (positions d O shapes)|].
    exists g. split; [done|]. split; [done|].
    by destruct (Hgroups g Hin) as (-> & _).
  - intros d Hsame Hd.
    assert (forall g, In g (hole_groups shapes) -> diameter g = d) as Hdia.
    { intros g Hin. destruct (Hgroups g Hin) as (Hids & Hn & _).
      rewrite Hids in Hn.
      destruct (positions (diameter g) O shapes) as [|k ks] eqn:E; [done|].
      assert (In k (positions (diameter g) O shapes)) as Hk by (rewrite E; by left).
      apply positions_In in Hk as (j & shape & _ & Hl & Hc).
      apply (Hsame shape); [|done].
      apply list_elem_of_In. by eapply list_elem_of_lookup_2. }
    destruct (Hall d Hd) as (g0 & Hin0 & Hd0).
    destruct (ascending_same_diameter d _ Hsorted Hdia) as [Hnil|[g Hone]].
    + rewrite Hnil in Hin0. done.
    + rewrite Hone in *. f_equal.
      pose proof (Hdia g (or_introl eq_refl)) as Hgd.
      destruct (Hgroups g (or_introl eq_refl)) as (Hids & _ & Hc).
      destruct g as [gd gi gc]. simpl in Hgd, Hids, Hc. by subst.
Qed.

(** C9.  For a loaded document, [get_holes] answers with one group per
    distinct rounded diameter of the cylindrical faces, in strictly
    ascending order of diameter.  The diameter of a group is twice the
    radius of its faces rounded to four decimals: the nearest number of
    ten-thousandths, the even one on a tie.  A group lists, in ascending
    order, exactly the indices of the cylindrical faces with that rounded
    diameter, and counts them.  When all the cylindrical faces have one
    rounded diameter, as the two faces of radius 5.0 among six do, the
    answer is the single group of that diameter. *)
Theorem holes_grouped_by_diameter w :
  doc (session w) <> None ->
  exists gs,
    get_holes w = (w, respond 200 (Holes gs)) /\
    StronglySorted ascending gs /\
    (forall g, In g gs ->
       ids g = positions (diameter g) O (face_shapes (session w)) /\
       ids g <> [] /\ count g = length (ids g) /\
       StronglySorted lt (ids g) /\
       forall i, In i (ids g) <->
                 exists shape r, face_shapes (session w) !! i = Some shape /\
                                 surface shape = Cylinder r /\
                                 rounds_to4 (r * 2) (diameter g)) /\
    (forall i shape r d,
       face_shapes (session w) !! i = Some shape ->
       surface shape = Cylinder r ->
       rounds_to4 (r * 2) d ->
       exists g, In g gs /\ diameter g = d /\ In i (ids g)) /\
    (forall d,
       (forall shape d', In shape (face_shapes (session w)) ->
                         cylinder_of shape d' -> d' = d) ->
       (exists shape, In shape (face_shapes (session w)) /\ cylinder_of shape d) ->
       gs = [ {| diameter := d;
                 ids := positions d O (face_shapes (session w));
                 count := length (positions d O (face_shapes (session w))) |} ]).
Proof.
  intros Hdoc.
  destruct (hole_groups_by_info w Hdoc) as (gs & Hg & Hsorted & Hgroups & Hcover & Hone).
  exists gs. split; [done|]. split; [done|]. split; [|split].
  - intros g Hin. destruct (Hgroups g Hin) as (Hids & Hne & Hc & Hiff).
    split; [done|]. split; [done|]. split; [done|].
    split; [rewrite Hids; apply positions_sorted|].
    intros i. rewrite Hiff. split.
    + intros (shape & Hl & Hi). apply get_cylinder_info_spec in Hi as (r & Hs & Hr).
      by exists shape, r.
    + intros (shape & r & Hl & Hs & Hr). exists shape. split; [done|].
      apply get_cylinder_info_spec. by exists r.
  - intros i shape r d Hl Hs Hr. apply (Hcover i shape d Hl).
    apply get_cylinder_info_spec. by exists r.
  - intros d Hsame (shape & Hin & Hcyl). apply Hone.
    + intros shape' d' Hin' Hi. apply (Hsame shape' d' Hin').
      by apply get_cylinder_info_spec.
    + apply list_elem_of_In, list_elem_of_lookup_1 in Hin as [i Hl].
      assert (In i (positions d O (face_shapes (session w)))) as Hi.
      { apply positions_In. exists i, shape. split; [done|]. split; [done|].
        by apply get_cylinder_info_spec. }
      by destruct (positions d O (face_shapes (session w))).
Qed.

(** Six faces, the second and the fifth cylinders of radius 5: twice 5.0
    rounds to 10.0000, and the answer is one group of that diameter with
    the two faces. *)
Lemma holes_grouped_by_diameter_witness :
  rounds_to4 (5 * 2) 100000 /\
  get_holes Demo.world
  = (Demo.world,
     respond 200 (Holes [ {| diameter := 100000; ids := [1%nat; 4%nat]; count := 2 |} ])).
Proof.
  assert (rounds_to4 (5 * 2) 100000) as Hten by (by apply round4_rounds).
  split; [exact Hten|].
  destruct (holes_grouped_by_diameter Demo.world) as (gs & Hg & _ & _ & _ & Hone);
    [done|].
  rewrite Hg. rewrite (Hone 100000); [reflexivity| |].
  - intros shape d' Hin (r & Hs & Hr).
    repeat (destruct Hin as [<-|Hin]; [try discriminate Hs|]); try done;
      injection Hs as <-; apply round4_rounds in Hr; by rewrite <- Hr.
  - exists Demo.hole. split; [simpl; tauto|]. by exists 5%Q.
Defined.

(** ** Further properties of the substitutions *)

Lemma sub_clean g M p' repl (t : text) :
  occurs M t = false -> sub ((g, Lit M) :: p') repl t = t.
Proof.
  intros Ho. rewrite <- (app_nil_r t) at 1.
  rewrite sub_quiet by (by apply quiet_clean).
  rewrite sub_nil; [by rewrite app_nil_r|].
  apply pmatch_needs_marker, occurs_false_starts.
  apply (occurs_false_suffix M t []). by rewrite app_nil_r.
Qed.

(** X1.  A text that contains none of the three markers is left as it is
    by the three substitutions, and a purge that reaches the file step on
    such a file writes the content back unchanged and reports 0 characters
    removed. *)
Theorem strip_marker_free_text `{Collaborators} (t : text) scope target w path :
  occurs tag_marker t = false ->
  occurs comment_marker t = false ->
  occurs entity_marker t = false ->
  scope_in scope ["file"; "all"] = true ->
  resolve (files w) target = Some path ->
  read_file path (files w) = Some t ->
  strip t = t /\
  exists w',
    file_cleanup scope target w
    = Some (w', ["Stripped STEP file (0 chars removed)"]) /\
    read_file path (files w') = Some t.
Proof.
  intros Ht Hc He Hs Hr Hf.
  assert (strip t = t) as Hst.
  { unfold strip, strip_tag, strip_comment, strip_entity.
    rewrite tag_marker_cons, sub_clean by done.
    rewrite comment_marker_cons, sub_clean by done.
    rewrite entity_marker_cons at 1. by rewrite sub_clean. }
  split; [done|].
  unfold file_cleanup. rewrite Hs, Hr, Hf, Hst, Z.sub_diag.
  eexists. split; [reflexivity|]. simpl. apply read_write_file.
Qed.

Lemma strip_marker_free_text_witness :
  strip Demo.step_file = Demo.step_file.
Proof.
  apply (strip_marker_free_text (H := Demo.collaborators) Demo.step_file
           (ScopeStr "file") "abc" Demo.world (UploadFile "abc")); reflexivity.
Defined.

(** A substitution whose replacement is never longer than the match never
    lengthens the text. *)
Lemma sub_length p repl :
  (forall s ms, pmatch p s = Some ms ->
                (length (repl ms) <= length (List.concat ms))%nat) ->
  forall s : text, (length (sub p repl s) <= length s)%nat.
Proof.
  intros Hrepl s.
  remember (length s) as n eqn:Hn. revert s Hn.
  induction n as [n IH] using lt_wf_ind. intros s ->.
  destruct (pmatch p s) as [ms|] eqn:Hm.
  - pose proof (Hrepl _ _ Hm) as Hle.
    pose proof Hm as Hsound. unfold pmatch in Hsound.
    apply amatch_sound in Hsound as [_ [rest Hs]].
    destruct (List.concat ms) as [|c m] eqn:Ec.
    + simpl in Hs, Hle. subst rest.
      assert (repl ms = []) as Hnil by (destruct (repl ms); [done|simpl in Hle; lia]).
      destruct s as [|c s'].
      * unfold sub. simpl. rewrite Hm, Hnil. simpl. lia.
      * unfold sub. simpl. rewrite Hm, Ec, Hnil. simpl.
        pose proof (IH (length s') ltac:(simpl; lia) s' eq_refl) as IH'.
        unfold sub in IH'. lia.
    + rewrite (sub_match _ _ _ rest _ Hm); [|by rewrite Ec|by rewrite Ec].
      rewrite Hs, !length_app.
      pose proof (IH (length rest) ltac:(rewrite Hs, length_app; simpl; lia) rest eq_refl).
      lia.
  - destruct s as [|c s'].
    + rewrite sub_nil by done. simpl. lia.
    + rewrite sub_miss by done. simpl.
      pose proof (IH (length s') ltac:(simpl; lia) s' eq_refl). lia.
Qed.

(** X2.  Stripping never lengthens a text: each of the three substitutions
    gives a text no longer than the one it is given, so the count of
    removed characters that the purge reports is never negative. *)
Theorem strip_never_lengthens (t : text) :
  (length (strip_tag t) <= length t)%nat /\
  (length (strip_comment t) <= length t)%nat /\
  (length (strip_entity t) <= length t)%nat /\
  (length (strip t) <= length t)%nat /\
  0 <= Z.of_nat (length t) - Z.of_nat (length (strip t)).
Proof.
  assert (forall s : text, (length (strip_tag s) <= length s)%nat) as Htag.
  { intros s. apply sub_length. intros; simpl; lia. }
  assert (forall s : text, (length (strip_comment s) <= length s)%nat) as Hcom.
  { intros s. apply sub_length. intros; simpl; lia. }
  assert (forall s : text, (length (strip_entity s) <= length s)%nat) as Hent.
  { intros s. apply sub_length. intros s' ms Hm.
    destruct (entity_match_shape _ _ Hm)
      as (w1 & w2 & tag & w3 & w4 & p & w5 & rest & _ & _ & _ & _ & _ & _ & _ & _
          & -> & ->).
    unfold entity_text. rewrite !length_app. simpl. lia. }
  assert (length (strip t) <= length t)%nat as Hall.
  { unfold strip. pose proof (Htag t). pose proof (Hcom (strip_tag t)).
    pose proof (Hent (strip_comment (strip_tag t))). lia. }
  repeat split; try done. lia.
Qed.

Lemma count_quotes_app (a b : text) :
  count_quotes (a ++ b) = (count_quotes a + count_quotes b)%nat.
Proof. unfold count_quotes. apply count_occ_app. Qed.

Lemma count_quotes_none (p : text) :
  Forall (fun c => c <> quote) p -> count_quotes p = O.
Proof.
  intros Hp. unfold count_quotes. apply count_occ_not_In.
  intros Hin. rewrite List.Forall_forall in Hp. by apply (Hp quote).
Qed.

(** X3.  Strategy-1 stripping keeps every quote character of the text: the
    string literals of the file begin and end where they did. *)
Theorem strip_entity_keeps_quotes (t : text) :
  count_quotes (strip_entity t) = count_quotes t.
Proof.
  remember (length t) as n eqn:Hn. revert t Hn.
  induction n as [n IH] using lt_wf_ind. intros t Hn.
  destruct t as [|c s].
  - unfold strip_entity. by rewrite sub_nil.
  - unfold strip_entity.
    destruct (pmatch entity_pattern (c :: s)) as [ms|] eqn:Hm.
    + destruct (entity_match_shape _ _ Hm)
        as (w1 & w2 & tag & w3 & w4 & p & w5 & rest & _ & _ & _ & _ & _
            & _ & Hp & Hs & Hc & Hg).
      rewrite (sub_match _ _ _ rest _ Hm);
        [| by rewrite Hc | rewrite Hc; apply entity_text_nonempty ].
      rewrite Hg, Hs, !count_quotes_app.
      fold (strip_entity rest).
      rewrite (IH (length rest)); [|rewrite Hn, Hs, length_app; unfold entity_text;
                                    rewrite length_app; simpl; lia|done].
      f_equal. unfold entity_text. rewrite !count_quotes_app.
      rewrite (count_quotes_none p Hp). reflexivity.
    + rewrite sub_miss by done. fold (strip_entity s).
      unfold count_quotes in *. simpl.
      rewrite (IH (length s)); [done|simpl in Hn; lia|done].
Qed.

(** ** Further properties of the purge workflow *)

Lemma lookup_foldr_delete_in (m : Store) hs h :
  In h hs -> foldr delete m hs !! h = None.
Proof.
  induction hs as [|h' hs IH]; simpl; [done|]. intros Hin.
  destruct (decide (h' = h)) as [->|Hne]; [by rewrite lookup_delete_eq|].
  rewrite lookup_delete_ne by done. apply IH. by destruct Hin.
Qed.

Lemma lookup_foldr_delete_out (m : Store) hs h :
  ~ In h hs -> foldr delete m hs !! h = m !! h.
Proof.
  induction hs as [|h' hs IH]; simpl; [done|]. intros Hin.
  rewrite lookup_delete_ne by (intros ->; apply Hin; by left).
  apply IH. intros ?. apply Hin. by right.
Qed.

Section PurgeScopes.

Context `{Collaborators}.

(** X4.  A purge with scope [db] removes from the store the entries of the
    document's known fingerprints and no other entry, leaves the files
    alone, clears the session's metadata map, and reports as
    [deleted_count] the number of faces with a known fingerprint, whether
    or not the store held an entry for them. *)
Theorem purge_scope_db w target w0 :
  target <> "" ->
  ensure_loaded w target = (w0, None) ->
  exists w',
    admin_clear_metadata w {| pr_uuid := Some target; pr_scope := ScopeStr "db" |}
    = (w', respond 200
             (Purged (length (omap known_hash (face_hashes (session w0))))
                (join_parts
                   ["Deleted " +:+ pretty (length (omap known_hash (face_hashes (session w0))))
                      +:+ " DB entries";
                    "Cleared in-memory metadata"]))) /\
    (forall h, In h (omap known_hash (face_hashes (session w0))) -> db w' !! h = None) /\
    (forall h, ~ In h (omap known_hash (face_hashes (session w0))) ->
               db w' !! h = db w !! h) /\
    files w' = files w /\
    face_meta (session w') = ∅.
Proof.
  intros Hne El.
  destruct (ensure_loaded_frame _ _ _ _ El) as (D0 & F0 & _).
  eexists. split; [|split; [|split; [|split]]].
  - unfold admin_clear_metadata. cbn [pr_uuid pr_scope scope_of].
    destruct (decide (target = "")); [done|]. rewrite El.
    unfold db_cleanup, file_cleanup. simpl. reflexivity.
  - intros h Hin. simpl. by apply lookup_foldr_delete_in.
  - intros h Hin. simpl. rewrite lookup_foldr_delete_out by done. by rewrite D0.
  - simpl. done.
  - done.
Qed.

(** X5.  A purge with scope [file] leaves the store as it was and reports
    [deleted_count] 0; the document's file holds the stripped text
    afterwards, every other file is untouched, and the session's metadata
    map is empty. *)
Theorem purge_scope_file w target w0 path content :
  target <> "" ->
  ensure_loaded w target = (w0, None) ->
  resolve (files w0) target = Some path ->
  read_file path (files w0) = Some content ->
  exists w' msg,
    admin_clear_metadata w {| pr_uuid := Some target; pr_scope := ScopeStr "file" |}
    = (w', respond 200 (Purged O msg)) /\
    db w' = db w /\
    read_file path (files w') = Some (strip content) /\
    (forall p, p <> path -> read_file p (files w') = read_file p (files w)) /\
    face_meta (session w') = ∅.
Proof.
  intros Hne El Hr Hc.
  destruct (ensure_loaded_frame _ _ _ _ El) as (D0 & F0 & _).
  eexists _, _. split; [|split; [|split; [|split]]].
  - unfold admin_clear_metadata. cbn [pr_uuid pr_scope scope_of].
    destruct (decide (target = "")); [done|]. rewrite El.
    unfold db_cleanup, file_cleanup. simpl. rewrite Hr, Hc. reflexivity.
  - simpl. done.
  - simpl. apply read_write_file.
  - intros p Hp. simpl. rewrite <- F0.
    destruct p as [n|], path as [n'|]; simpl; try done.
    apply lookup_insert_ne. congruence.
  - done.
Qed.

(** X6.  A purge with scope [all], or with no scope given, empties the
    whole store, entries of other documents included, and still reports
    [deleted_count] 0; the file holds the stripped text and the session's
    metadata map is empty. *)
Theorem purge_scope_all w target scope w0 path content :
  target <> "" ->
  scope = ScopeStr "all" \/ scope = ScopeAbsent ->
  ensure_loaded w target = (w0, None) ->
  resolve (files w0) target = Some path ->
  read_file path (files w0) = Some content ->
  exists w' msg,
    admin_clear_metadata w {| pr_uuid := Some target; pr_scope := scope |}
    = (w', respond 200 (Purged O msg)) /\
    db w' = ∅ /\
    read_file path (files w') = Some (strip content) /\
    face_meta (session w') = ∅.
Proof.
  intros Hne Hs El Hr Hc.
  assert (scope_of scope = ScopeStr "all") as Hso by (by destruct Hs as [-> | ->]).
  eexists _, _. split; [|split; [|split]].
  - unfold admin_clear_metadata. cbn [pr_uuid pr_scope]. rewrite Hso.
    destruct (decide (target = "")); [done|]. rewrite El.
    unfold db_cleanup, file_cleanup. simpl. rewrite Hr, Hc. reflexivity.
  - done.
  - simpl. apply read_write_file.
  - done.
Qed.

(** X7.  When the document is loaded but its file is gone, a purge with
    scope [file] or [all] answers 404 after the database step: with scope
    [all] the store is already empty, and the session's metadata map has
    not been cleared. *)
Theorem purge_file_missing w target scope :
  target <> "" ->
  model_uuid (session w) = Some target ->
  resolve (files w) target = None ->
  scope_in (scope_of scope) ["file"; "all"] = true ->
  exists w',
    admin_clear_metadata w {| pr_uuid := Some target; pr_scope := scope |}
    = (w', respond 404 (Error "STEP file not found on server")) /\
    session w' = session w /\
    files w' = files w /\
    db w' = (if scope_in (scope_of scope) ["all"] then ∅ else db w).
Proof.
  intros Hne Hu Hr Hs.
  assert (ensure_loaded w target = (w, None)) as El.
  { unfold ensure_loaded. by rewrite decide_True. }
  destruct (db_cleanup (scope_of scope) w) as [[w1 n] parts1] eqn:Ed.
  destruct (db_cleanup_frame _ _ _ _ _ Ed) as (S1 & F1 & _).
  exists w1. split; [|split; [done|split; [done|]]].
  - unfold admin_clear_metadata. cbn [pr_uuid pr_scope].
    destruct (decide (target = "")); [done|]. rewrite El, Ed.
    unfold file_cleanup. rewrite Hs, F1, Hr. reflexivity.
  - unfold db_cleanup in Ed.
    destruct (scope_of scope) as [|s|] eqn:Es; [done| |done].
    simpl in Hs, Ed |- *.
    apply bool_decide_eq_true in Hs. apply list_elem_of_In in Hs.
    destruct Hs as [<-|[<-|[]]]; simpl in Ed; by injection Ed as <- _ _.
Qed.

(** X8.  A purge request for a document that is neither the loaded one nor
    on disk answers 404, and by then the session has been reset: the
    document that was loaded is gone and the session carries the requested
    identifier.  Store and files are untouched. *)
Theorem purge_unknown_document_resets w target scope :
  target <> "" ->
  model_uuid (session w) <> Some target ->
  resolve (files w) target = None ->
  exists w',
    admin_clear_metadata w {| pr_uuid := Some target; pr_scope := scope |}
    = (w', respond 404 (Error "Model not found on server")) /\
    session w' = set_model_uuid (Some target) reset /\
    session_empty (session w') /\
    db w' = db w /\ files w' = files w /\ log w' = log w.
Proof.
  intros Hne Hu Hr.
  exists (with_session (set_model_uuid (Some target) reset) w).
  split; [|split; [done|split; [|done]]].
  - unfold admin_clear_metadata. cbn [pr_uuid pr_scope].
    destruct (decide (target = "")); [done|].
    unfold ensure_loaded. rewrite decide_False by done.
    cbn [files with_session]. rewrite Hr. reflexivity.
  - simpl. by repeat split.
Qed.

(** X9.  When the requested document is the one loaded, a successful purge
    does not load it again: the session afterwards is the session before
    with an empty metadata map, faces and fingerprints as they were. *)
Theorem purge_keeps_loaded_document w target scope w' b :
  model_uuid (session w) = Some target ->
  admin_clear_metadata w {| pr_uuid := Some target; pr_scope := scope |}
  = (w', respond 200 b) ->
  session w' = set_face_meta ∅ (session w).
Proof.
  intros Hu Hok.
  destruct (admin_success _ _ _ _ Hok)
    as (t & w0 & w1 & n & parts1 & w2 & parts2 & Ht & _ & El & Ed & Ef & -> & _).
  simpl in Ht. injection Ht as <-.
  unfold ensure_loaded in El. rewrite decide_True in El by done.
  injection El as <-.
  apply db_cleanup_frame in Ed as (S1 & _ & _).
  apply file_cleanup_frame in Ef as (S2 & _ & _).
  simpl. by rewrite S2, S1.
Qed.

End PurgeScopes.

Lemma purge_scope_db_witness :
  let w' := fst (admin_clear_metadata (H := Demo.collaborators) Demo2.stocked
                   {| pr_uuid := Some "abc"; pr_scope := ScopeStr "db" |}) in
  db Demo2.stocked !! "fp-0" <> None /\
  db w' !! "fp-0" = None /\ db w' !! "fp-other" = db Demo2.stocked !! "fp-other".
Proof.
  destruct (purge_scope_db (H := Demo.collaborators) Demo2.stocked "abc" Demo2.stocked)
    as (w' & E & Hin & Hout & _); [done|reflexivity|].
  cbn zeta. rewrite E. cbn [fst].
  split; [by vm_compute|]. split.
  - apply Hin. vm_compute. tauto.
  - apply Hout. vm_compute. intros [?|[?|[?|[]]]]; discriminate.
Defined.

Lemma purge_scope_file_witness :
  exists w' msg,
    admin_clear_metadata (H := Demo.collaborators) Demo2.stocked
      {| pr_uuid := Some "abc"; pr_scope := ScopeStr "file" |}
    = (w', respond 200 (Purged O msg)) /\ db w' = db Demo2.stocked.
Proof.
  destruct (purge_scope_file (H := Demo.collaborators) Demo2.stocked "abc" Demo2.stocked
              (UploadFile "abc") Demo.step_file)
    as (w' & msg & E & Hdb & _); [done|reflexivity|reflexivity|reflexivity|].
  by exists w', msg.
Defined.

Lemma purge_scope_all_witness :
  exists w' msg,
    admin_clear_metadata (H := Demo.collaborators) Demo2.stocked
      {| pr_uuid := Some "abc"; pr_scope := ScopeAbsent |}
    = (w', respond 200 (Purged O msg)) /\ db w' = ∅.
Proof.
  destruct (purge_scope_all (H := Demo.collaborators) Demo2.stocked "abc" ScopeAbsent
              Demo2.stocked (UploadFile "abc") Demo.step_file)
    as (w' & msg & E & Hdb & _); [done|by right|reflexivity|reflexivity|reflexivity|].
  by exists w', msg.
Defined.

Lemma purge_file_missing_witness :
  exists w',
    admin_clear_metadata (H := Demo.collaborators) Demo2.orphaned
      {| pr_uuid := Some "abc"; pr_scope := ScopeStr "all" |}
    = (w', respond 404 (Error "STEP file not found on server")) /\
    face_meta (session w') = face_meta (session Demo2.orphaned) /\
    face_meta (session w') <> ∅ /\ db w' = ∅.
Proof.
  destruct (purge_file_missing (H := Demo.collaborators) Demo2.orphaned "abc"
              (ScopeStr "all"))
    as (w' & E & Hs & _ & Hdb); [done|reflexivity|reflexivity|reflexivity|].
  exists w'. split; [exact E|]. rewrite Hs. split; [done|]. split; [by vm_compute|exact Hdb].
Defined.

Lemma purge_unknown_document_resets_witness :
  exists w',
    admin_clear_metadata (H := Demo.collaborators) Demo.world
      {| pr_uuid := Some "zzz"; pr_scope := ScopeStr "db" |}
    = (w', respond 404 (Error "Model not found on server")) /\
    face_shapes (session Demo.world) <> [] /\ face_shapes (session w') = [].
Proof.
  destruct (purge_unknown_document_resets (H := Demo.collaborators) Demo.world "zzz"
              (ScopeStr "db"))
    as (w' & E & _ & (_ & Hsh & _) & _); [done|done|reflexivity|].
  exists w'. by repeat split.
Defined.

Lemma purge_keeps_loaded_document_witness :
  face_shapes (session (fst (admin_clear_metadata (H := Demo.collaborators) Demo2.stocked
                               {| pr_uuid := Some "abc"; pr_scope := ScopeStr "db" |})))
  = face_shapes (session Demo2.stocked).
Proof.
  erewrite (purge_keeps_loaded_document (H := Demo.collaborators) Demo2.stocked "abc"
              (ScopeStr "db")); [reflexivity|reflexivity|].
  vm_compute. reflexivity.
Defined.

(** ** Further properties of the setters *)

Lemma persist_count i w n :
  persist i w n = (fst (persist i w O), (n + snd (persist i w O))%nat).
Proof.
  unfold persist.
  destruct (i <? _); [|by rewrite Nat.add_0_r].
  destruct (face_hashes (session w) !! Z.to_nat i) as [fh|]; [|by rewrite Nat.add_0_r].
  destruct (known_hash fh) as [h|]; [|by rewrite Nat.add_0_r].
  destruct (decide (default ∅ (face_meta (session w) !! i) = ∅)); simpl;
    [by rewrite Nat.add_0_r|]. f_equal. lia.
Qed.

Lemma object_step_counts key mk : step_counts (object_step key mk).
Proof.
  intros w n item. unfold object_step.
  destruct (face_id item) as [i|]; [|by rewrite Nat.add_0_r].
  destruct (in_range (session w) i); [|by rewrite Nat.add_0_r].
  apply persist_count.
Qed.

Lemma set_attr_no_empty key v i fm :
  no_empty_record fm -> no_empty_record (set_attr key v i fm).
Proof.
  intros Hfm j m. unfold set_attr.
  destruct (decide (i = j)) as [->|Hne].
  - rewrite lookup_insert_eq. intros [= <-]. apply insert_non_empty.
  - rewrite lookup_insert_ne by done. apply Hfm.
Qed.

Lemma pop_attr_no_empty key i fm :
  no_empty_record fm -> no_empty_record (pop_attr key i fm).
Proof.
  intros Hfm j m. unfold pop_attr.
  destruct (fm !! i) as [m0|] eqn:E; [|apply Hfm].
  destruct (decide (delete key m0 = ∅)) as [He|He].
  - destruct (decide (i = j)) as [->|Hne].
    + by rewrite lookup_delete_eq.
    + rewrite lookup_delete_ne by done. apply Hfm.
  - destruct (decide (i = j)) as [->|Hne].
    + rewrite lookup_insert_eq. by intros [= <-].
    + rewrite lookup_insert_ne by done. apply Hfm.
Qed.

Lemma set_attr_keys key v i fm j :
  is_Some (set_attr key v i fm !! j) -> j = i \/ is_Some (fm !! j).
Proof.
  unfold set_attr. destruct (decide (i = j)) as [->|Hne]; [by left|].
  rewrite lookup_insert_ne by done. by right.
Qed.

Lemma pop_attr_keys key i fm j :
  is_Some (pop_attr key i fm !! j) -> is_Some (fm !! j).
Proof.
  unfold pop_attr. destruct (fm !! i) as [m0|] eqn:E; [|done].
  destruct (decide (delete key m0 = ∅)).
  - destruct (decide (i = j)) as [->|Hne].
    + rewrite lookup_delete_eq. by intros [? ?].
    + by rewrite lookup_delete_ne.
  - destruct (decide (i = j)) as [->|Hne].
    + by rewrite E.
    + by rewrite lookup_insert_ne.
Qed.

Lemma object_step_keeps key mk : step_keeps (object_step key mk).
Proof.
  intros w n item w' n'. unfold object_step.
  destruct (face_id item) as [i|]; [|by intros [= <- <-]].
  destruct (in_range (session w) i) eqn:Hr; [|by intros [= <- <-]].
  intros Hp. apply persist_cases in Hp as (Hs & _ & _).
  rewrite Hs. simpl. repeat split; try done.
  - intros Hfm. destruct (truthy (attr item));
      [by apply set_attr_no_empty|by apply pop_attr_no_empty].
  - intros Hk j Hj. unfold in_range in *. simpl in *.
    destruct (truthy (attr item)).
    + apply set_attr_keys in Hj as [->|Hj]; [done|by apply Hk].
    + apply pop_attr_keys in Hj. by apply Hk.
Qed.

Section ColorKeeps.

Context `{Collaborators}.

Lemma color_step_counts : step_counts color_step.
Proof.
  intros w n item. unfold color_step.
  destruct (face_id item) as [i|]; [|by rewrite Nat.add_0_r].
  destruct (attr item) as [hex|]; [|by rewrite Nat.add_0_r].
  destruct (in_range (session w) i); [|by rewrite Nat.add_0_r].
  destruct (hex_to_quantity hex) as [q|]; [|by rewrite Nat.add_0_r].
  destruct (face_labels (session w) !! Z.to_nat i) as [lab|]; [|by rewrite Nat.add_0_r].
  destruct (face_shapes (session w) !! Z.to_nat i) as [shp|]; [|by rewrite Nat.add_0_r].
  destruct (doc (session w)) as [d|]; [|by rewrite Nat.add_0_r].
  apply persist_count.
Qed.

Lemma color_step_keeps : step_keeps color_step.
Proof.
  intros w n item w' n'. unfold color_step.
  destruct (face_id item) as [i|]; [|by intros [= <- <-]].
  destruct (attr item) as [hex|]; [|by intros [= <- <-]].
  destruct (in_range (session w) i) eqn:Hr; [|by intros [= <- <-]].
  destruct (hex_to_quantity hex) as [q|]; [|by intros [= <- <-]].
  destruct (face_labels (session w) !! Z.to_nat i) as [lab|]; [|by intros [= <- <-]].
  destruct (face_shapes (session w) !! Z.to_nat i) as [shp|]; [|by intros [= <- <-]].
  destruct (doc (session w)) as [d|]; [|by intros [= <- <-]].
  intros Hp. apply persist_cases in Hp as (Hs & _ & _).
  rewrite Hs. simpl. repeat split; try done.
  - by apply set_attr_no_empty.
  - intros Hk j Hj. unfold in_range in *. simpl in *.
    apply set_attr_keys in Hj as [->|Hj]; [done|by apply Hk].
Qed.

End ColorKeeps.

Section BatchMore.

Context {A : Type} (step : World * nat -> Item A -> World * nat).
Hypothesis step_ok : step_sound step.
Hypothesis step_kept : step_keeps step.
Hypothesis step_counted : step_counts step.

Lemma fold_keeps items : forall w n w' n',
  fold_left step items (w, n) = (w', n') ->
  face_labels (session w') = face_labels (session w) /\
  face_raws (session w') = face_raws (session w) /\
  model_uuid (session w') = model_uuid (session w) /\
  original_filename (session w') = original_filename (session w) /\
  (is_Some (doc (session w)) -> is_Some (doc (session w'))) /\
  (no_empty_record (face_meta (session w)) ->
   no_empty_record (face_meta (session w'))) /\
  (keys_in_range (session w) -> keys_in_range (session w')).
Proof.
  induction items as [|item items IH]; intros w n w' n'.
  - by intros [= <- <-].
  - simpl. destruct (step (w, n) item) as [w1 n1] eqn:E. intros Hf.
    destruct (step_kept _ _ _ _ _ E) as (H1 & H2 & H3 & H4 & H5 & H6 & H7).
    destruct (IH _ _ _ _ Hf) as (I1 & I2 & I3 & I4 & I5 & I6 & I7).
    repeat split; try congruence; auto.
Qed.

Lemma fold_counts items : forall w n,
  fold_left step items (w, n)
  = (fst (fold_left step items (w, O)), (n + snd (fold_left step items (w, O)))%nat).
Proof.
  induction items as [|item items IH]; intros w n; simpl.
  - by rewrite Nat.add_0_r.
  - rewrite (step_counted w n item).
    destruct (step (w, O) item) as [w1 k] eqn:E. simpl.
    rewrite (IH w1 (n + k)%nat), (IH w1 k). simpl. f_equal. lia.
Qed.

End BatchMore.

Lemma handler_more {A} (step : World * nat -> Item A -> World * nat)
  (handler : World -> Batch A -> World * Response) :
  (forall w data, handler w data =
     match doc (session w) with
     | None => (w, no_model)
     | Some _ =>
         let '(w', n) := fold_left step (batch_items data) (w, O) in
         (w', respond 200 (Updated n))
     end) ->
  step_sound step -> step_keeps step -> step_counts step ->
  keeps_session_invariants handler /\ splits_batches handler.
Proof.
  intros Hh Hs Hk Hc. split.
  - intros w data. cbn zeta. rewrite Hh.
    destruct (doc (session w)) as [d|] eqn:Ed; [|by repeat split].
    destruct (fold_left step (batch_items data) (w, O)) as [w' n] eqn:E. cbn [fst].
    destruct (fold_sound step Hs _ _ _ _ _ E) as (S1 & S2 & S3 & _).
    destruct (fold_keeps step Hk _ _ _ _ _ E) as (K1 & K2 & K3 & K4 & K5 & K6 & K7).
    rewrite Ed in K5. by repeat split.
  - intros w a b w1 n1 w2 n2. rewrite !Hh.
    destruct (doc (session w)) as [d|] eqn:Ed; [|done].
    unfold updates_of, batch_items. cbn [updates].
    destruct (fold_left step a (w, O)) as [wa na] eqn:Ea.
    intros [= <- <-].
    destruct (fold_keeps step Hk _ _ _ _ _ Ea) as (_ & _ & _ & _ & K5 & _).
    destruct K5 as [d1 Hd1]; [by rewrite Ed|]. rewrite Hd1.
    destruct (fold_left step b (wa, O)) as [wb nb] eqn:Eb.
    intros [= <- <-].
    rewrite fold_left_app, Ea, (fold_counts step Hc), Eb. done.
Qed.

Section SetterInvariants.

Context `{Collaborators}.

(** X10.  The three setters keep the session's shape: faces, labels,
    fingerprints, raw descriptors, identifier, file name and the files stay
    as they were and a loaded document stays loaded; if no face carried an
    empty record before, none does after; and if every key of the metadata
    map was the index of a face before, so it is after. *)
Theorem setters_keep_session_invariants :
  keeps_session_invariants set_color /\
  keeps_session_invariants set_thread /\
  keeps_session_invariants set_tolerance.
Proof.
  split; [|split].
  - by apply (handler_more color_step set_color);
      [|apply color_step_sound|apply color_step_keeps|apply color_step_counts].
  - by apply (handler_more (object_step "thread" thread_value) set_thread);
      [|apply object_step_sound|apply object_step_keeps|apply object_step_counts].
  - by apply (handler_more (object_step "tolerance" tolerance_value) set_tolerance);
      [|apply object_step_sound|apply object_step_keeps|apply object_step_counts].
Qed.

(** X11.  A batch can be split: the request with the updates [a ++ b] ends
    in the world that the request with [a] followed by the request with [b]
    ends in, and its [db_updated_count] is the sum of theirs. *)
Theorem setters_split_batches :
  splits_batches set_color /\
  splits_batches set_thread /\
  splits_batches set_tolerance.
Proof.
  split; [|split].
  - by apply (handler_more color_step set_color);
      [|apply color_step_sound|apply color_step_keeps|apply color_step_counts].
  - by apply (handler_more (object_step "thread" thread_value) set_thread);
      [|apply object_step_sound|apply object_step_keeps|apply object_step_counts].
  - by apply (handler_more (object_step "tolerance" tolerance_value) set_tolerance);
      [|apply object_step_sound|apply object_step_keeps|apply object_step_counts].
Qed.

End SetterInvariants.

Lemma persist_saves i w n h m :
  0 <= i ->
  fingerprint_of (session w) i = Some h ->
  face_meta (session w) !! i = Some m ->
  m <> ∅ ->
  persist i w n
  = (save_face_meta h m (face_raws (session w) !! Z.to_nat i) w, S n).
Proof.
  intros Hi Hf Hm Hne. unfold persist, fingerprint_of in *.
  destruct (face_hashes (session w) !! Z.to_nat i) as [fh|] eqn:E; [|done].
  apply lookup_lt_Some in E as Hlt.
  destruct (Z.ltb_spec i (Z.of_nat (length (face_hashes (session w))))) as [_|Hge];
    [|lia].
  rewrite Hf, Hm. simpl. by rewrite decide_False.
Qed.

Lemma in_range_nonneg s i : in_range s i = true -> 0 <= i.
Proof. unfold in_range. intros Hr. apply andb_true_iff in Hr as [Hr _]. lia. Qed.

Lemma truthy_Some d : d <> ∅ -> truthy (Some d) = Some d.
Proof. intros Hd. unfold truthy. by rewrite decide_False. Qed.

(** A request with one valid update, on a loaded document. *)
Lemma object_single key mk handler :
  (forall w data, handler w data =
     match doc (session w) with
     | None => (w, no_model)
     | Some _ =>
         let '(w', n) := fold_left (object_step key mk) (batch_items data) (w, O) in
         (w', respond 200 (Updated n))
     end) ->
  forall w i v,
    doc (session w) <> None ->
    in_range (session w) i = true ->
    handler w (single_update i v)
    = (let '(w', n) :=
         persist i
           (with_session
              (set_face_meta
                 (match truthy v with
                  | Some d => set_attr key (mk d) i (face_meta (session w))
                  | None => pop_attr key i (face_meta (session w))
                  end) (session w)) w) O in
       (w', respond 200 (Updated n))).
Proof.
  intros Hh w i v Hdoc Hr. rewrite Hh.
  destruct (doc (session w)); [|done].
  unfold single_update, batch_items. cbn [updates fold_left object_step face_id attr].
  by rewrite Hr.
Qed.

Lemma handler_attribute key mk handler :
  (forall w data, handler w data =
     match doc (session w) with
     | None => (w, no_model)
     | Some _ =>
         let '(w', n) := fold_left (object_step key mk) (batch_items data) (w, O) in
         (w', respond 200 (Updated n))
     end) ->
  stores_attribute key mk handler /\ round_trips key handler /\
  saves_record key mk handler.
Proof.
  intros Hh. split; [|split].
  - intros w i d Hdoc Hr Hd.
    rewrite (object_single key mk handler Hh) by done.
    rewrite (truthy_Some d Hd).
    destruct (persist i _ O) as [w' n] eqn:Ep.
    apply persist_cases in Ep as (Hs & _ & _). cbn [session with_session set_face_meta face_meta] in Hs.
    exists w', n, (<[key := mk d]> (default ∅ (face_meta (session w) !! i))).
    split; [done|]. rewrite Hs. cbn [face_meta set_face_meta]. unfold set_attr.
    split; [by rewrite lookup_insert_eq|]. split; [by rewrite lookup_insert_eq|].
    split.
    + intros k Hk. by rewrite lookup_insert_ne.
    + intros j Hj. by rewrite lookup_insert_ne.
  - intros w i d falsy Hdoc Hr Hd Hf Hold.
    rewrite (object_single key mk handler Hh w i (Some d)) by done.
    rewrite (truthy_Some d Hd).
    destruct (persist i _ O) as [w1 n1] eqn:Ep1.
    apply persist_cases in Ep1 as (Hs1 & _ & _).
    cbn [session with_session] in Hs1. cbn [fst].
    assert (doc (session w1) <> None) as Hdoc1 by (by rewrite Hs1).
    assert (in_range (session w1) i = true) as Hr1.
    { by rewrite (in_range_shapes (session w) (session w1)) by (by rewrite Hs1). }
    rewrite (object_single key mk handler Hh w1 i falsy) by done.
    rewrite Hf.
    destruct (persist i _ O) as [w2 n2] eqn:Ep2.
    apply persist_cases in Ep2 as (Hs2 & _ & _).
    cbn [session with_session] in Hs2. cbn [fst].
    rewrite Hs2, Hs1. cbn [face_meta set_face_meta].
    unfold pop_attr, set_attr. rewrite lookup_insert_eq. cbn zeta.
    destruct (face_meta (session w) !! i) as [m|] eqn:Em.
    + destruct (Hold m eq_refl) as [Hne Hk]. cbn [default].
      rewrite delete_insert_eq, (delete_id m key Hk).
      rewrite decide_False by done.
      rewrite insert_insert_eq. by apply insert_id.
    + cbn [default]. rewrite delete_insert_eq, delete_empty.
      rewrite decide_True by done.
      rewrite delete_insert_eq. by apply delete_id.
  - intros w i d h Hdoc Hr Hd Hfp.
    rewrite (object_single key mk handler Hh) by done.
    rewrite (truthy_Some d Hd).
    rewrite (persist_saves i _ O h (<[key := mk d]> (default ∅ (face_meta (session w) !! i)))).
    + eexists _, _. split; [reflexivity|]. cbn.
      unfold set_attr. split; [by rewrite lookup_insert_eq|].
      split; [by rewrite lookup_insert_eq|].
      split; [|done]. intros h' Hh'. by rewrite lookup_insert_ne.
    + by apply (in_range_nonneg (session w)).
    + done.
    + cbn. unfold set_attr. by rewrite lookup_insert_eq.
    + apply insert_non_empty.
Qed.

Lemma thread_value_fields d :
  has_fields (thread_value d) ["type"; "size"; "pitch"; "class"] d.
Proof.
  intros k. cbn [list_to_map foldr fst snd].
  destruct (decide (k = "type")) as [->|H1]; [by rewrite lookup_insert_eq|].
  rewrite lookup_insert_ne by done.
  destruct (decide (k = "size")) as [->|H2]; [by rewrite lookup_insert_eq|].
  rewrite lookup_insert_ne by done.
  destruct (decide (k = "pitch")) as [->|H3]; [by rewrite lookup_insert_eq|].
  rewrite lookup_insert_ne by done.
  destruct (decide (k = "class")) as [->|H4]; [by rewrite lookup_insert_eq|].
  rewrite lookup_insert_ne, lookup_empty by done.
  rewrite bool_decide_eq_false_2; [done|].
  rewrite !elem_of_cons. intros [?|[?|[?|[?|Hn]]]]; try done. by apply elem_of_nil in Hn.
Qed.

Lemma tolerance_value_fields d :
  has_fields (tolerance_value d) ["type"; "value"; "datum"] d.
Proof.
  intros k. cbn [list_to_map foldr fst snd].
  destruct (decide (k = "type")) as [->|H1]; [by rewrite lookup_insert_eq|].
  rewrite lookup_insert_ne by done.
  destruct (decide (k = "value")) as [->|H2]; [by rewrite lookup_insert_eq|].
  rewrite lookup_insert_ne by done.
  destruct (decide (k = "datum")) as [->|H3]; [by rewrite lookup_insert_eq|].
  rewrite lookup_insert_ne, lookup_empty by done.
  rewrite bool_decide_eq_false_2; [done|].
  rewrite !elem_of_cons. intros [?|[?|[?|Hn]]]; try done. by apply elem_of_nil in Hn.
Qed.

(** X12.  Setting a thread or a tolerance on a valid face puts it into the
    face's record under its name, keeps the record's other attributes and
    the other faces' records; what is stored has exactly the fields
    type, size, pitch, class (type, value, datum for a tolerance), a
    missing field as the empty string, any other field of the request
    dropped. *)
Theorem setters_store_attribute :
  stores_attribute "thread" thread_value set_thread /\
  stores_attribute "tolerance" tolerance_value set_tolerance /\
  (forall d, has_fields (thread_value d) ["type"; "size"; "pitch"; "class"] d) /\
  (forall d, has_fields (tolerance_value d) ["type"; "value"; "datum"] d).
Proof.
  split; [|split; [|split]].
  - by apply (handler_attribute "thread" thread_value set_thread).
  - by apply (handler_attribute "tolerance" tolerance_value set_tolerance).
  - apply thread_value_fields.
  - apply tolerance_value_fields.
Qed.

(** X13.  In the session, removal undoes setting: a thread or tolerance set
    on a face that had none, then removed with a null or empty value,
    leaves the metadata map exactly as it was before the two requests. *)
Theorem set_then_remove_round_trips :
  round_trips "thread" set_thread /\ round_trips "tolerance" set_tolerance.
Proof.
  split.
  - by apply (handler_attribute "thread" thread_value set_thread).
  - by apply (handler_attribute "tolerance" tolerance_value set_tolerance).
Qed.

(** X14.  Setting a thread or a tolerance on a face with a known
    fingerprint stores the face's whole record, as the session now has it,
    with the face's raw descriptor under that fingerprint, replacing what
    the store held there; the other entries are kept and the answer counts
    one update. *)
Theorem setters_save_whole_record :
  saves_record "thread" thread_value set_thread /\
  saves_record "tolerance" tolerance_value set_tolerance.
Proof.
  split.
  - by apply (handler_attribute "thread" thread_value set_thread).
  - by apply (handler_attribute "tolerance" tolerance_value set_tolerance).
Qed.

Lemma setters_split_batches_witness :
  set_thread Demo.world
    (updates_of [Demo.one 0 (Some Demo.m6); Demo.one 1 (Some Demo.m6)])
  = (fst (set_thread Demo.threaded (updates_of [Demo.one 1 (Some Demo.m6)])),
     respond 200 (Updated (1 + 1))).
Proof.
  destruct (setters_split_batches (H := Demo.collaborators)) as (_ & Ht & _).
  apply (Ht Demo.world [Demo.one 0 (Some Demo.m6)] [Demo.one 1 (Some Demo.m6)]
            Demo.threaded 1%nat); vm_compute; reflexivity.
Defined.

Lemma setters_store_attribute_witness :
  exists w' n m',
    set_tolerance Demo.threaded (single_update 0 (Some Demo2.h7))
    = (w', respond 200 (Updated n)) /\
    face_meta (session w') !! 0 = Some m' /\
    m' !! "tolerance" = Some (tolerance_value Demo2.h7) /\
    m' !! "thread" = Some (thread_value Demo.m6).
Proof.
  destruct setters_store_attribute as (_ & Ht & _).
  destruct (Ht Demo.threaded 0 Demo2.h7) as (w' & n & m' & E & Hm & Hk & Ho & _);
    [done|reflexivity|done|].
  exists w', n, m'. split; [exact E|]. split; [exact Hm|]. split; [exact Hk|].
  rewrite Ho by done. reflexivity.
Defined.

Lemma set_then_remove_round_trips_witness :
  face_meta (session Demo.unthreaded) = face_meta (session Demo.world).
Proof.
  destruct set_then_remove_round_trips as [Ht _].
  apply (Ht Demo.world 0 Demo.m6 None); try done.
Defined.

Lemma setters_save_whole_record_witness :
  exists w' m',
    set_thread Demo.world (single_update 0 (Some Demo.m6))
    = (w', respond 200 (Updated 1)) /\
    db w' !! "fp-0" = Some (m', Some "plane").
Proof.
  destruct setters_save_whole_record as [Ht _].
  destruct (Ht Demo.world 0 Demo.m6 "fp-0") as (w' & m' & E & _ & Hdb & _);
    [done|reflexivity|done|reflexivity|].
  by exists w', m'.
Defined.

Section ColorItem.

Context `{Collaborators}.

(** X15.  One colour update on a valid face of a loaded document: a colour
    that does not parse, or a face without an entry in the label list, makes
    the item a no-op and the request still succeeds; otherwise the colour is
    set on the face's label when it has one that is not null and on its
    shape if not, and the face's record gets the colour string under
    [color]. *)
Theorem set_color_item w i hex_color d0 :
  doc (session w) = Some d0 ->
  in_range (session w) i = true ->
  (hex_to_quantity hex_color = None \/ face_labels (session w) !! Z.to_nat i = None ->
   set_color w (single_update i (Some hex_color)) = (w, respond 200 (Updated 0))) /\
  (forall q face_label,
     hex_to_quantity hex_color = Some q ->
     face_labels (session w) !! Z.to_nat i = Some face_label ->
     exists w' n face_shape,
       face_shapes (session w) !! Z.to_nat i = Some face_shape /\
       set_color w (single_update i (Some hex_color)) = (w', respond 200 (Updated n)) /\
       doc (session w') = Some (SetColor (color_target face_label face_shape) q d0) /\
       face_meta (session w')
       = set_attr "color" (VStr hex_color) i (face_meta (session w))).
Proof.
  intros Hdoc Hr.
  assert (is_Some (face_shapes (session w) !! Z.to_nat i)) as [shp Hshp].
  { apply lookup_lt_is_Some. unfold in_range in Hr.
    apply andb_true_iff in Hr as [H0 H1]. lia. }
  split.
  - intros Hbad. unfold set_color. rewrite Hdoc.
    unfold single_update, batch_items. cbn [updates fold_left color_step face_id attr].
    rewrite Hr, Hdoc.
    destruct Hbad as [-> | Hl]; [done|].
    destruct (hex_to_quantity hex_color); [|done]. by rewrite Hl.
  - intros q face_label Hq Hl. unfold set_color. rewrite Hdoc.
    unfold single_update, batch_items. cbn [updates fold_left color_step face_id attr].
    rewrite Hr, Hq, Hl, Hshp, Hdoc.
    destruct (persist i _ O) as [w' n] eqn:Ep.
    apply persist_cases in Ep as (Hs & _ & _).
    exists w', n, shp. split; [done|]. split; [done|]. rewrite Hs. by split.
Qed.

End ColorItem.

Lemma set_color_item_witness :
  set_color (H := Demo.collaborators) Demo.world (single_update 1 (Some "red"))
  = (Demo.world, respond 200 (Updated 0)).
Proof.
  destruct (set_color_item (H := Demo.collaborators) Demo.world 1 "red"
              {| colors := [] |}) as [Hbad _]; [reflexivity|reflexivity|].
  apply Hbad. by left.
Defined.

(** ** Further properties of loading and of the other routes *)

Section Routes.

Context `{Collaborators}.

(** X16.  An upload without a file part, with an empty file name, or with an
    extension that is not [.step] or [.stp] in any letter case is answered
    400 before anything happens: no file is saved and the session is not
    touched. *)
Theorem upload_rejected w file save_uuid :
  (file = None \/
   exists f, file = Some f /\
             (up_stem f +:+ up_ext f = "" \/ step_extension f = false)) ->
  exists msg, upload w file save_uuid = (w, respond 400 (Error msg)).
Proof.
  intros [-> | (f & -> & Hbad)]; [by eexists|].
  unfold upload.
  destruct (decide (up_stem f +:+ up_ext f = "")) as [|Hne]; [by eexists|].
  destruct Hbad as [?| ->]; [done|]. by eexists.
Qed.

(** X17.  An accepted upload keeps its file exactly when the load succeeds:
    after a failed load no file is left under the fresh name, after a
    successful one the file holds the uploaded content and the session is
    the one the loader built; in both cases the other uploads and the store
    are as before. *)
Theorem upload_keeps_file_iff_loaded w f save_uuid s' r :
  up_stem f +:+ up_ext f <> "" ->
  step_extension f = true ->
  load_step_xcaf (UploadFile save_uuid) (upload_staged w f save_uuid) = (s', r) ->
  let w' := fst (upload w (Some f) save_uuid) in
  read_file (UploadFile save_uuid) (files w')
  = (match r with inr _ => Some (up_content f) | inl _ => None end) /\
  session w' = (match r with inr _ => s' | inl _ => reset end) /\
  (forall n, n <> save_uuid ->
             read_file (UploadFile n) (files w') = read_file (UploadFile n) (files w)) /\
  sample (files w') = sample (files w) /\
  db w' = db w.
Proof.
  intros Hname Hext Hload. cbn zeta. unfold upload.
  destruct (decide (up_stem f +:+ up_ext f = "")); [done|].
  rewrite Hext, Hload.
  destruct r as [e|faces]; cbn.
  - split; [apply lookup_delete_eq|]. split; [done|]. split; [|done].
    intros k Hk. by rewrite lookup_delete_ne, lookup_insert_ne.
  - split; [apply lookup_insert_eq|]. split; [done|]. split; [|done].
    intros k Hk. by rewrite lookup_insert_ne.
Qed.

(** X18.  [get_model] answers 404 for an identifier without a file and
    leaves the world alone; for an identifier with a file the outcome does
    not depend on the document that was loaded before, since the session is
    reset before the loader runs. *)
Theorem get_model_forgets_previous w uuid_str :
  (read_file (UploadFile uuid_str) (files w) = None ->
   get_model w uuid_str = (w, respond 404 (Error "Model not found"))) /\
  (is_Some (read_file (UploadFile uuid_str) (files w)) ->
   forall s, get_model (with_session s w) uuid_str = get_model w uuid_str).
Proof.
  split.
  - intros Hn. unfold get_model. by rewrite Hn.
  - intros [t Ht] s. unfold get_model. cbn [files with_session]. by rewrite Ht.
Qed.

(** X19.  [test_sample] answers 404 and changes nothing when the sample
    file is missing.  When the loader fails on it without touching the
    session, the session is not reset: the faces and metadata of the
    document loaded before are still there, under the identifier and file
    name [sample]. *)
Theorem test_sample_keeps_session_on_failure w :
  (read_file SampleFile (files w) = None ->
   test_sample w = (w, (404, SampleError "Sample file not found"))) /\
  (forall e,
     is_Some (read_file SampleFile (files w)) ->
     (let staged := with_session
                      (set_model_uuid (Some "sample")
                         (set_original_filename (Some "sample") (session w))) w in
      load_step_xcaf SampleFile staged = (session staged, inl e)) ->
     exists w',
       test_sample w = (w', (500, SampleError e)) /\
       face_shapes (session w') = face_shapes (session w) /\
       face_hashes (session w') = face_hashes (session w) /\
       face_meta (session w') = face_meta (session w) /\
       doc (session w') = doc (session w) /\
       model_uuid (session w') = Some "sample" /\
       original_filename (session w') = Some "sample").
Proof.
  split.
  - intros Hn. unfold test_sample. by rewrite Hn.
  - intros e [t Ht] Hload. cbn zeta in Hload.
    unfold test_sample. rewrite Ht, Hload. eexists. by repeat split.
Qed.

(** X20.  Without a loaded document the three setters, the export and the
    hole detection answer 400 [No model loaded] and leave the session, the
    store, the files and the log as they were. *)
Theorem handlers_need_document w :
  doc (session w) = None ->
  (forall data, set_color w data = (w, no_model)) /\
  (forall data, set_thread w data = (w, no_model)) /\
  (forall data, set_tolerance w data = (w, no_model)) /\
  export_step w = (w, no_model) /\
  get_holes w = (w, no_model) /\
  status no_model = 400.
Proof.
  intros Hd. unfold set_color, set_thread, set_tolerance, export_step, get_holes.
  rewrite Hd. by repeat split.
Qed.

End Routes.

Lemma upload_rejected_witness :
  exists msg,
    upload (H := Demo.collaborators) Demo.world
      (Some {| up_stem := "part"; up_ext := ".iges"; up_content := Demo.step_file |}) "new"
    = (Demo.world, respond 400 (Error msg)).
Proof.
  apply (upload_rejected (H := Demo.collaborators)). right.
  eexists. split; [reflexivity|]. by right.
Defined.

Lemma upload_keeps_file_iff_loaded_witness :
  read_file (UploadFile "new")
    (files (fst (upload (H := Demo.collaborators) Demo.world (Some Demo.bad_upload) "new")))
  = None.
Proof.
  apply (upload_keeps_file_iff_loaded (H := Demo.collaborators) Demo.world
           Demo.bad_upload "new"
           (session (upload_staged Demo.world Demo.bad_upload "new"))
           (inl "not a STEP file")); [done|reflexivity|reflexivity].
Defined.

Lemma get_model_forgets_previous_witness :
  get_model (H := Demo.collaborators) (with_session reset Demo.world) "abc"
  = get_model (H := Demo.collaborators) Demo.world "abc".
Proof.
  destruct (get_model_forgets_previous (H := Demo.collaborators) Demo.world "abc")
    as [_ Hs].
  apply Hs. by eexists.
Defined.

Lemma test_sample_keeps_session_on_failure_witness :
  exists w',
    test_sample (H := Demo.collaborators) Demo2.bad_sample
    = (w', (500, SampleError "not a STEP file")) /\
    face_meta (session w') = face_meta (session Demo2.bad_sample) /\
    model_uuid (session Demo2.bad_sample) = Some "abc" /\
    model_uuid (session w') = Some "sample".
Proof.
  destruct (test_sample_keeps_session_on_failure (H := Demo.collaborators) Demo2.bad_sample)
    as [_ Hf].
  destruct (Hf "not a STEP file") as (w' & E & _ & _ & Hm & _ & Hu & _);
    [by eexists|reflexivity|].
  exists w'. by repeat split.
Defined.

Lemma handlers_need_document_witness :
  set_thread (with_session reset Demo.world) Demo.mixed_batch
  = (with_session reset Demo.world, no_model).
Proof.
  destruct (handlers_need_document (H := Demo.collaborators)
              (with_session reset Demo.world)) as (_ & Ht & _); [done|].
  apply Ht.
Defined.

(** ** The boot test *)

Lemma index_run_false n :
  index_run n false
  = repeat {| template := "index.html"; boot_test := Some false;
              version := Some APP_VERSION |} n.
Proof. induction n as [|n IH]; simpl; [done|]. by rewrite IH. Qed.

(** X21.  Of the requests to [/] that a fresh process serves, the first is
    rendered with the boot test on and every later one with it off. *)
Theorem boot_test_only_once n :
  index_run (S n) true
  = {| template := "index.html"; boot_test := Some true; version := Some APP_VERSION |}
    :: repeat {| template := "index.html"; boot_test := Some false;
                 version := Some APP_VERSION |} n.
Proof. simpl. by rewrite index_run_false. Qed.

(** ** The groups of holes partition the cylindrical faces *)

Lemma group_add_concat d i g :
  Permutation (List.concat (map snd (group_add d i g)))
              (i :: List.concat (map snd g)).
Proof.
  induction g as [|[d' l] g IH]; cbn [group_add]; [done|].
  destruct (d =? d'); cbn [map snd List.concat].
  - rewrite <- app_assoc. cbn [app].
    rewrite <- Permutation_middle. done.
  - rewrite IH. by rewrite <- Permutation_middle.
Qed.

Lemma group_faces_concat shapes : forall i g,
  Permutation (List.concat (map snd (group_faces i shapes g)))
              (List.concat (map snd g) ++ cylinders i shapes).
Proof.
  induction shapes as [|shape rest IH]; intros i g; simpl.
  - by rewrite app_nil_r.
  - destruct (get_cylinder_info shape) as [d|].
    + rewrite IH, group_add_concat. cbn [app].
      by rewrite <- Permutation_middle.
    + apply IH.
Qed.

Lemma ids_as_group g : map ids (map as_group g) = map snd g.
Proof. induction g as [|[d l] g IH]; simpl; [done|]. by rewrite IH. Qed.

Lemma concat_ids_perm (l l' : list HoleGroup) :
  Permutation l l' ->
  Permutation (List.concat (map ids l)) (List.concat (map ids l')).
Proof.
  induction 1 as [|x l l' _ IH|x y l|l l' l'' _ IH1 _ IH2]; simpl.
  - done.
  - by rewrite IH.
  - rewrite !app_assoc. f_equiv. apply Permutation_app_comm.
  - by rewrite IH1.
Qed.

Lemma cylinders_ge shapes : forall i k, In k (cylinders i shapes) -> (i <= k)%nat.
Proof.
  induction shapes as [|shape rest IH]; intros i k; simpl; [done|].
  destruct (get_cylinder_info shape).
  - intros [<-|Hin]; [lia|]. apply IH in Hin. lia.
  - intros Hin. apply IH in Hin. lia.
Qed.

Lemma cylinders_NoDup shapes : forall i, NoDup (cylinders i shapes).
Proof.
  induction shapes as [|shape rest IH]; intros i; simpl; [constructor|].
  destruct (get_cylinder_info shape); [|apply IH].
  apply NoDup_cons. split; [|apply IH].
  intros Hin. apply list_elem_of_In, cylinders_ge in Hin. lia.
Qed.

Lemma cylinders_In shapes : forall i k,
  In k (cylinders i shapes) <->
  exists j shape r, k = (i + j)%nat /\ shapes !! j = Some shape /\
                    surface shape = Cylinder r.
Proof.
  induction shapes as [|s rest IH]; intros i k; simpl.
  - split; [done|]. by intros (j & shape & r & _ & Hl & _).
  - unfold get_cylinder_info at 1. destruct (surface s) as [r0|] eqn:Es; simpl; rewrite IH.
    + split.
      * intros [<-|(j & shape & r & -> & Hl & Hc)].
        -- exists O, s, r0. split; [lia|done].
        -- exists (S j), shape, r. split; [lia|done].
      * intros (j & shape & r & -> & Hl & Hc). destruct j as [|j].
        -- left. lia.
        -- right. exists j, shape, r. split; [lia|done].
    + split.
      * intros (j & shape & r & -> & Hl & Hc). exists (S j), shape, r. split; [lia|done].
      * intros (j & shape & r & -> & Hl & Hc). destruct j as [|j].
        -- simpl in Hl. congruence.
        -- exists j, shape, r. split; [lia|done].
Qed.

Lemma total_count_length gs :
  Forall (fun g => count g = length (ids g)) gs ->
  total_count gs = length (List.concat (map ids gs)).
Proof.
  induction 1 as [|g gs Hg _ IH]; simpl; [done|].
  by rewrite length_app, Hg, IH.
Qed.

(** X22.  The groups that [get_holes] returns partition the cylindrical
    faces: every face whose surface is a cylinder is listed in exactly one
    group, no other face is listed, and the counts add up to the number of
    cylindrical faces.  The request changes nothing. *)
Theorem holes_partition_cylinders w :
  doc (session w) <> None ->
  exists gs,
    get_holes w = (w, respond 200 (Holes gs)) /\
    Permutation (List.concat (map ids gs)) (cylinders O (face_shapes (session w))) /\
    NoDup (List.concat (map ids gs)) /\
    total_count gs = length (cylinders O (face_shapes (session w))) /\
    (forall i, In i (List.concat (map ids gs)) <->
               exists shape r, face_shapes (session w) !! i = Some shape /\
                               surface shape = Cylinder r).
Proof.
  intros Hdoc. exists (hole_groups (face_shapes (session w))).
  split. { unfold get_holes. by destruct (doc (session w)). }
  set (shapes := face_shapes (session w)).
  assert (Permutation (List.concat (map ids (hole_groups shapes))) (cylinders O shapes))
    as Hperm.
  { unfold hole_groups.
    rewrite (concat_ids_perm _ _ (sort_groups_perm _)), ids_as_group.
    by rewrite group_faces_concat. }
  split; [done|]. split; [|split].
  - rewrite Hperm. apply cylinders_NoDup.
  - rewrite total_count_length; [by rewrite Hperm|].
    unfold hole_groups. rewrite sort_groups_perm.
    apply List.Forall_forall. intros g Hin.
    apply in_map_iff in Hin as ([d l] & <- & _). done.
  - intros i. rewrite <- !list_elem_of_In, Hperm, list_elem_of_In, cylinders_In.
    split.
    + intros (j & shape & r & -> & Hl & Hs). by exists shape, r.
    + intros (shape & r & Hl & Hs). by exists i, shape, r.
Qed.

Lemma holes_partition_cylinders_witness :
  exists gs,
    get_holes Demo.world = (Demo.world, respond 200 (Holes gs)) /\
    total_count gs = 2%nat.
Proof.
  destruct (holes_partition_cylinders Demo.world) as (gs & E & _ & _ & Hc & _); [done|].
  exists gs. split; [exact E|]. rewrite Hc. reflexivity.
Defined.
